(** * Car marketplace backend: request handlers of [main.py] over a document store

    The development follows [src/main.py] and [src/schemas.py].  Numbers of
    Python type [float] are IEEE binary64 values and are modelled exactly;
    documents are records after the Pydantic models; the store is a family of
    collections in insertion order. *)

From Stdlib Require Import ZArith QArith Qround Bool List String Ascii Lia.
From Stdlib Require Import NArith SpecFloat.
Import ListNotations.

Local Open Scope Z_scope.

(** ** Python floats (IEEE binary64) *)

Module PyFloat.

(** Every finite binary64 value is an integer multiple of [2^-1074] (the
    smallest subnormal).  A finite float is kept as that integer: the value of
    [Finite n] is [n * 2^-1074].  The sign of a zero is not kept: no
    operation used by the handlers observes it. *)
Inductive pyfloat : Type :=
  | Finite (n : Z)
  | Inf (negative : bool)
  | NaN.

(** [1.0] counted in units of [2^-1074]. *)
Definition one : Z := 2 ^ 1074.
(** [0.5] in the same units. *)
Definition half : Z := 2 ^ 1073.
(** First magnitude that no longer fits: [2^1024]. *)
Definition overflow_threshold : Z := 2 ^ 2098.

(** The float of a Python [int] literal (exact for the small literals of the
    handlers). *)
Definition of_int (i : Z) : pyfloat := Finite (i * one).

(** Exact rational value of a finite float. *)
Definition float_value (n : Z) : Q := Qmake n (Z.to_pos one).

(** Exponent (in units) of the last place of a value of magnitude [v]:
    53 significant bits, and never finer than one unit. *)
Definition ulp_exp (v : Z) : Z := Z.max 0 (Z.log2 (Z.abs v) - 52).

(** [n] units is a binary64 value: in range, and a multiple of its ulp. *)
Definition is_binary64 (x : pyfloat) : bool :=
  match x with
  | Finite n => (Z.abs n <? overflow_threshold) && (n mod 2 ^ ulp_exp n =? 0)
  | _ => true
  end.

(** Nearest integer to [a / b] for [0 < b], ties to even. *)
Definition rne_div (a b : Z) : Z :=
  let q := a / b in
  let r := a mod b in
  match 2 * r ?= b with
  | Lt => q
  | Gt => q + 1
  | Eq => if Z.even q then q else q + 1
  end.

(** Round the exact quantity [a / b] units ([0 < b]) to the nearest value
    with 53 significant bits, ties to even. *)
Definition round_units (a b : Z) : Z :=
  let e := ulp_exp (Z.abs a / b) in
  rne_div a (b * 2 ^ e) * 2 ^ e.

(** A rounded result, with overflow to an infinity. *)
Definition of_units (n : Z) : pyfloat :=
  if overflow_threshold <=? Z.abs n then Inf (n <? 0) else Finite n.

Definition fadd (x y : pyfloat) : pyfloat :=
  match x, y with
  | NaN, _ | _, NaN => NaN
  | Inf s, Inf t => if Bool.eqb s t then Inf s else NaN
  | Inf s, Finite _ => Inf s
  | Finite _, Inf t => Inf t
  | Finite a, Finite b => of_units (round_units (a + b) 1)
  end.

Definition fneg (x : pyfloat) : pyfloat :=
  match x with
  | Finite a => Finite (- a)
  | Inf s => Inf (negb s)
  | NaN => NaN
  end.

Definition fsub (x y : pyfloat) : pyfloat := fadd x (fneg y).

(** Division by a finite float [w > 0]. *)
Definition fdiv_pos (x : pyfloat) (w : Z) : pyfloat :=
  match x with
  | Finite a => of_units (round_units (a * one) w)
  | Inf s => Inf s
  | NaN => NaN
  end.

(** C's [fmod(x, w)] for a finite [w > 0]: exact, with the sign of [x]. *)
Definition fmod_pos (x : pyfloat) (w : Z) : pyfloat :=
  match x with
  | Finite a => Finite (Z.rem a w)
  | _ => NaN
  end.

(** C's [floor]. *)
Definition ffloor (x : pyfloat) : pyfloat :=
  match x with
  | Finite a => Finite (a / one * one)
  | _ => x
  end.

(** [x < y] and [x > y]; any comparison with a NaN is false. *)
Definition flt (x y : pyfloat) : bool :=
  match x, y with
  | NaN, _ | _, NaN => false
  | Inf s, Inf t => s && negb t
  | Inf s, Finite _ => s
  | Finite _, Inf t => negb t
  | Finite a, Finite b => a <? b
  end.

Definition fgt (x y : pyfloat) : bool := flt y x.

(** C truth value of a double: everything but zero. *)
Definition nonzero (x : pyfloat) : bool :=
  match x with
  | Finite a => negb (a =? 0)
  | _ => true
  end.

(** CPython's [float_floor_div] ([_float_div_mod] in floatobject.c) for a
    finite divisor [wx > 0]: the quotient is rebuilt from [fmod] and snapped
    to an integral value.
<<
    mod = fmod(vx, wx);
    div = (vx - mod) / wx;
    if (mod) { if ((wx < 0) != (mod < 0)) { mod += wx; div -= 1.0; } }
    if (div) { floordiv = floor(div);
               if (div - floordiv > 0.5) floordiv += 1.0; }
    else floordiv = copysign(0.0, vx / wx);
>> *)
Definition adjusted_quotient (vx : pyfloat) (wx : Z) : pyfloat :=
  let md := fmod_pos vx wx in
  let dv := fdiv_pos (fsub vx md) wx in
  if nonzero md then
    if negb (Bool.eqb (wx <? 0) (flt md (Finite 0)))
    then fsub dv (Finite one) else dv
  else dv.

Definition snap_quotient (dv : pyfloat) : pyfloat :=
  if nonzero dv then
    let floordiv := ffloor dv in
    if fgt (fsub dv floordiv) (Finite half)
    then fadd floordiv (Finite one) else floordiv
  else Finite 0.

Definition float_floor_div (vx : pyfloat) (wx : Z) : pyfloat :=
  snap_quotient (adjusted_quotient vx wx).

(** The value of [max(1, x)] for a float [x]: Python keeps the first
    argument unless the second compares greater. *)
Inductive int_or_float : Type :=
  | PyInt (i : Z)
  | PyFloat (x : pyfloat).

Definition max_1 (x : pyfloat) : int_or_float :=
  if fgt x (of_int 1) then PyFloat x else PyInt 1.

(** Python's [int(...)]: truncation toward zero; [OverflowError] on an
    infinity and [ValueError] on a NaN, both [None] here. *)
Definition to_int (v : int_or_float) : option Z :=
  match v with
  | PyInt i => Some i
  | PyFloat (Finite a) => Some (Z.quot a one)
  | PyFloat _ => None
  end.

(** The same value in the Standard Library's specification of IEEE 754
    floats ([SpecFloat], precision 53, [emax] 1024): sign, mantissa and
    exponent, the mantissa on 53 bits unless the value is subnormal. *)
Definition to_spec (x : pyfloat) : spec_float :=
  match x with
  | Finite n =>
      let e := ulp_exp n in
      match Z.abs n / 2 ^ e with
      | Zpos m => S754_finite (n <? 0) m (e - 1074)
      | _ => S754_zero false
      end
  | Inf s => S754_infinity s
  | NaN => S754_nan
  end.

End PyFloat.

Import PyFloat.

(** [pts = int(max(1, tx.amount // 10))] of [create_transaction]. *)
Definition earned_points (amount : pyfloat) : option Z :=
  to_int (max_1 (float_floor_div amount (10 * one))).


(** ** Text: case folding and the regular expressions of the search filter *)

Module Text.

Local Open Scope string_scope.

(** A string is the sequence of its bytes.  The case folding and the regular
    expressions of this module are those of ASCII text: they fold [A-Z] onto
    [a-z] and take one byte for one character, and say nothing of letters
    outside ASCII. *)
Definition is_ascii (s : string) : bool :=
  forallb (fun c => (N_of_ascii c <? 128)%N) (list_ascii_of_string s).

Definition to_lower (c : ascii) : ascii :=
  let n := nat_of_ascii c in
  if (Nat.leb 65 n && Nat.leb n 90)%bool then ascii_of_nat (n + 32) else c.

Fixpoint lower (s : string) : string :=
  match s with
  | EmptyString => EmptyString
  | String c s' => String (to_lower c) (lower s')
  end.

(** Python truth value of a string: non-empty. *)
Definition truthy (s : string) : bool :=
  match s with
  | EmptyString => false
  | String _ _ => true
  end.

(** Python truth value of an [Optional[str]] parameter. *)
Definition supplied (o : option string) : bool :=
  match o with
  | Some s => truthy s
  | None => false
  end.

(** *** Regular expressions

    The store receives the query text as the pattern of a [$regex] with
    option [i].  The fragment modelled here: ordinary characters, which stand
    for themselves up to case, and the wildcard [.], which stands for any
    character but a newline.  A pattern that uses another metacharacter of
    the regex syntax is outside the fragment ([None]). *)
Inductive atom : Type :=
  | Lit (c : ascii)
  | AnyChar.

Definition is_metachar (c : ascii) : bool :=
  existsb (Ascii.eqb c)
    ["\"; "^"; "$"; "."; "|"; "?"; "*"; "+"; "("; ")"; "["; "]"; "{"; "}"]%char.

Fixpoint regex_compile (pattern : string) : option (list atom) :=
  match pattern with
  | EmptyString => Some []
  | String c rest =>
      match regex_compile rest with
      | None => None
      | Some atoms =>
          if Ascii.eqb c "."%char then Some (AnyChar :: atoms)
          else if is_metachar c then None
          else Some (Lit c :: atoms)
      end
  end.

Definition newline : ascii := ascii_of_nat 10.

Definition atom_matches (a : atom) (c : ascii) : bool :=
  match a with
  | Lit l => Ascii.eqb (to_lower l) (to_lower c)
  | AnyChar => negb (Ascii.eqb c newline)
  end.

(** The pattern matches a prefix of the subject. *)
Fixpoint match_here (re : list atom) (s : string) : bool :=
  match re with
  | [] => true
  | a :: re' =>
      match s with
      | EmptyString => false
      | String c s' => atom_matches a c && match_here re' s'
      end
  end.

(** Unanchored search: the pattern matches somewhere in the subject. *)
Fixpoint regex_search (re : list atom) (s : string) : bool :=
  match_here re s ||
  match s with
  | EmptyString => false
  | String _ s' => regex_search re s'
  end.

(** A query text without metacharacters. *)
Definition literal (s : string) : bool :=
  forallb (fun c => negb (is_metachar c)) (list_ascii_of_string s).

(** The pattern a text without metacharacters compiles to. *)
Definition lits (s : string) : list atom := map Lit (list_ascii_of_string s).

(** The fragment as a regex engine: the texts a pattern finds a match in,
    [None] for a pattern outside the fragment. *)
Definition regex_i (pattern : string) : option (string -> bool) :=
  match regex_compile pattern with
  | Some re => Some (regex_search re)
  | None => None
  end.

(** What the specification means by a case-insensitive substring. *)
Definition substring_ci (needle hay : string) : Prop :=
  exists pre post, lower hay = pre ++ lower needle ++ post.

End Text.

(** ** Object identifiers (bson [ObjectId]) *)

Module ObjectId.

(** An identifier is a string of bytes, kept as a number.  The identifiers
    the store hands out, and those read from 24 hexadecimal digits, have 12
    bytes: such an identifier is the number its bytes spell, below [2^96].
    bson also builds identifiers of fewer bytes (see [parse]); an identifier
    of [k < 12] bytes that spell [v] is the number [(k + 1) * 2^96 + v],
    apart from every 12-byte identifier and from every identifier of another
    length. *)
Definition t : Type := N.

Definition hex_value (c : ascii) : option N :=
  let n := N_of_ascii c in
  if (48 <=? n)%N && (n <=? 57)%N then Some (n - 48)%N
  else if (97 <=? n)%N && (n <=? 102)%N then Some (n - 87)%N
  else if (65 <=? n)%N && (n <=? 70)%N then Some (n - 55)%N
  else None.

(** ASCII whitespace: space, and tab to carriage return. *)
Definition is_space (c : ascii) : bool :=
  let n := N_of_ascii c in
  (n =? 32)%N || ((9 <=? n)%N && (n <=? 13)%N).

(** [bytes.fromhex(s)]: whitespace is skipped in front of every byte, and a
    byte is two hexadecimal digits side by side; anything else is a
    [ValueError] ([None]).  [count] bytes that spell [acc] have been read;
    the result is the number of bytes and the number they spell. *)
Fixpoint fromhex (count : nat) (acc : N) (s : string) : option (nat * N) :=
  match s with
  | EmptyString => Some (count, acc)
  | String c rest =>
      if is_space c then fromhex count acc rest
      else
        match hex_value c, rest with
        | Some top, String c' rest' =>
            match hex_value c' with
            | Some bot => fromhex (S count) (256 * acc + 16 * top + bot)%N rest'
            | None => None
            end
        | _, _ => None
        end
  end.

(** The identifier of [count] bytes that spell [v]. *)
Definition of_bytes (count : nat) (v : N) : t :=
  if Nat.eqb count 12 then v else (N.of_nat (S count) * 2 ^ 96 + v)%N.

(** The number of bytes of an identifier. *)
Definition size (i : t) : nat :=
  if (i <? 2 ^ 96)%N then 12%nat else (N.to_nat (i / 2 ^ 96) - 1)%nat.

(** [ObjectId(s)] for a string [s]: bson takes every string of 24 characters
    that [bytes.fromhex] accepts, and raises [InvalidId] ([None]) on any
    other.  24 hexadecimal digits give 12 bytes; with whitespace in front of
    some of the digit pairs the identifier has fewer bytes. *)
Definition parse (s : string) : option t :=
  if Nat.eqb (String.length s) 24 then
    match fromhex 0 0%N s with
    | Some (count, v) => Some (of_bytes count v)
    | None => None
    end
  else None.

Definition hex_char (d : N) : ascii :=
  if (d <? 10)%N then ascii_of_N (48 + d) else ascii_of_N (87 + d).

Fixpoint hex_digits (k : nat) (n : N) (acc : string) : string :=
  match k with
  | O => acc
  | S k' => hex_digits k' (n / 16)%N (String (hex_char (n mod 16)%N) acc)
  end.

(** [str(oid)]: two lower-case hexadecimal digits for every byte, 24 digits
    for the 12 bytes of an identifier of the store. *)
Definition str (i : t) : string :=
  hex_digits (2 * size i) (i mod 2 ^ 96)%N EmptyString.

(** The whitespace characters of a string. *)
Definition blanks (s : string) : nat :=
  List.length (filter is_space (list_ascii_of_string s)).

End ObjectId.

(** ** Documents ([schemas.py])

    One record per Pydantic model, with the model's field names.  Fields of a
    [Literal] type that the handlers only store or compare stay strings. *)

Local Open Scope string_scope.
Local Open Scope list_scope.

Module Car.
(** Prices are only ever compared with the bounds of a search: a price is
    kept as the exact rational value of its finite double. *)
Record t : Type := {
  owner_email : string;
  title : string;
  brand : string;
  model : string;
  year : Z;
  images : list string;
  location : string;
  car_type : string;
  transmission : string;
  fuel : string;
  mileage : option Z;
  color : option string;
  for_rent : bool;
  for_sale : bool;
  price_per_day : option Q;
  sale_price : option Q;
  description : option string;
  available : bool
}.
End Car.

(** [Literal["rent", "buy"]] *)
Inductive OrderType : Type := rent | buy.

Definition OrderType_str (k : OrderType) : string :=
  match k with
  | rent => "rent"
  | buy => "buy"
  end.

Module Order.
(** [status] is validated against its [Literal] when an order is created, but
    [update_order_status] stores any string: the stored field is a string. *)
Record t : Type := {
  order_type : OrderType;
  car_id : string;
  customer_email : string;
  owner_email : string;
  status : string;
  start_date : option string;
  end_date : option string;
  pickup_location : option string;
  total_amount : pyfloat
}.

(** [{"$set": {"status": status}}] *)
Definition set_status (s : string) (o : t) : t :=
  {| order_type := order_type o; car_id := car_id o;
     customer_email := customer_email o; owner_email := owner_email o;
     status := s;
     start_date := start_date o; end_date := end_date o;
     pickup_location := pickup_location o; total_amount := total_amount o |}.
End Order.

Module Transaction.
Record t : Type := {
  order_id : string;
  customer_email : string;
  owner_email : string;
  amount : pyfloat;
  currency : string;
  type : string;
  description : option string
}.
End Transaction.

Module Notification.
Record t : Type := {
  email : string;
  title : string;
  message : string;
  read : bool
}.
End Notification.

(** [Literal["Bronze", "Silver", "Gold", "Platinum"]] *)
Inductive Tier : Type := Bronze | Silver | Gold | Platinum.

Module Reward.
Record t : Type := {
  email : string;
  points : Z;
  tier : Tier
}.

(** [{"$set": {"points": new_points, "tier": tier}}] *)
Definition set_points_tier (p : Z) (tr : Tier) (r : t) : t :=
  {| email := email r; points := p; tier := tr |}.
End Reward.

(** ** The document store

    A collection is the list of its documents in insertion order, each with
    its [_id]. *)

Definition collection (D : Type) : Type := list (ObjectId.t * D).

(** Modelled from the spec: the store handle [db] of [database.py], which is
    not among the sources.  It gives access to the named collections [car],
    [order], [transaction], [notification] and [reward]; where no store is
    configured the handle is [None], and [if db] tells the two apart. *)
Record DB : Type := {
  car_coll : collection Car.t;
  order_coll : collection Order.t;
  transaction_coll : collection Transaction.t;
  notification_coll : collection Notification.t;
  reward_coll : collection Reward.t;
  (** the next identifier handed out by the store *)
  next_id : ObjectId.t
}.

(** Collection names, indexed by the type of their documents. *)
Module Coll.
Inductive name : Type -> Type :=
  | car : name Car.t
  | order : name Order.t
  | transaction : name Transaction.t
  | notification : name Notification.t
  | reward : name Reward.t.
End Coll.

(** [db[name]] *)
Definition get_coll {D : Type} (n : Coll.name D) (db : DB) : collection D :=
  match n in Coll.name D return collection D with
  | Coll.car => car_coll db
  | Coll.order => order_coll db
  | Coll.transaction => transaction_coll db
  | Coll.notification => notification_coll db
  | Coll.reward => reward_coll db
  end.

Definition set_coll {D : Type} (n : Coll.name D) (c : collection D) (db : DB) : DB :=
  match n in Coll.name D return collection D -> DB with
  | Coll.car => fun c =>
      {| car_coll := c; order_coll := order_coll db;
         transaction_coll := transaction_coll db;
         notification_coll := notification_coll db;
         reward_coll := reward_coll db; next_id := next_id db |}
  | Coll.order => fun c =>
      {| car_coll := car_coll db; order_coll := c;
         transaction_coll := transaction_coll db;
         notification_coll := notification_coll db;
         reward_coll := reward_coll db; next_id := next_id db |}
  | Coll.transaction => fun c =>
      {| car_coll := car_coll db; order_coll := order_coll db;
         transaction_coll := c;
         notification_coll := notification_coll db;
         reward_coll := reward_coll db; next_id := next_id db |}
  | Coll.notification => fun c =>
      {| car_coll := car_coll db; order_coll := order_coll db;
         transaction_coll := transaction_coll db;
         notification_coll := c;
         reward_coll := reward_coll db; next_id := next_id db |}
  | Coll.reward => fun c =>
      {| car_coll := car_coll db; order_coll := order_coll db;
         transaction_coll := transaction_coll db;
         notification_coll := notification_coll db;
         reward_coll := c; next_id := next_id db |}
  end c.

Definition bump_id (db : DB) : DB :=
  {| car_coll := car_coll db; order_coll := order_coll db;
     transaction_coll := transaction_coll db;
     notification_coll := notification_coll db;
     reward_coll := reward_coll db; next_id := N.succ (next_id db) |}.

(** Modelled from the spec: [create_document] of [database.py], which is not
    among the sources.  The store adapter's [insert(collection, doc) -> id]:
    the document is appended to the collection under a new identifier, and
    the identifier is returned as a string. *)
Definition create_document {D : Type} (n : Coll.name D) (data : D) (db : DB)
  : string * DB :=
  let i := next_id db in
  (ObjectId.str i, bump_id (set_coll n (get_coll n db ++ [(i, data)]) db)).

(** [find_one(filter)]: the first document that satisfies the filter. *)
Definition find_one {D : Type} (flt : ObjectId.t * D -> bool) (c : collection D)
  : option (ObjectId.t * D) :=
  List.find flt c.

(** [find(filter)]: all documents that satisfy the filter, in store order. *)
Definition find {D : Type} (flt : ObjectId.t * D -> bool) (c : collection D)
  : collection D :=
  List.filter flt c.

(** [update_one(filter, {"$set": ...})]: the first document that satisfies
    the filter is changed; the result carries [matched_count]. *)
Fixpoint update_one {D : Type} (flt : ObjectId.t * D -> bool) (upd : D -> D)
  (c : collection D) : N * collection D :=
  match c with
  | [] => (0%N, [])
  | d :: rest =>
      if flt d then (1%N, (fst d, upd (snd d)) :: rest)
      else let (n, rest') := update_one flt upd rest in (n, d :: rest')
  end.

(** The filter [{"_id": oid}]. *)
Definition by_id {D : Type} (oid : ObjectId.t) (d : ObjectId.t * D) : bool :=
  N.eqb (fst d) oid.

(** [d["id"] = str(d.pop("_id"))] on every returned document. *)
Definition with_id {D : Type} (c : collection D) : list (string * D) :=
  map (fun d => (ObjectId.str (fst d), snd d)) c.

(** The store writes an integer on 8 bytes.  A document or an update that
    holds an integer outside this range is refused by the encoder, before
    anything is written. *)
Definition int64 (z : Z) : bool := ((- 2 ^ 63 <=? z) && (z <? 2 ^ 63))%Z.

(** ** Handler outcomes *)

Inductive error : Type :=
  (** [raise HTTPException(status_code=..., detail=...)] *)
  | HTTPException (status_code : Z) (detail : string)
  (** [bson.errors.InvalidId] out of [ObjectId(...)], not caught *)
  | InvalidId
  (** [OverflowError] or [ValueError] out of [int(...)], not caught *)
  | ConversionError
  (** [OverflowError] out of the encoder of the store ("MongoDB can only
      handle up to 8-byte ints"), not caught *)
  | EncodingError.

Inductive result (A : Type) : Type :=
  | Return (a : A)
  | Raise (e : error).
Arguments Return {A} a.
Arguments Raise {A} e.

(** The error classes of the specification. *)
Definition NotFound (e : error) : Prop :=
  exists detail, e = HTTPException 404 detail.

Definition Validation (e : error) : Prop :=
  exists detail, e = HTTPException 400 detail.

(** ** Request handlers ([main.py])

    A handler that writes takes the connected store and returns its outcome
    with the store it leaves.  The handlers that list take [db] as the source
    has it, [None] when no store is configured. *)

(** *** Cars *)

(** [POST /cars] *)
Definition create_car (car : Car.t) (db : DB) : result string * DB :=
  if negb (Car.for_sale car || Car.for_rent car) then
    (Raise (HTTPException 400 "Car must be for sale or for rent"), db)
  else
    let (car_id, db') := create_document Coll.car car db in
    (Return car_id, db').

(** The query document [flt] of [list_cars]: a conjunction of clauses, one
    per key. *)
Inductive cond : Type :=
  (** [{field: {"$regex": pattern, "$options": "i"}}] *)
  | Regex (field : Car.t -> string) (pattern : string)
  (** [{field: value}] *)
  | Eq_str (field : Car.t -> string) (value : string)
  (** [{field: {"$gte": lo, "$lte": hi}}], either bound optional *)
  | Range (field : Car.t -> option Q) (gte lte : option Q)
  (** [{field: True}] *)
  | Is_true (field : Car.t -> bool).

Inductive clause : Type :=
  | Field (c : cond)
  (** [{"$or": [...]}] *)
  | Or_ (alternatives : list cond).

(** The regular expressions of the store, which are no part of the
    repository.  An engine tells, for a pattern under option "i", whether the
    store accepts the pattern ([None] when it does not), and in which texts
    the pattern then finds a match.  The handler relies on nothing else. *)
Definition regex_engine : Type := string -> option (string -> bool).

Definition cond_valid (regex : regex_engine) (c : cond) : bool :=
  match c with
  | Regex _ pattern =>
      match regex pattern with
      | Some _ => true
      | None => false
      end
  | _ => true
  end.

Definition bound_holds (cmp : Q -> Q -> bool) (bound : option Q) (v : Q) : bool :=
  match bound with
  | Some b => cmp b v
  | None => true
  end.

Definition cond_holds (regex : regex_engine) (c : cond) (car : Car.t) : bool :=
  match c with
  | Regex field pattern =>
      match regex pattern with
      | Some found_in => found_in (field car)
      | None => false
      end
  | Eq_str field value => String.eqb (field car) value
  | Range field gte lte =>
      match field car with
      | Some v =>
          bound_holds Qle_bool gte v && bound_holds (fun b x => Qle_bool x b) lte v
      | None => false
      end
  | Is_true field => field car
  end.

Definition clause_valid (regex : regex_engine) (cl : clause) : bool :=
  match cl with
  | Field c => cond_valid regex c
  | Or_ cs => forallb (cond_valid regex) cs
  end.

Definition clause_holds (regex : regex_engine) (cl : clause) (car : Car.t)
  : bool :=
  match cl with
  | Field c => cond_holds regex c car
  | Or_ cs => existsb (fun c => cond_holds regex c car) cs
  end.

(** [db["car"].find(flt)]; [None] when the store refuses a pattern. *)
Definition find_cars (regex : regex_engine) (flt : list clause)
  (c : collection Car.t) : option (collection Car.t) :=
  if forallb (clause_valid regex) flt
  then Some (find (fun d => forallb (fun cl => clause_holds regex cl (snd d)) flt) c)
  else None.

Definition is_some {A : Type} (o : option A) : bool :=
  match o with
  | Some _ => true
  | None => false
  end.

Definition mode_is (mode : option string) (m : string) : bool :=
  match mode with
  | Some s => String.eqb s m
  | None => false
  end.

Definition or_empty (o : option string) : string :=
  match o with
  | Some s => s
  | None => ""
  end.

(** The query parameters of [GET /cars]. *)
Record car_query : Type := {
  q : option string;
  q_location : option string;
  q_car_type : option string;
  min_price : option Q;
  max_price : option Q;
  mode : option string
}.

(** The filter built by [list_cars], key by key in the order of the source. *)
Definition car_filter (p : car_query) : list clause :=
  (if Text.supplied (q p) then
     [Or_ [Regex Car.title (or_empty (q p));
           Regex Car.brand (or_empty (q p));
           Regex Car.model (or_empty (q p))]]
   else []) ++
  (if Text.supplied (q_location p) then
     [Field (Regex Car.location (or_empty (q_location p)))]
   else []) ++
  (if Text.supplied (q_car_type p) then
     [Field (Eq_str Car.car_type (or_empty (q_car_type p)))]
   else []) ++
  (if is_some (min_price p) || is_some (max_price p) then
     let key := if mode_is (mode p) "sale" then Car.sale_price
                else Car.price_per_day in
     [Field (Range key (min_price p) (max_price p))]
   else []) ++
  (if mode_is (mode p) "sale" then [Field (Is_true Car.for_sale)] else []) ++
  (if mode_is (mode p) "rent" then [Field (Is_true Car.for_rent)] else []).

(** [GET /cars], over a store with the given regular expressions. *)
Definition list_cars_with (regex : regex_engine) (db : option DB)
  (p : car_query) : option (list (string * Car.t)) :=
  match db with
  | Some db => option_map with_id (find_cars regex (car_filter p) (car_coll db))
  | None => Some []
  end.

(** [GET /cars] where the patterns are read as in [Text]: texts without
    metacharacters and the wildcard; [None] for a pattern outside this
    fragment. *)
Definition list_cars (db : option DB) (p : car_query)
  : option (list (string * Car.t)) :=
  list_cars_with Text.regex_i db p.

(** *** Orders *)

(** [POST /orders] *)
Definition create_order (order : Order.t) (db : DB) : result string * DB :=
  match ObjectId.parse (Order.car_id order) with
  | None => (Raise InvalidId, db)
  | Some oid =>
      match find_one (by_id oid) (car_coll db) with
      | None => (Raise (HTTPException 404 "Car not found"), db)
      | Some _ =>
          let (order_id, db1) := create_document Coll.order order db in
          let (_, db2) :=
            create_document Coll.notification
              {| Notification.email := Order.owner_email order;
                 Notification.title := "New order";
                 Notification.message :=
                   ("You have a new " ++ OrderType_str (Order.order_type order)
                    ++ " request")%string;
                 Notification.read := false |} db1 in
          (Return order_id, db2)
      end
  end.

(** [GET /orders] *)
Definition list_orders (db : option DB) (email role : option string)
  : list (string * Order.t) :=
  let flt : list (Order.t -> bool) :=
    (if Text.supplied email && mode_is role "customer"
     then [fun o => String.eqb (Order.customer_email o) (or_empty email)]
     else []) ++
    (if Text.supplied email && mode_is role "owner"
     then [fun o => String.eqb (Order.owner_email o) (or_empty email)]
     else []) in
  match db with
  | Some db =>
      with_id (find (fun d => forallb (fun f => f (snd d)) flt) (order_coll db))
  | None => []
  end.

(** [POST /orders/{order_id}/status] *)
Definition update_order_status (order_id status : string) (db : DB)
  : result string * DB :=
  match ObjectId.parse order_id with
  | None => (Raise InvalidId, db)
  | Some oid =>
      let (matched_count, orders) :=
        update_one (by_id oid) (Order.set_status status) (order_coll db) in
      if N.eqb matched_count 0
      then (Raise (HTTPException 404 "Order not found"), db)
      else (Return "ok", set_coll Coll.order orders db)
  end.

(** *** Transactions *)

(** The filter [{"email": e}] on the reward collection. *)
Definition by_email (e : string) (d : ObjectId.t * Reward.t) : bool :=
  String.eqb (Reward.email (snd d)) e.

(** The tier chosen for an updated total. *)
Definition tier_for (new_points : Z) : Tier :=
  if (200 <=? new_points)%Z then Platinum
  else if (120 <=? new_points)%Z then Gold
  else if (60 <=? new_points)%Z then Silver
  else Bronze.

(** [POST /transactions].  The transaction is written first.  The write to
    the reward collection carries the points as an integer, which the store
    takes on 8 bytes only: beyond that the write raises and changes nothing,
    and the transaction stays. *)
Definition create_transaction (tx : Transaction.t) (db : DB)
  : result string * DB :=
  let (tx_id, db1) := create_document Coll.transaction tx db in
  match earned_points (Transaction.amount tx) with
  | None => (Raise ConversionError, db1)
  | Some pts =>
      match find_one (by_email (Transaction.customer_email tx)) (reward_coll db1) with
      | Some existing =>
          let new_points := Reward.points (snd existing) + pts in
          let tier := tier_for new_points in
          if int64 new_points then
            let (_, rewards) :=
              update_one (by_id (fst existing))
                (Reward.set_points_tier new_points tier) (reward_coll db1) in
            (Return tx_id, set_coll Coll.reward rewards db1)
          else (Raise EncodingError, db1)
      | None =>
          if int64 pts then
            let (_, db2) :=
              create_document Coll.reward
                {| Reward.email := Transaction.customer_email tx;
                   Reward.points := pts;
                   Reward.tier := Bronze |} db1 in
            (Return tx_id, db2)
          else (Raise EncodingError, db1)
      end
  end.

(** A run of transaction requests, one after the other. *)
Fixpoint create_transactions (txs : list Transaction.t) (db : DB) : DB :=
  match txs with
  | [] => db
  | tx :: rest => create_transactions rest (snd (create_transaction tx db))
  end.

(** The points held by the reward record [i], if there is one. *)
Definition reward_points (i : ObjectId.t) (db : DB) : option Z :=
  option_map (fun d => Reward.points (snd d))
    (find_one (by_id i) (reward_coll db)).

(** The points on a customer's reward record, if the customer has one. *)
Definition customer_points (e : string) (db : DB) : option Z :=
  option_map (fun d => Reward.points (snd d))
    (find_one (by_email e) (reward_coll db)).

(** Identifiers are unique inside the reward collection and were all handed
    out by the store. *)
Definition reward_ids_ok (db : DB) : Prop :=
  NoDup (map fst (reward_coll db)) /\
  Forall (fun i => (i < next_id db)%N) (map fst (reward_coll db)).

(** One collection extends another: the documents of the first are still
    there, in place, under the same identifier and email, with at least the
    points they had. *)
Definition extends (c c' : collection Reward.t) : Prop :=
  exists kept added,
    c' = kept ++ added /\
    Forall2 (fun d d' => fst d = fst d' /\
                         Reward.email (snd d) = Reward.email (snd d') /\
                         (Reward.points (snd d) <= Reward.points (snd d'))%Z)
            c kept.

(** *** The stores the handlers build *)

(** The requests that write. *)
Inductive request : Type :=
  | Create_car (car : Car.t)
  | Create_order (order : Order.t)
  | Update_order_status (order_id status : string)
  | Create_transaction (tx : Transaction.t).

(** The store a request leaves, whether it succeeds or fails. *)
Definition handle (r : request) (db : DB) : DB :=
  match r with
  | Create_car car => snd (create_car car db)
  | Create_order order => snd (create_order order db)
  | Update_order_status order_id status =>
      snd (update_order_status order_id status db)
  | Create_transaction tx => snd (create_transaction tx db)
  end.

Definition empty_db : DB :=
  {| car_coll := []; order_coll := []; transaction_coll := [];
     notification_coll := []; reward_coll := []; next_id := 0%N |}.

(** The stores reached from the empty one. *)
Inductive reachable : DB -> Prop :=
  | reachable_empty : reachable empty_db
  | reachable_step r db : reachable db -> reachable (handle r db).

(** ** The other handlers of [main.py] *)

(** [ObjectIdStr.validate]: [str(ObjectId(str(v)))], and [ValueError] ([None])
    when the identifier parser refuses [v]. *)
Definition ObjectIdStr_validate (v : string) : option string :=
  option_map ObjectId.str (ObjectId.parse v).

(** [GET /cars/{car_id}] *)
Definition get_car (car_id : string) (db : DB) : result (string * Car.t) :=
  match ObjectId.parse car_id with
  | None => Raise InvalidId
  | Some oid =>
      match find_one (by_id oid) (car_coll db) with
      | None => Raise (HTTPException 404 "Car not found")
      | Some car => Return (ObjectId.str (fst car), snd car)
      end
  end.

(** The filter [{"$or": [{"customer_email": email}, {"owner_email": email}]}]. *)
Definition party_is (email : string) (d : ObjectId.t * Transaction.t) : bool :=
  String.eqb (Transaction.customer_email (snd d)) email ||
  String.eqb (Transaction.owner_email (snd d)) email.

(** [GET /transactions] *)
Definition list_transactions (db : option DB) (email : option string)
  : list (string * Transaction.t) :=
  let flt : ObjectId.t * Transaction.t -> bool :=
    if Text.supplied email then party_is (or_empty email) else fun _ => true in
  match db with
  | Some db => with_id (find flt (transaction_coll db))
  | None => []
  end.

(** [GET /notifications]: [email] is a required parameter and the filter
    [{"email": email}] is always applied. *)
Definition get_notifications (db : option DB) (email : string)
  : list (string * Notification.t) :=
  match db with
  | Some db =>
      with_id (find (fun d => String.eqb (Notification.email (snd d)) email)
                 (notification_coll db))
  | None => []
  end.

(** A run of requests of any kind, one after the other. *)
Fixpoint handle_all (rs : list request) (db : DB) : DB :=
  match rs with
  | [] => db
  | r :: rest => handle_all rest (handle r db)
  end.

(** *** Users ([schemas.py], [/auth]) *)

Module User.
Record t : Type := {
  role : string;
  full_name : string;
  email : string;
  phone : option string;
  location : option string;
  avatar_url : option string;
  driver_license : option string;
  company_name : option string;
  verification_status : string
}.

(** [user.role = r] *)
Definition set_role (r : string) (u : t) : t :=
  {| role := r; full_name := full_name u; email := email u;
     phone := phone u; location := location u; avatar_url := avatar_url u;
     driver_license := driver_license u; company_name := company_name u;
     verification_status := verification_status u |}.
End User.

(** The store with its [user] collection, which [DB] leaves out; identifiers
    come from the one counter of the store. *)
Record Accounts : Type := {
  accounts_db : DB;
  user_coll : collection User.t
}.

(** Modelled from the spec: [create_document] of [database.py] (not among the
    sources) on the collection [user]: the document is appended under a new
    identifier, and the identifier is returned as a string. *)
Definition create_user_document (data : User.t) (s : Accounts)
  : string * Accounts :=
  let i := next_id (accounts_db s) in
  (ObjectId.str i,
   {| accounts_db := bump_id (accounts_db s);
      user_coll := user_coll s ++ [(i, data)] |}).

(** The filter [{"email": e}] on the user collection. *)
Definition user_by_email (e : string) (d : ObjectId.t * User.t) : bool :=
  String.eqb (User.email (snd d)) e.

(** The body of [onboard_customer] and of [onboard_owner], which differ in the
    role they force. *)
Inductive onboard_response : Type :=
  | Updated
  | Created (id : string).

Definition onboard (role : string) (user : User.t) (s : Accounts)
  : onboard_response * Accounts :=
  let user := User.set_role role user in
  match find_one (user_by_email (User.email user)) (user_coll s) with
  | Some existing =>
      let (_, users) :=
        update_one (by_id (fst existing)) (fun _ => user) (user_coll s) in
      (Updated, {| accounts_db := accounts_db s; user_coll := users |})
  | None =>
      let (user_id, s') := create_user_document user s in
      (Created user_id, s')
  end.

(** [POST /auth/onboard/customer] *)
Definition onboard_customer (user : User.t) (s : Accounts)
  : onboard_response * Accounts :=
  onboard "customer" user s.

(** [POST /auth/onboard/owner] *)
Definition onboard_owner (user : User.t) (s : Accounts)
  : onboard_response * Accounts :=
  onboard "owner" user s.

(** The response of [login]. *)
Record login_response : Type := {
  login_status : string;
  login_email : string;
  login_role : string;
  login_id : string
}.

Section Login.

(** Pydantic's [EmailStr], from outside the repository: it refuses what is no
    email address ([None]) and returns the address in normal form. *)
Variable EmailStr : string -> option string.

(** [POST /auth/login]: the user is looked up under the address as sent; a new
    user is built through the [User] model, which validates the address.
    [None] is the [ValidationError] of that model, not caught. *)
Definition login (email : string) (s : Accounts)
  : option login_response * Accounts :=
  match find_one (user_by_email email) (user_coll s) with
  | None =>
      match EmailStr email with
      | None => (None, s)
      | Some validated =>
          let (uid, s') :=
            create_user_document
              {| User.role := "customer"; User.full_name := "New User";
                 User.email := validated;
                 User.phone := None; User.location := None;
                 User.avatar_url := None; User.driver_license := None;
                 User.company_name := None;
                 User.verification_status := "pending" |} s in
          (Some {| login_status := "created"; login_email := email;
                   login_role := "customer"; login_id := uid |}, s')
      end
  | Some users =>
      (Some {| login_status := "ok"; login_email := User.email (snd users);
               login_role := User.role (snd users);
               login_id := ObjectId.str (fst users) |}, s)
  end.

End Login.

(** *** Invariants of the store *)

(** The identifiers of a collection are distinct and were handed out before
    [n]. *)
Definition coll_ok {D : Type} (c : collection D) (n : ObjectId.t) : Prop :=
  NoDup (map fst c) /\ Forall (fun i => (i < n)%N) (map fst c).

Definition ids_ok (db : DB) : Prop :=
  coll_ok (car_coll db) (next_id db) /\
  coll_ok (order_coll db) (next_id db) /\
  coll_ok (transaction_coll db) (next_id db) /\
  coll_ok (notification_coll db) (next_id db) /\
  coll_ok (reward_coll db) (next_id db).

(** The order of the tiers. *)
Definition Tier_rank (t : Tier) : Z :=
  match t with
  | Bronze => 0
  | Silver => 1
  | Gold => 2
  | Platinum => 3
  end.

(** What the handlers keep true of the reward collection: one record per
    email, at least one point on each, and no tier above the tier of the
    record's points. *)
Definition rewards_ok (db : DB) : Prop :=
  NoDup (map (fun d => Reward.email (snd d)) (reward_coll db)) /\
  Forall (fun d => (1 <= Reward.points (snd d))%Z /\
                   (Tier_rank (Reward.tier (snd d))
                    <= Tier_rank (tier_for (Reward.points (snd d))))%Z)
         (reward_coll db).

(** A collection improves on another: the records of the first are still
    there, in place, under the same identifier and email, with at least the
    points and the tier they had. *)
Definition improves (c c' : collection Reward.t) : Prop :=
  exists kept added,
    c' = kept ++ added /\
    Forall2 (fun d d' => fst d = fst d' /\
                         Reward.email (snd d) = Reward.email (snd d') /\
                         (Reward.points (snd d) <= Reward.points (snd d'))%Z /\
                         (Tier_rank (Reward.tier (snd d))
                          <= Tier_rank (Reward.tier (snd d')))%Z)
            c kept.

(** The tier on a customer's reward record, if the customer has one. *)
Definition customer_tier (e : string) (db : DB) : option Tier :=
  option_map (fun d => Reward.tier (snd d))
    (find_one (by_email e) (reward_coll db)).

(** What onboarding keeps true of the user collection: identifiers in order
    and one user per email address. *)
Definition users_ok (s : Accounts) : Prop :=
  coll_ok (user_coll s) (next_id (accounts_db s)) /\
  NoDup (map (fun d => User.email (snd d)) (user_coll s)).

(** ** The specification's side *)

(** The value the specification gives for the earned points:
    [max(1, floor(a / 10))], computed on the exact rational value of the
    amount. *)
Definition claimed_points (n : Z) : Z :=
  Z.max 1 (Qfloor (float_value n / inject_Z 10)).

(** The field a price bound applies to: [sale_price] when mode is "sale",
    otherwise [price_per_day]. *)
Definition price_field (mode : option string) (car : Car.t) : option Q :=
  if mode_is mode "sale" then Car.sale_price car else Car.price_per_day car.

(** The text query matches if title or brand or model contains it. *)
Definition text_matches (s : string) (car : Car.t) : Prop :=
  Text.substring_ci s (Car.title car) \/
  Text.substring_ci s (Car.brand car) \/
  Text.substring_ci s (Car.model car).

(** The conjunction of the supplied search criteria (spec 4.1).  A text
    parameter given as the empty string counts as not supplied. *)
Definition criteria (p : car_query) (car : Car.t) : Prop :=
  (forall s, q p = Some s -> s <> "" -> text_matches s car) /\
  (forall s, q_location p = Some s -> s <> "" ->
     Text.substring_ci s (Car.location car)) /\
  (forall s, q_car_type p = Some s -> s <> "" -> Car.car_type car = s) /\
  (forall lo, min_price p = Some lo ->
     exists v, price_field (mode p) car = Some v /\ (lo <= v)%Q) /\
  (forall hi, max_price p = Some hi ->
     exists v, price_field (mode p) car = Some v /\ (v <= hi)%Q) /\
  (mode p = Some "sale" -> Car.for_sale car = true) /\
  (mode p = Some "rent" -> Car.for_rent car = true).

(** The texts of a car that a search reads are ASCII. *)
Definition ascii_car (car : Car.t) : bool :=
  Text.is_ascii (Car.title car) && Text.is_ascii (Car.brand car) &&
  Text.is_ascii (Car.model car) && Text.is_ascii (Car.location car).

(** The text parameters of a search are ASCII. *)
Definition ascii_query (p : car_query) : bool :=
  Text.is_ascii (or_empty (q p)) && Text.is_ascii (or_empty (q_location p)).

(** No search parameter supplied. *)
Definition no_query : car_query :=
  {| q := None; q_location := None; q_car_type := None;
     min_price := None; max_price := None; mode := None |}.

(** A search by text alone. *)
Definition text_query (s : string) : car_query :=
  {| q := Some s; q_location := None; q_car_type := None;
     min_price := None; max_price := None; mode := None |}.

(** The tier the specification gives for a total. *)
Definition claimed_tier (total : Z) (t : Tier) : Prop :=
  ((200 <= total)%Z -> t = Platinum) /\
  ((120 <= total < 200)%Z -> t = Gold) /\
  ((60 <= total < 120)%Z -> t = Silver) /\
  ((total < 60)%Z -> t = Bronze).

(** An identifier string references an existing document of a collection. *)
Definition references {D : Type} (id : string) (c : collection D) : Prop :=
  exists oid d, ObjectId.parse id = Some oid /\ find_one (by_id oid) c = Some d.

(** The notification an order gives rise to. *)
Definition order_notification (order : Order.t) : Notification.t :=
  {| Notification.email := Order.owner_email order;
     Notification.title := "New order";
     Notification.message :=
       ("You have a new " ++ OrderType_str (Order.order_type order)
        ++ " request")%string;
     Notification.read := false |}.

(** ** Sample data *)

(** A small store for the examples: one car, one order, one reward. *)
Definition sample_car : Car.t :=
  {| Car.owner_email := "owner@cars.io"; Car.title := "Tesla Model 3";
     Car.brand := "Tesla"; Car.model := "Model 3"; Car.year := 2022%Z;
     Car.images := []; Car.location := "Berlin"; Car.car_type := "electric";
     Car.transmission := "automatic"; Car.fuel := "electric";
     Car.mileage := None; Car.color := None;
     Car.for_rent := true; Car.for_sale := false;
     Car.price_per_day := Some (50 # 1); Car.sale_price := None;
     Car.description := None; Car.available := true |}.

Definition sample_order (car_id : string) : Order.t :=
  {| Order.order_type := rent; Order.car_id := car_id;
     Order.customer_email := "ann@mail.io"; Order.owner_email := "owner@cars.io";
     Order.status := "completed";
     Order.start_date := None; Order.end_date := None;
     Order.pickup_location := None; Order.total_amount := of_int 100 |}.

(** An order to buy the same car. *)
Definition sample_purchase (car_id : string) : Order.t :=
  {| Order.order_type := buy; Order.car_id := car_id;
     Order.customer_email := "ann@mail.io"; Order.owner_email := "owner@cars.io";
     Order.status := "pending";
     Order.start_date := None; Order.end_date := None;
     Order.pickup_location := None; Order.total_amount := of_int 30000 |}.

Definition sample_db : DB :=
  {| car_coll := [(1%N, sample_car)];
     order_coll := [(2%N, sample_order "000000000000000000000001")];
     transaction_coll := [];
     notification_coll := [];
     reward_coll :=
       [(3%N, {| Reward.email := "ann@mail.io"; Reward.points := 150%Z;
                 Reward.tier := Gold |})];
     next_id := 4%N |}.

Definition sample_transaction (amount : Z) : Transaction.t :=
  {| Transaction.order_id := "000000000000000000000002";
     Transaction.customer_email := "ann@mail.io";
     Transaction.owner_email := "owner@cars.io";
     Transaction.amount := of_int amount;
     Transaction.currency := "USD"; Transaction.type := "debit";
     Transaction.description := None |}.

(** The same store before the customer's first transaction. *)
Definition fresh_db : DB :=
  {| car_coll := car_coll sample_db; order_coll := order_coll sample_db;
     transaction_coll := []; notification_coll := []; reward_coll := [];
     next_id := 4%N |}.

(** An order [o'] is the order [o] with, at most, another status. *)
Definition restatused (o o' : Order.t) : Prop :=
  Order.set_status (Order.status o') o = o'.

(** What a request may do to the store: cars, notifications and
    transactions are added at the end of their collections; an order stays
    under its identifier and changes at most its status; and an order that is
    new references a car of the store. *)
Definition grows (db db' : DB) : Prop :=
  (exists cars, car_coll db' = car_coll db ++ cars) /\
  (exists notes, notification_coll db' = notification_coll db ++ notes) /\
  (exists txs, transaction_coll db' = transaction_coll db ++ txs) /\
  (forall d, In d (order_coll db) ->
     exists d', In d' (order_coll db') /\ fst d' = fst d /\
                restatused (snd d) (snd d')) /\
  (forall d', In d' (order_coll db') ->
     (exists d, In d (order_coll db) /\ fst d' = fst d /\
                restatused (snd d) (snd d')) \/
     references (Order.car_id (snd d')) (car_coll db')).

(** Every order of the store names a car of the store. *)
Definition orders_reference_cars (db : DB) : Prop :=
  Forall (fun d => references (Order.car_id (snd d)) (car_coll db))
         (order_coll db).

(** More sample data: accounts, and an address validator for the examples
    that folds the letter case. *)
Definition sample_user (email : string) : User.t :=
  {| User.role := "customer"; User.full_name := "Ann Lee";
     User.email := email;
     User.phone := None; User.location := Some "Berlin";
     User.avatar_url := None; User.driver_license := Some "B-123";
     User.company_name := None; User.verification_status := "pending" |}.

Definition no_accounts : Accounts :=
  {| accounts_db := empty_db; user_coll := [] |}.

Definition sample_accounts : Accounts :=
  {| accounts_db := sample_db;
     user_coll := [(0%N, sample_user "ann@mail.io")] |}.

Definition folding_EmailStr (e : string) : option string :=
  if Text.truthy e then Some (Text.lower e) else None.

(** The accounts after two logins under an address with capitals. *)
Definition twice_logged_in : Accounts :=
  snd (login folding_EmailStr "Ann@Mail.io"
         (snd (login folding_EmailStr "Ann@Mail.io" no_accounts))).

(** The points a stored transaction earned its customer: none when
    [int(...)] raised. *)
Definition points_of (tx : Transaction.t) : Z :=
  match earned_points (Transaction.amount tx) with
  | Some p => p
  | None => 0%Z
  end.

(** The points earned by all the transactions of a customer. *)
Definition earned_total (e : string) (txs : collection Transaction.t) : Z :=
  fold_right Z.add 0%Z
    (map (fun d => points_of (snd d))
       (find (fun d => String.eqb (Transaction.customer_email (snd d)) e) txs)).

(** The points a customer holds: those of the reward record, if there is
    one. *)
Definition balance (e : string) (db : DB) : Z :=
  match customer_points e db with
  | Some p => p
  | None => 0%Z
  end.

(** The notifications of the store, and those that its orders call for. *)
Definition notes (db : DB) : list Notification.t :=
  map snd (notification_coll db).

Definition notes_of_orders (db : DB) : list Notification.t :=
  map (fun d => order_notification (snd d)) (order_coll db).


(** A regex engine for the examples that also reads a leading [^]: the rest
    of the pattern must match at the start of the text. *)
Definition anchored_regex : regex_engine :=
  fun pattern =>
    match pattern with
    | String "^"%char rest =>
        match Text.regex_compile rest with
        | Some re => Some (Text.match_here re)
        | None => None
        end
    | _ => Text.regex_i pattern
    end.
(** ** Rounding lemmas *)

Module PyFloatFacts.

Local Open Scope Z_scope.

Lemma one_pos : 0 < one.
Proof. unfold one. apply Z.pow_pos_nonneg; lia. Qed.

Lemma ulp_exp_nonneg v : 0 <= ulp_exp v.
Proof. unfold ulp_exp. lia. Qed.

Lemma ulp_exp_abs v : ulp_exp (Z.abs v) = ulp_exp v.
Proof. unfold ulp_exp. now rewrite Z.abs_idemp. Qed.

Lemma ulp_exp_mono u v : Z.abs u <= Z.abs v -> ulp_exp u <= ulp_exp v.
Proof.
  intros H. unfold ulp_exp.
  pose proof (Z.log2_le_mono _ _ H). lia.
Qed.

Lemma ulp_exp_pow2 p : 0 <= p -> ulp_exp (2 ^ p) <= p.
Proof.
  intros Hp. unfold ulp_exp.
  rewrite Z.abs_eq by (apply Z.pow_nonneg; lia).
  rewrite Z.log2_pow2 by assumption. lia.
Qed.

Lemma pow2_pos e : 0 <= e -> 0 < 2 ^ e.
Proof. intros. apply Z.pow_pos_nonneg; lia. Qed.

Lemma rne_div_exact q b : 0 < b -> rne_div (q * b) b = q.
Proof.
  intros Hb. unfold rne_div.
  rewrite Z.div_mul, Z.mod_mul by lia.
  destruct (Z.compare_spec (2 * 0) b); lia.
Qed.

Lemma rne_div_le a c m : 0 < c -> a <= m * c -> rne_div a c <= m.
Proof.
  intros Hc Ha. unfold rne_div.
  pose proof (Z.div_mod a c ltac:(lia)) as E.
  pose proof (Z.mod_pos_bound a c Hc) as B.
  assert (a / c <= m) by nia.
  destruct (Z.compare_spec (2 * (a mod c)) c); try lia.
  - destruct (Z.even (a / c)); [lia|]. nia.
  - nia.
Qed.

Lemma rne_div_ge a c m : 0 < c -> m * c <= a -> m <= rne_div a c.
Proof.
  intros Hc Ha. unfold rne_div.
  pose proof (Z.div_mod a c ltac:(lia)) as E.
  pose proof (Z.mod_pos_bound a c Hc) as B.
  assert (m <= a / c) by nia.
  destruct (Z.compare_spec (2 * (a mod c)) c); try lia.
  destruct (Z.even (a / c)); lia.
Qed.

(** A quantity that already has 53 significant bits is not changed. *)
Lemma round_units_exact a b v :
  0 < b -> a = v * b -> (2 ^ ulp_exp v | v) -> round_units a b = v.
Proof.
  intros Hb -> [w Hw]. unfold round_units.
  rewrite Z.abs_mul, (Z.abs_eq b), Z.div_mul, ulp_exp_abs by lia.
  set (e := ulp_exp v) in *.
  pose proof (pow2_pos e (ulp_exp_nonneg v)).
  rewrite Hw at 1.
  replace (w * 2 ^ e * b) with (w * (b * 2 ^ e)) by ring.
  rewrite rne_div_exact by nia. lia.
Qed.

(** Rounding never crosses a representable bound. *)
Lemma round_units_bound a b r :
  0 < b -> 0 <= r -> Z.abs a <= r * b -> (2 ^ ulp_exp r | r) ->
  Z.abs (round_units a b) <= r.
Proof.
  intros Hb Hr Ha Hdiv. unfold round_units.
  set (v := Z.abs a / b).
  assert (Hv : 0 <= v <= r).
  { subst v. split.
    - apply Z.div_pos; lia.
    - apply Z.div_le_upper_bound; lia. }
  assert (He : ulp_exp v <= ulp_exp r) by (apply ulp_exp_mono; lia).
  pose proof (ulp_exp_nonneg v) as He0.
  set (e := ulp_exp v) in *.
  assert (Hdiv' : (2 ^ e | r)).
  { destruct Hdiv as [w Hw]. exists (w * 2 ^ (ulp_exp r - e)).
    rewrite <- Z.mul_assoc, <- Z.pow_add_r by lia.
    now replace (ulp_exp r - e + e) with (ulp_exp r) by ring. }
  destruct Hdiv' as [m Hm].
  pose proof (pow2_pos e He0) as Hp.
  assert (Hc : 0 < b * 2 ^ e) by nia.
  assert (rne_div a (b * 2 ^ e) <= m)
    by (apply rne_div_le; [assumption | nia]).
  assert (- m <= rne_div a (b * 2 ^ e))
    by (apply rne_div_ge; [assumption | nia]).
  rewrite Z.abs_mul, (Z.abs_eq (2 ^ e)) by lia.
  nia.
Qed.

Lemma pow2_representable p : 0 <= p -> (2 ^ ulp_exp (2 ^ p) | 2 ^ p).
Proof.
  intros Hp. pose proof (ulp_exp_pow2 p Hp). pose proof (ulp_exp_nonneg (2 ^ p)).
  exists (2 ^ (p - ulp_exp (2 ^ p))).
  rewrite <- Z.pow_add_r by lia. f_equal. ring.
Qed.

Lemma round_units_pow2 a b p :
  0 < b -> 0 <= p -> Z.abs a <= 2 ^ p * b -> Z.abs (round_units a b) <= 2 ^ p.
Proof.
  intros. apply round_units_bound; auto using pow2_representable.
  apply Z.pow_nonneg; lia.
Qed.

(** Whole multiples of [1.0] below [2^53] are binary64 values. *)
Lemma small_integer_representable j :
  Z.abs j < 2 ^ 53 -> (2 ^ ulp_exp (j * one) | j * one).
Proof.
  intros Hj. destruct (Z.eq_dec j 0) as [-> | Hnz].
  - exists 0. reflexivity.
  - assert (Hl : Z.log2 (Z.abs j) < 53) by (apply Z.log2_lt_pow2; lia).
    pose proof (Z.log2_nonneg (Z.abs j)).
    assert (E : ulp_exp (j * one) = Z.log2 (Z.abs j) + 1022).
    { unfold ulp_exp, one.
      rewrite Z.abs_mul, (Z.abs_eq (2 ^ 1074)) by (apply Z.pow_nonneg; lia).
      rewrite Z.log2_mul_pow2 by lia. lia. }
    rewrite E. exists (j * 2 ^ (52 - Z.log2 (Z.abs j))).
    unfold one. rewrite <- Z.mul_assoc, <- Z.pow_add_r by lia.
    do 2 f_equal. ring.
Qed.

Lemma scaled_lt j a b o :
  0 < o -> Z.abs j < a -> a <= b -> Z.abs (j * o) < b * o.
Proof. intros Ho Hj Hab. rewrite Z.abs_mul, (Z.abs_eq o) by lia. nia. Qed.

Lemma small_below_overflow j :
  Z.abs j < 2 ^ 53 -> Z.abs (j * one) < overflow_threshold.
Proof.
  intros Hj.
  assert (E : overflow_threshold = 2 ^ 1024 * one).
  { unfold overflow_threshold, one. rewrite <- Z.pow_add_r by lia. reflexivity. }
  rewrite E. apply (scaled_lt j (2 ^ 53)); [apply one_pos | assumption |].
  apply Z.pow_le_mono_r; lia.
Qed.

Lemma of_units_finite n :
  Z.abs n < overflow_threshold -> of_units n = Finite n.
Proof.
  intros H. unfold of_units.
  destruct (Z.leb_spec overflow_threshold (Z.abs n)); [lia | reflexivity].
Qed.

Lemma fadd_exact a b j :
  a + b = j * one -> Z.abs j < 2 ^ 53 ->
  fadd (Finite a) (Finite b) = Finite (j * one).
Proof.
  intros E Hj. cbn [fadd].
  rewrite (round_units_exact _ 1 (j * one)); try lia.
  - apply of_units_finite, small_below_overflow, Hj.
  - apply small_integer_representable, Hj.
Qed.

Lemma fdiv_exact a w j :
  0 < w -> a = j * w -> Z.abs j < 2 ^ 53 ->
  fdiv_pos (Finite a) w = Finite (j * one).
Proof.
  intros Hw E Hj. cbn [fdiv_pos].
  rewrite (round_units_exact _ w (j * one)); try lia.
  - apply of_units_finite, small_below_overflow, Hj.
  - apply small_integer_representable, Hj.
Qed.

Lemma ffloor_integer j : ffloor (Finite (j * one)) = Finite (j * one).
Proof.
  cbn [ffloor]. now rewrite Z.div_mul by (pose proof one_pos; lia).
Qed.

Lemma half_pos : 0 < half.
Proof. unfold half. apply Z.pow_pos_nonneg; lia. Qed.

(** Truncated and floored quotient by the positive divisor [w]. *)
Lemma floor_of_quot n w :
  0 < w -> n / w = if Z.rem n w <? 0 then Z.quot n w - 1 else Z.quot n w.
Proof.
  intros Hw.
  pose proof (Z.quot_rem' n w) as E.
  pose proof (Z.rem_bound_abs n w ltac:(lia)) as B.
  destruct (Z.ltb_spec (Z.rem n w) 0).
  - symmetry. apply (Z.div_unique n w _ (Z.rem n w + w)); lia.
  - symmetry. apply (Z.div_unique n w _ (Z.rem n w)); lia.
Qed.

Lemma fsub_exact a b j :
  a - b = j * one -> Z.abs j < 2 ^ 53 ->
  fsub (Finite a) (Finite b) = Finite (j * one).
Proof.
  intros E Hj. unfold fsub. cbn [fneg]. apply fadd_exact; [lia | assumption].
Qed.

Lemma snap_quotient_integer j :
  Z.abs j < 2 ^ 53 -> snap_quotient (Finite (j * one)) = Finite (j * one).
Proof.
  intros Hj. pose proof half_pos. unfold snap_quotient.
  rewrite ffloor_integer, (fsub_exact _ _ 0) by lia.
  cbn [nonzero fgt flt].
  replace (half <? 0 * one) with false by (symmetry; apply Z.ltb_ge; lia).
  destruct (Z.eqb_spec (j * one) 0) as [-> | ]; reflexivity.
Qed.

(** Below [2^53] every step of the floor division is exact. *)
Lemma float_floor_div_small n :
  Z.abs n < 2 ^ 53 * one ->
  float_floor_div (Finite n) (10 * one) = Finite (n / (10 * one) * one).
Proof.
  intros Hn. pose proof one_pos as H1.
  set (w := 10 * one) in *.
  assert (Hw : 0 < w) by (subst w; lia).
  rewrite (floor_of_quot n w Hw).
  pose proof (Z.quot_rem' n w) as E.
  pose proof (Z.rem_bound_abs n w ltac:(lia)) as B.
  assert (Hsign : 0 <= Z.rem n w * n) by (apply Z.rem_sign_mul; lia).
  set (k := Z.quot n w) in *. set (md := Z.rem n w) in *.
  assert (Hk : Z.abs (10 * k) < 2 ^ 53) by (subst w; nia).
  unfold float_floor_div, adjusted_quotient. cbn [fmod_pos]. fold md.
  rewrite (fsub_exact n md (10 * k)) by (subst w; lia).
  rewrite (fdiv_exact _ w k) by (subst w; lia).
  replace (w <? 0) with false by (symmetry; apply Z.ltb_ge; lia).
  cbn [nonzero flt Bool.eqb].
  destruct (Z.ltb_spec md 0) as [Hneg | Hpos].
  - replace (md =? 0) with false by (symmetry; apply Z.eqb_neq; lia).
    cbn [negb]. rewrite (fsub_exact _ _ (k - 1)) by lia.
    apply snap_quotient_integer. lia.
  - cbn [negb].
    replace (if negb (md =? 0) then Finite (k * one) else Finite (k * one))
      with (Finite (k * one)) by (now destruct (md =? 0)).
    apply snap_quotient_integer. lia.
Qed.

Lemma Qfloor_value_div10 n : Qfloor (float_value n / inject_Z 10) = n / (10 * one).
Proof.
  unfold float_value, Qdiv, Qinv, Qmult, Qfloor, inject_Z. cbn [Qnum Qden].
  rewrite Pos2Z.inj_mul, Z2Pos.id by apply one_pos.
  f_equal; ring.
Qed.

(** *** No overflow on binary64 inputs *)

Lemma is_binary64_finite n :
  is_binary64 (Finite n) = true ->
  Z.abs n < overflow_threshold /\ (2 ^ ulp_exp (Z.abs n) | Z.abs n).
Proof.
  cbn [is_binary64]. intros H. apply andb_true_iff in H as [Hlt Hmod].
  apply Z.ltb_lt in Hlt. apply Z.eqb_eq in Hmod.
  split; [assumption|].
  rewrite ulp_exp_abs. apply Z.divide_abs_r.
  apply Z.mod_divide; [|assumption].
  pose proof (pow2_pos _ (ulp_exp_nonneg n)). lia.
Qed.

(** Sums, differences and quotients stay below a representable bound. *)
Lemma fadd_within a b r :
  0 <= r -> (2 ^ ulp_exp r | r) -> r < overflow_threshold ->
  Z.abs (a + b) <= r ->
  exists c, fadd (Finite a) (Finite b) = Finite c /\ Z.abs c <= r.
Proof.
  intros Hr Hrep Hlt H. cbn [fadd].
  assert (Hb : Z.abs (round_units (a + b) 1) <= r)
    by (apply round_units_bound; lia || assumption).
  eexists. split; [apply of_units_finite; lia | assumption].
Qed.

Lemma fsub_within a b r :
  0 <= r -> (2 ^ ulp_exp r | r) -> r < overflow_threshold ->
  Z.abs (a - b) <= r ->
  exists c, fsub (Finite a) (Finite b) = Finite c /\ Z.abs c <= r.
Proof.
  intros Hr Hrep Hlt H. unfold fsub. cbn [fneg].
  now apply fadd_within.
Qed.

Lemma fdiv_within a w r :
  0 < w -> 0 <= r -> (2 ^ ulp_exp r | r) -> r < overflow_threshold ->
  Z.abs (a * one) <= r * w ->
  exists c, fdiv_pos (Finite a) w = Finite c /\ Z.abs c <= r.
Proof.
  intros Hw Hr Hrep Hlt H. cbn [fdiv_pos].
  assert (Hb : Z.abs (round_units (a * one) w) <= r)
    by (apply round_units_bound; lia || assumption).
  eexists. split; [apply of_units_finite; lia | assumption].
Qed.

(** [vx - mod] stays within the magnitude of [vx]. *)
Lemma fsub_fmod_bounded n w :
  0 < w -> is_binary64 (Finite n) = true ->
  exists c, fsub (Finite n) (Finite (Z.rem n w)) = Finite c
            /\ Z.abs c < overflow_threshold.
Proof.
  intros Hw Hn. apply is_binary64_finite in Hn as [Hlt Hdiv].
  assert (Hmd : Z.abs (n - Z.rem n w) <= Z.abs n).
  { destruct (Z.le_gt_cases 0 n) as [Hpos | Hneg].
    - pose proof (Z.rem_nonneg n w ltac:(lia) Hpos).
      pose proof (Z.rem_le n w Hpos Hw). lia.
    - pose proof (Z.rem_nonneg (- n) w ltac:(lia) ltac:(lia)) as A.
      pose proof (Z.rem_le (- n) w ltac:(lia) Hw) as A'.
      rewrite Z.rem_opp_l in A, A' by lia. lia. }
  destruct (fsub_within n (Z.rem n w) (Z.abs n)) as (c & Hc & Hle);
    [lia | assumption | assumption | assumption |].
  exists c. split; [assumption | lia].
Qed.

(** The powers of two that bound the intermediate results, with the only
    facts the proofs use about them. *)
Lemma overflow_margins :
  exists b5 b6 b7,
    (0 <= b5 /\ (2 ^ ulp_exp b5 | b5)) /\
    (0 <= b6 /\ (2 ^ ulp_exp b6 | b6)) /\
    (0 <= b7 /\ (2 ^ ulp_exp b7 | b7)) /\
    one <= b5 /\ b6 = 2 * b5 /\ b7 = 2 * b6 /\ overflow_threshold = 2 * b7.
Proof.
  exists (2 ^ 2095), (2 ^ 2096), (2 ^ 2097).
  assert (Hpos : forall p, 0 <= p -> 0 <= 2 ^ p)
    by (intros; apply Z.pow_nonneg; lia).
  assert (Hdouble : forall p, 0 <= p -> 2 ^ (p + 1) = 2 * 2 ^ p)
    by (intros; rewrite Z.pow_add_r, Z.pow_1_r by lia; ring).
  split; [split; [apply Hpos; lia | apply pow2_representable; lia]|].
  split; [split; [apply Hpos; lia | apply pow2_representable; lia]|].
  split; [split; [apply Hpos; lia | apply pow2_representable; lia]|].
  split; [unfold one; apply Z.pow_le_mono_r; lia|].
  split; [exact (Hdouble 2095 ltac:(lia))|].
  split; [exact (Hdouble 2096 ltac:(lia))|].
  exact (Hdouble 2097 ltac:(lia)).
Qed.

Lemma snap_quotient_within d b6 b7 :
  (0 <= b7 /\ (2 ^ ulp_exp b7 | b7)) ->
  2 * one <= b6 -> b7 = 2 * b6 -> b7 < overflow_threshold ->
  Z.abs d <= b6 -> exists c, snap_quotient (Finite d) = Finite c.
Proof.
  intros [H7 R7] H1b E7 Hlt Hd. pose proof one_pos as H1.
  unfold snap_quotient. destruct (nonzero (Finite d)); [|eauto].
  cbn [ffloor].
  pose proof (Z.div_mod d one ltac:(lia)) as E.
  pose proof (Z.mod_pos_bound d one H1) as B.
  destruct (fgt _ _); [|eauto].
  destruct (fadd_within (d / one * one) one b7) as [c [-> _]];
    [assumption | assumption | assumption | lia | eauto].
Qed.

Lemma float_floor_div_finite n :
  is_binary64 (Finite n) = true ->
  exists c, float_floor_div (Finite n) (10 * one) = Finite c.
Proof.
  intros Hn. pose proof one_pos as H1.
  destruct overflow_margins
    as (b5 & b6 & b7 & [H5 R5] & [H6 R6] & [H7 R7] & Hone & E6 & E7 & ET).
  set (w := 10 * one) in *.
  assert (Hw : 0 < w) by (subst w; lia).
  unfold float_floor_div, adjusted_quotient. cbn [fmod_pos].
  destruct (fsub_fmod_bounded n w Hw Hn) as [c1 [-> Hc1]].
  destruct (fdiv_within c1 w b5 Hw H5 R5) as [c2 [-> Hc2]]; [lia | |].
  { rewrite Z.abs_mul, (Z.abs_eq one) by lia. subst w.
    replace (b5 * (10 * one)) with (b5 * 10 * one) by ring.
    apply Z.mul_le_mono_nonneg_r; lia. }
  destruct (nonzero _); [destruct (negb _)|].
  - destruct (fsub_within c2 one b6) as [c3 [-> Hc3]];
      [assumption | assumption | lia | lia |].
    apply (snap_quotient_within c3 b6 b7); (split; assumption) || lia.
  - apply (snap_quotient_within c2 b6 b7); (split; assumption) || lia.
  - apply (snap_quotient_within c2 b6 b7); (split; assumption) || lia.
Qed.

End PyFloatFacts.

(** ** Facts about the store operations *)

Section Collections.

Context {D : Type}.
Implicit Types (c : collection D) (flt : ObjectId.t * D -> bool) (upd : D -> D).

(** Where [find_one] finds its document. *)
Lemma find_one_split flt c d :
  find_one flt c = Some d ->
  exists l1 l2, c = l1 ++ d :: l2 /\ flt d = true /\
                forall x, In x l1 -> flt x = false.
Proof.
  unfold find_one. induction c as [|x c IH]; cbn; [discriminate|].
  destruct (flt x) eqn:Hx.
  - intros [= ->]. exists [], c. repeat split; auto. intros ? [].
  - intros H. destruct (IH H) as (l1 & l2 & -> & Hd & Hl1).
    exists (x :: l1), l2. repeat split; auto.
    intros y [<- | Hy]; auto.
Qed.

Lemma find_one_none flt c :
  find_one flt c = None -> forall x, In x c -> flt x = false.
Proof. unfold find_one. intros H x Hx. exact (find_none flt c H x Hx). Qed.

Lemma find_one_app_first flt l1 l2 d :
  (forall x, In x l1 -> flt x = false) -> flt d = true ->
  find_one flt (l1 ++ d :: l2) = Some d.
Proof.
  intros Hl1 Hd. unfold find_one. induction l1 as [|x l1 IH]; cbn.
  - now rewrite Hd.
  - rewrite (Hl1 x) by now left. apply IH. intros y Hy. apply Hl1. now right.
Qed.

(** [update_one] changes exactly the document [find_one] finds. *)
Lemma update_one_found flt upd l1 l2 d :
  (forall x, In x l1 -> flt x = false) -> flt d = true ->
  update_one flt upd (l1 ++ d :: l2) =
  (1%N, l1 ++ (fst d, upd (snd d)) :: l2).
Proof.
  intros Hl1 Hd. induction l1 as [|x l1 IH]; cbn.
  - now rewrite Hd.
  - rewrite (Hl1 x) by now left. rewrite IH; [reflexivity|].
    intros y Hy. apply Hl1. now right.
Qed.

Lemma update_one_missing flt upd c :
  (forall x, In x c -> flt x = false) -> update_one flt upd c = (0%N, c).
Proof.
  induction c as [|x c IH]; cbn; [reflexivity|]. intros H.
  rewrite (H x) by now left. rewrite IH; [reflexivity|].
  intros y Hy. apply H. now right.
Qed.

(** With unique identifiers, the document with a given identifier is the
    only one the filter [{"_id": ...}] accepts. *)
Lemma by_id_unique c d x :
  NoDup (map fst c) -> In d c -> In x c -> by_id (fst d) x = true -> x = d.
Proof.
  unfold by_id. intros Hnd Hd Hx Heq. apply N.eqb_eq in Heq.
  induction c as [|y c IH]; [contradiction|].
  cbn in Hnd. inversion Hnd as [|? ? Hnotin Hnd']; subst.
  destruct Hd as [-> | Hd], Hx as [-> | Hx]; auto.
  - exfalso. apply Hnotin. rewrite <- Heq. now apply in_map.
  - exfalso. apply Hnotin. rewrite Heq. now apply in_map.
Qed.

Lemma by_id_split c d :
  NoDup (map fst c) -> In d c ->
  exists l1 l2, c = l1 ++ d :: l2 /\
                forall x, In x l1 -> by_id (fst d) x = false.
Proof.
  intros Hnd Hd.
  destruct (in_split d c Hd) as (l1 & l2 & ->).
  exists l1, l2. split; [reflexivity|].
  intros x Hx. destruct (by_id (fst d) x) eqn:E; [|reflexivity].
  exfalso.
  assert (x = d) by (eapply by_id_unique; eauto; apply in_or_app; now left).
  subst x. rewrite map_app in Hnd. cbn in Hnd.
  apply NoDup_remove_2 in Hnd. apply Hnd, in_or_app. left. now apply in_map.
Qed.

End Collections.

(** ** Identifiers and their strings *)

Module ObjectIdFacts.

Import ObjectId.
Local Open Scope N_scope.

Lemma hex_value_hex_char d : d < 16 -> hex_value (hex_char d) = Some d.
Proof.
  intros Hd.
  assert (H : d = 0 \/ d = 1 \/ d = 2 \/ d = 3 \/ d = 4 \/ d = 5 \/ d = 6 \/
              d = 7 \/ d = 8 \/ d = 9 \/ d = 10 \/ d = 11 \/ d = 12 \/
              d = 13 \/ d = 14 \/ d = 15) by lia.
  repeat (destruct H as [-> | H]; [reflexivity|]). now subst d.
Qed.

Lemma hex_digits_length k : forall n rest,
  String.length (hex_digits k n rest) = (k + String.length rest)%nat.
Proof.
  induction k as [|k IH]; intros n rest; cbn [hex_digits]; [reflexivity|].
  rewrite IH. cbn [String.length]. lia.
Qed.

Lemma is_space_hex_char d : d < 16 -> is_space (hex_char d) = false.
Proof.
  intros Hd.
  assert (H : d = 0 \/ d = 1 \/ d = 2 \/ d = 3 \/ d = 4 \/ d = 5 \/ d = 6 \/
              d = 7 \/ d = 8 \/ d = 9 \/ d = 10 \/ d = 11 \/ d = 12 \/
              d = 13 \/ d = 14 \/ d = 15) by lia.
  repeat (destruct H as [-> | H]; [reflexivity|]). now subst d.
Qed.

(** Digit pairs without whitespace are read byte by byte. *)
Lemma fromhex_digits j : forall n count acc rest,
  fromhex count acc (hex_digits (2 * j) n rest) =
  fromhex (count + j) (acc * 256 ^ N.of_nat j + n mod 256 ^ N.of_nat j) rest.
Proof.
  induction j as [|j IH]; intros n count acc rest.
  - cbn [Nat.mul hex_digits]. rewrite Nat.add_0_r. cbn [N.of_nat].
    rewrite N.pow_0_r, N.mod_1_r. f_equal; lia.
  - replace (2 * S j)%nat with (S (S (2 * j))) by lia.
    cbn [hex_digits]. rewrite IH. cbn [fromhex].
    rewrite is_space_hex_char by (apply N.mod_lt; lia).
    rewrite !hex_value_hex_char by (apply N.mod_lt; lia).
    replace (count + S j)%nat with (S (count + j)) by lia.
    f_equal. rewrite Nat2N.inj_succ, N.pow_succ_r'.
    set (b := 256 ^ N.of_nat j).
    assert (H1 : n / 16 / 16 = n / 256) by (now rewrite N.Div0.div_div).
    assert (H2 : n mod (256 * b) = n mod 256 + 256 * ((n / 256) mod b))
      by apply N.Div0.mod_mul_r.
    assert (H3 : n mod 256 = n mod 16 + 16 * ((n / 16) mod 16))
      by apply (N.Div0.mod_mul_r n 16 16).
    rewrite H1, H2, H3. lia.
Qed.

(** The string of a 12-byte identifier reads back as the identifier. *)
Lemma parse_str i : i < 2 ^ 96 -> parse (str i) = Some i.
Proof.
  intros Hi. unfold parse, str, size.
  destruct (N.ltb_spec i (2 ^ 96)) as [_|]; [|lia].
  rewrite hex_digits_length. cbn [Nat.eqb Nat.add Nat.mul String.length].
  change 24%nat with (2 * 12)%nat. rewrite fromhex_digits.
  cbn [fromhex Nat.add of_bytes Nat.eqb]. f_equal.
  change (256 ^ N.of_nat 12) with (2 ^ 96).
  rewrite !(N.mod_small i) by assumption. lia.
Qed.

Lemma blanks_cons c s :
  blanks (String c s) = ((if is_space c then 1 else 0) + blanks s)%nat.
Proof.
  unfold blanks. cbn [list_ascii_of_string filter].
  now destruct (is_space c).
Qed.

(** What [fromhex] has read when it accepts: every character was whitespace
    or half a byte, and the bytes spell a number of their size. *)
Lemma fromhex_accepts m : forall s count acc c v,
  (String.length s <= m)%nat ->
  fromhex count acc s = Some (c, v) ->
  (2 * c + blanks s = 2 * count + String.length s)%nat /\
  (acc < 256 ^ N.of_nat count -> v < 256 ^ N.of_nat c).
Proof.
  induction m as [|m IH]; intros s count acc c v Hlen.
  - destruct s; [|cbn in Hlen; lia]. cbn [fromhex]. intros [= <- <-].
    split; [reflexivity | auto].
  - destruct s as [|x s]; [cbn [fromhex]; intros [= <- <-]; split;
                           [reflexivity | auto]|].
    cbn [String.length] in Hlen. cbn [fromhex]. rewrite blanks_cons.
    destruct (is_space x).
    + intros H. apply IH in H; [|lia]. cbn [String.length]. split; [lia|].
      apply H.
    + destruct (hex_value x) as [top|] eqn:Htop; [|discriminate].
      destruct s as [|y s]; [discriminate|].
      destruct (hex_value y) as [bot|] eqn:Hbot; [|discriminate].
      cbn [String.length] in Hlen |- *. rewrite blanks_cons.
      destruct (is_space y) eqn:Hy.
      { exfalso. unfold is_space, hex_value in *.
        set (n := N_of_ascii y) in *.
        destruct (N.leb_spec 48 n), (N.leb_spec n 57), (N.leb_spec 97 n),
          (N.leb_spec n 102), (N.leb_spec 65 n), (N.leb_spec n 70),
          (N.eqb_spec n 32), (N.leb_spec 9 n), (N.leb_spec n 13);
          cbn in *; try discriminate; lia. }
      intros H. apply IH in H; [|lia]. split; [lia|].
      intros Hacc. apply H.
      assert (top < 16 /\ bot < 16) as [Ht Hb].
      { unfold hex_value in *.
        set (n := N_of_ascii x) in *. set (k := N_of_ascii y) in *.
        split.
        - destruct (N.leb_spec 48 n), (N.leb_spec n 57), (N.leb_spec 97 n),
            (N.leb_spec n 102), (N.leb_spec 65 n), (N.leb_spec n 70);
            cbn in Htop; try discriminate; injection Htop as <-; lia.
        - destruct (N.leb_spec 48 k), (N.leb_spec k 57), (N.leb_spec 97 k),
            (N.leb_spec k 102), (N.leb_spec 65 k), (N.leb_spec k 70);
            cbn in Hbot; try discriminate; injection Hbot as <-; lia. }
      rewrite Nat2N.inj_succ, N.pow_succ_r'. lia.
Qed.

(** The identifier that [parse] reads: 12 bytes when the string holds no
    whitespace, fewer otherwise. *)
Lemma parse_size s i :
  parse s = Some i ->
  (blanks s = 0%nat -> i < 2 ^ 96) /\
  (blanks s <> 0%nat -> 2 ^ 96 <= i /\ (size i < 12)%nat).
Proof.
  unfold parse. destruct (Nat.eqb_spec (String.length s) 24) as [Hlen|];
    [|discriminate].
  destruct (fromhex 0 0 s) as [[c v]|] eqn:Hf; [|discriminate].
  intros [= <-].
  destruct (fromhex_accepts 24 s 0 0 c v ltac:(lia) Hf) as [Hcount Hv].
  specialize (Hv ltac:(cbn; lia)). rewrite Hlen in Hcount.
  unfold of_bytes. split.
  - intros Hb. assert (c = 12%nat) as -> by lia.
    cbn [Nat.eqb]. exact Hv.
  - intros Hb. assert (Hc : (c < 12)%nat) by lia.
    destruct (Nat.eqb_spec c 12) as [|_]; [lia|].
    assert (Hv96 : v < 2 ^ 96).
    { eapply N.lt_le_trans; [exact Hv|].
      change (2 ^ 96) with (256 ^ N.of_nat 12).
      apply N.pow_le_mono_r; lia. }
    assert (Hdiv : (N.of_nat (S c) * 2 ^ 96 + v) / 2 ^ 96 = N.of_nat (S c)).
    { rewrite N.div_add_l by (cbv; discriminate).
      rewrite N.div_small by assumption. lia. }
    split; [lia|].
    unfold size.
    destruct (N.ltb_spec (N.of_nat (S c) * 2 ^ 96 + v) (2 ^ 96)); [lia|].
    rewrite Hdiv. lia.
Qed.

(** An identifier of fewer than 12 bytes is written in fewer than 24
    digits, which [parse] does not take back. *)
Lemma parse_str_short i : (size i < 12)%nat -> parse (str i) = None.
Proof.
  intros Hs. unfold parse, str. rewrite hex_digits_length.
  cbn [String.length]. destruct (Nat.eqb_spec (2 * size i + 0) 24);
    [lia | reflexivity].
Qed.

End ObjectIdFacts.

(** ** Cars and orders *)

Lemma create_car_rejected car db :
  Car.for_rent car = false -> Car.for_sale car = false ->
  create_car car db =
  (Raise (HTTPException 400 "Car must be for sale or for rent"), db).
Proof. unfold create_car. now intros -> ->. Qed.

Lemma create_car_accepted car db :
  Car.for_rent car = true \/ Car.for_sale car = true ->
  create_car car db =
  (Return (ObjectId.str (next_id db)),
   bump_id (set_coll Coll.car (car_coll db ++ [(next_id db, car)]) db)).
Proof.
  unfold create_car.
  intros [-> | ->]; [rewrite orb_true_r | rewrite orb_true_l]; reflexivity.
Qed.



(** Identifiers as strings: 24 hexadecimal digits in either case give 12
    bytes; 24 characters with whitespace in front of digit pairs give fewer
    bytes (here 8, written back in 16 digits); whitespace inside a pair, a
    character that is no digit, or another length is refused. *)
Example ObjectId_parse_examples :
  ObjectId.parse (ObjectId.str 255%N) = Some 255%N /\
  ObjectId.parse "0000000000000000000000FF" = Some 255%N /\
  option_map ObjectId.str (ObjectId.parse "00 00 00 00 00 00 00 ff ")
    = Some "00000000000000ff" /\
  option_map ObjectId.size (ObjectId.parse "00 00 00 00 00 00 00 ff ")
    = Some 8%nat /\
  ObjectId.parse "0 000000000000000000000f" = None /\
  ObjectId.parse "abc" = None /\
  ObjectId.parse "00000000000000000000000g" = None.
Proof. vm_compute. repeat split; reflexivity. Qed.

Lemma create_order_invalid_id order db :
  ObjectId.parse (Order.car_id order) = None ->
  create_order order db = (Raise InvalidId, db).
Proof. unfold create_order. now intros ->. Qed.

Lemma create_order_no_car order db oid :
  ObjectId.parse (Order.car_id order) = Some oid ->
  find_one (by_id oid) (car_coll db) = None ->
  create_order order db = (Raise (HTTPException 404 "Car not found"), db).
Proof. unfold create_order. now intros -> ->. Qed.

Lemma create_order_car_found order db oid car :
  ObjectId.parse (Order.car_id order) = Some oid ->
  find_one (by_id oid) (car_coll db) = Some car ->
  create_order order db =
  (Return (ObjectId.str (next_id db)),
   bump_id (set_coll Coll.notification
     (notification_coll db ++ [(N.succ (next_id db), order_notification order)])
     (bump_id (set_coll Coll.order (order_coll db ++ [(next_id db, order)]) db)))).
Proof. unfold create_order. now intros -> ->. Qed.

Lemma not_found_is_not_invalid_id : ~ NotFound InvalidId.
Proof. intros [detail [=]]. Qed.

(** C5, as amended.  When [car_id] references no existing car the order is
    refused and the store is left unchanged: with NotFound when the
    identifier parser takes [car_id] (every string of 24 characters made of
    pairs of hexadecimal digits, with or without whitespace in front of the
    pairs), with the parser's [InvalidId] when it refuses [car_id]. *)
Theorem create_order_unknown_car (order : Order.t) (db : DB)
  (Hmissing : ~ references (Order.car_id order) (car_coll db)) :
  exists e,
    create_order order db = (Raise e, db) /\
    (forall oid, ObjectId.parse (Order.car_id order) = Some oid -> NotFound e) /\
    (ObjectId.parse (Order.car_id order) = None -> e = InvalidId).
Proof.
  destruct (ObjectId.parse (Order.car_id order)) as [oid|] eqn:Hp.
  - destruct (find_one (by_id oid) (car_coll db)) as [car|] eqn:Hf.
    + exfalso. apply Hmissing. now exists oid, car.
    + eexists. split; [now apply (create_order_no_car order db oid)|].
      split; [|discriminate]. intros _ _. now eexists.
  - eexists. split; [now apply create_order_invalid_id|].
    split; [discriminate | reflexivity].
Qed.

Lemma create_order_unknown_car_witness :
  ~ references "000000000000000000000009" (car_coll sample_db) /\
  exists e,
    create_order (sample_order "000000000000000000000009") sample_db =
      (Raise e, sample_db) /\
    (forall oid, ObjectId.parse "000000000000000000000009" = Some oid ->
                 NotFound e) /\
    (ObjectId.parse "000000000000000000000009" = None -> e = InvalidId).
Proof.
  assert (H : ~ references "000000000000000000000009" (car_coll sample_db)).
  { intros (oid & d & Hp & Hf). vm_compute in Hp. injection Hp as <-.
    vm_compute in Hf. discriminate. }
  split; [exact H|].
  exact (create_order_unknown_car
           (sample_order "000000000000000000000009") sample_db H).
Defined.

(** C5 as stated fails: [car_id = "abc"] references no car, and the order is
    refused with [InvalidId], which is not NotFound. *)
Lemma create_order_malformed_id_not_NotFound :
  ~ references "abc" (car_coll sample_db) /\
  fst (create_order (sample_order "abc") sample_db) = Raise InvalidId /\
  ~ (exists e, fst (create_order (sample_order "abc") sample_db) = Raise e
               /\ NotFound e).
Proof.
  split; [|split].
  - intros (oid & d & Hp & _). vm_compute in Hp. discriminate.
  - reflexivity.
  - intros (e & He & Hnf). vm_compute in He. injection He as <-.
    now apply not_found_is_not_invalid_id.
Qed.

(** The order is refused with NotFound, not with [InvalidId], when [car_id]
    is 24 characters of digit pairs and blanks: the parser reads an
    identifier of 8 bytes, which no car has. *)
Example create_order_blank_id_NotFound :
  create_order (sample_order "00 00 00 00 00 00 00 01 ") sample_db =
  (Raise (HTTPException 404 "Car not found"), sample_db).
Proof. vm_compute. reflexivity. Qed.

(** C6.  When [car_id] references an existing car, the order is appended
    unchanged to the order collection, one notification is appended, sent to
    the order's [owner_email] with the message "You have a new rent request"
    for an order to rent and "You have a new buy request" for an order to
    buy, and the identifier of the new order is returned; nothing else
    changes. *)
Theorem create_order_persists (order : Order.t) (db : DB)
  (Hcar : references (Order.car_id order) (car_coll db)) :
  exists db' note,
    create_order order db = (Return (ObjectId.str (next_id db)), db') /\
    order_coll db' = order_coll db ++ [(next_id db, order)] /\
    notification_coll db' =
      notification_coll db ++ [(N.succ (next_id db), note)] /\
    Notification.email note = Order.owner_email order /\
    Notification.title note = "New order" /\
    Notification.message note =
      match Order.order_type order with
      | rent => "You have a new rent request"
      | buy => "You have a new buy request"
      end /\
    Notification.read note = false /\
    car_coll db' = car_coll db /\
    transaction_coll db' = transaction_coll db /\
    reward_coll db' = reward_coll db.
Proof.
  destruct Hcar as (oid & car & Hp & Hf).
  rewrite (create_order_car_found order db oid car Hp Hf).
  eexists. exists (order_notification order).
  split; [reflexivity|]. split; [reflexivity|]. split; [reflexivity|].
  split; [reflexivity|]. split; [reflexivity|].
  split; [|repeat split; reflexivity].
  cbn [order_notification Notification.message].
  destruct (Order.order_type order); reflexivity.
Qed.

(** An order to rent and an order to buy the sample car. *)
Lemma create_order_persists_witness :
  (exists db' note,
     create_order (sample_order "000000000000000000000001") sample_db =
       (Return "000000000000000000000004", db') /\
     order_coll db' =
       order_coll sample_db ++
       [(4%N, sample_order "000000000000000000000001")] /\
     notification_coll db' = [(5%N, note)] /\
     Notification.email note = "owner@cars.io" /\
     Notification.title note = "New order" /\
     Notification.message note = "You have a new rent request" /\
     Notification.read note = false /\
     car_coll db' = car_coll sample_db /\
     transaction_coll db' = transaction_coll sample_db /\
     reward_coll db' = reward_coll sample_db) /\
  (exists db' note,
     create_order (sample_purchase "000000000000000000000001") sample_db =
       (Return "000000000000000000000004", db') /\
     order_coll db' =
       order_coll sample_db ++
       [(4%N, sample_purchase "000000000000000000000001")] /\
     notification_coll db' = [(5%N, note)] /\
     Notification.email note = "owner@cars.io" /\
     Notification.title note = "New order" /\
     Notification.message note = "You have a new buy request" /\
     Notification.read note = false /\
     car_coll db' = car_coll sample_db /\
     transaction_coll db' = transaction_coll sample_db /\
     reward_coll db' = reward_coll sample_db).
Proof.
  assert (H : references "000000000000000000000001" (car_coll sample_db))
    by (exists 1%N, (1%N, sample_car); split; reflexivity).
  split.
  - exact (create_order_persists
             (sample_order "000000000000000000000001") sample_db H).
  - exact (create_order_persists
             (sample_purchase "000000000000000000000001") sample_db H).
Defined.

(** The two messages, evaluated. *)
Example create_order_messages :
  map (fun d => Notification.message (snd d))
    (notification_coll
       (snd (create_order (sample_purchase "000000000000000000000001")
               (snd (create_order (sample_order "000000000000000000000001")
                       sample_db))))) =
  ["You have a new rent request"; "You have a new buy request"].
Proof. vm_compute. reflexivity. Qed.

(** C10.  When [role] is neither "customer" nor "owner", [list_orders]
    ignores [email] and returns every order of the store. *)
Theorem list_orders_unfiltered (db : DB) (email role : option string)
  (Hc : role <> Some "customer") (Ho : role <> Some "owner") :
  list_orders (Some db) email role = with_id (order_coll db).
Proof.
  unfold list_orders.
  assert (E1 : mode_is role "customer" = false).
  { destruct role as [r|]; [|reflexivity]. cbn.
    destruct (String.eqb_spec r "customer"); [subst; contradiction | reflexivity]. }
  assert (E2 : mode_is role "owner" = false).
  { destruct role as [r|]; [|reflexivity]. cbn.
    destruct (String.eqb_spec r "owner"); [subst; contradiction | reflexivity]. }
  rewrite E1, E2, !andb_false_r. cbn [app forallb].
  unfold find. f_equal. induction (order_coll db) as [|d c IH]; cbn; congruence.
Qed.

Lemma list_orders_unfiltered_witness :
  Some "admin" <> Some "customer" /\ Some "admin" <> Some "owner" /\
  list_orders (Some sample_db) (Some "nobody@mail.io") (Some "admin") =
  [("000000000000000000000002", sample_order "000000000000000000000001")].
Proof.
  assert (Hc : Some "admin" <> Some "customer") by discriminate.
  assert (Ho : Some "admin" <> Some "owner") by discriminate.
  split; [exact Hc | split; [exact Ho |]].
  exact (list_orders_unfiltered sample_db (Some "nobody@mail.io")
           (Some "admin") Hc Ho).
Defined.

Lemma update_order_status_invalid_id order_id status db :
  ObjectId.parse order_id = None ->
  update_order_status order_id status db = (Raise InvalidId, db).
Proof. unfold update_order_status. now intros ->. Qed.

Lemma update_order_status_missing order_id status db oid :
  ObjectId.parse order_id = Some oid ->
  find_one (by_id oid) (order_coll db) = None ->
  update_order_status order_id status db =
  (Raise (HTTPException 404 "Order not found"), db).
Proof.
  unfold update_order_status. intros -> Hf.
  rewrite update_one_missing by (now apply find_one_none).
  reflexivity.
Qed.

Lemma update_order_status_found order_id status db oid d :
  ObjectId.parse order_id = Some oid ->
  find_one (by_id oid) (order_coll db) = Some d ->
  exists l1 l2,
    order_coll db = l1 ++ d :: l2 /\
    (forall x, In x l1 -> fst x <> oid) /\
    update_order_status order_id status db =
    (Return "ok",
     set_coll Coll.order (l1 ++ (fst d, Order.set_status status (snd d)) :: l2) db).
Proof.
  unfold update_order_status. intros -> Hf.
  destruct (find_one_split _ _ _ Hf) as (l1 & l2 & E & Hd & Hl1).
  exists l1, l2. split; [exact E|]. split.
  - intros x Hx Heq. specialize (Hl1 x Hx). unfold by_id in Hl1.
    apply N.eqb_neq in Hl1. contradiction.
  - rewrite E, update_one_found by assumption. reflexivity.
Qed.

(** C8, as amended.  For an [order_id] that the identifier parser takes
    (every string of 24 characters made of pairs of hexadecimal digits, with
    or without whitespace in front of the pairs), the status update fails
    with NotFound exactly when no order has that identifier, and then leaves
    the store unchanged; when an order has it, the order's status becomes the
    given string, whatever the old status and the new one are, and no other
    order or field changes.  An [order_id] that the parser refuses is
    refused with [InvalidId], the store unchanged. *)
Theorem update_order_status_spec (order_id status : string) (db : DB) :
  (ObjectId.parse order_id = None ->
   update_order_status order_id status db = (Raise InvalidId, db)) /\
  (forall oid, ObjectId.parse order_id = Some oid ->
     ((exists e, fst (update_order_status order_id status db) = Raise e
                 /\ NotFound e) <->
      ~ references order_id (order_coll db)) /\
     (~ references order_id (order_coll db) ->
      snd (update_order_status order_id status db) = db) /\
     (forall d, find_one (by_id oid) (order_coll db) = Some d ->
        exists l1 l2 db',
          order_coll db = l1 ++ d :: l2 /\
          (forall x, In x l1 -> fst x <> oid) /\
          update_order_status order_id status db = (Return "ok", db') /\
          order_coll db' =
            l1 ++ (fst d, Order.set_status status (snd d)) :: l2 /\
          Order.status (Order.set_status status (snd d)) = status /\
          car_coll db' = car_coll db /\
          notification_coll db' = notification_coll db /\
          transaction_coll db' = transaction_coll db /\
          reward_coll db' = reward_coll db)).
Proof.
  split; [apply update_order_status_invalid_id|].
  intros oid Hp.
  destruct (find_one (by_id oid) (order_coll db)) as [d|] eqn:Hf.
  - destruct (update_order_status_found order_id status db oid d Hp Hf)
      as (l1 & l2 & E & Hl1 & Hrun).
    assert (Href : references order_id (order_coll db)) by now exists oid, d.
    split; [split | split].
    + rewrite Hrun. intros (e & [=] & _).
    + intros Hno. contradiction.
    + intros Hno. contradiction.
    + intros d' [= <-]. exists l1, l2. eexists.
      split; [exact E|]. split; [exact Hl1|]. split; [exact Hrun|].
      repeat split; reflexivity.
  - assert (Hno : ~ references order_id (order_coll db)).
    { intros (oid' & d & Hp' & Hf'). congruence. }
    rewrite (update_order_status_missing order_id status db oid Hp Hf).
    split; [split | split].
    + intros _. exact Hno.
    + intros _. eexists. split; [reflexivity | now eexists].
    + reflexivity.
    + discriminate.
Qed.

(** A completed order goes back to pending; an unknown identifier is
    NotFound. *)
Lemma update_order_status_spec_witness :
  (exists l1 l2 db',
     order_coll sample_db =
       l1 ++ (2%N, sample_order "000000000000000000000001") :: l2 /\
     (forall x, In x l1 -> fst x <> 2%N) /\
     update_order_status "000000000000000000000002" "pending" sample_db =
       (Return "ok", db') /\
     order_coll db' =
       l1 ++ (2%N, Order.set_status "pending"
                     (sample_order "000000000000000000000001")) :: l2 /\
     Order.status (Order.set_status "pending"
                     (sample_order "000000000000000000000001")) = "pending" /\
     car_coll db' = car_coll sample_db /\
     notification_coll db' = notification_coll sample_db /\
     transaction_coll db' = transaction_coll sample_db /\
     reward_coll db' = reward_coll sample_db) /\
  snd (update_order_status "000000000000000000000007" "pending" sample_db)
  = sample_db.
Proof.
  split.
  - apply (proj2 (update_order_status_spec
                    "000000000000000000000002" "pending" sample_db)
             2%N eq_refl).
    reflexivity.
  - apply (proj2 (update_order_status_spec
                    "000000000000000000000007" "pending" sample_db)
             7%N eq_refl).
    intros (oid & d & Hp & Hf). vm_compute in Hp. injection Hp as <-.
    vm_compute in Hf. discriminate.
Defined.

(** The update is refused with NotFound, not with [InvalidId], when
    [order_id] is 24 characters of digit pairs and blanks. *)
Example update_order_status_blank_id_NotFound :
  update_order_status "00 00 00 00 00 00 00 02 " "pending" sample_db =
  (Raise (HTTPException 404 "Order not found"), sample_db).
Proof. vm_compute. reflexivity. Qed.

(** C8 as stated fails: no order has the identifier ["zz"], yet the update is
    refused with [InvalidId], not with NotFound. *)
Lemma update_order_status_malformed_id_not_NotFound :
  ~ references "zz" (order_coll sample_db) /\
  fst (update_order_status "zz" "pending" sample_db) = Raise InvalidId /\
  ~ (exists e, fst (update_order_status "zz" "pending" sample_db) = Raise e
               /\ NotFound e).
Proof.
  split; [|split].
  - intros (oid & d & Hp & _). vm_compute in Hp. discriminate.
  - reflexivity.
  - intros (e & He & Hnf). vm_compute in He. injection He as <-.
    now apply not_found_is_not_invalid_id.
Qed.

(** ** Transactions and rewards *)

Section Rewards.

Local Open Scope Z_scope.

(** Whatever the amount, a computed number of points is at least 1. *)
Lemma earned_points_at_least_1 amount p :
  earned_points amount = Some p -> 1 <= p.
Proof.
  unfold earned_points, max_1, fgt, of_int.
  destruct (float_floor_div amount (10 * one)) as [a | s |]; cbn [flt].
  - destruct (Z.ltb_spec (1 * one) a) as [Hgt | Hle]; cbn [to_int].
    + intros H. injection H as H. subst p. pose proof PyFloatFacts.one_pos.
      apply Z.quot_le_lower_bound; lia.
    + intros H. injection H as H. lia.
  - destruct s; cbn [negb to_int]; intros H; [injection H as H; lia | discriminate].
  - cbn [to_int]. intros H. injection H as H. lia.
Qed.

Lemma claimed_tier_tier_for total : claimed_tier total (tier_for total).
Proof.
  unfold claimed_tier, tier_for.
  destruct (Z.leb_spec 200 total), (Z.leb_spec 120 total),
    (Z.leb_spec 60 total); repeat split; intros; (reflexivity || lia).
Qed.

(** The store once the transaction document is written. *)
Lemma create_transaction_unfold tx db :
  create_transaction tx db =
  let db1 := bump_id (set_coll Coll.transaction
                        (transaction_coll db ++ [(next_id db, tx)]) db) in
  match earned_points (Transaction.amount tx) with
  | None => (Raise ConversionError, db1)
  | Some pts =>
      match find_one (by_email (Transaction.customer_email tx)) (reward_coll db) with
      | Some existing =>
          let new_points := Reward.points (snd existing) + pts in
          if int64 new_points then
            (Return (ObjectId.str (next_id db)),
             set_coll Coll.reward
               (snd (update_one (by_id (fst existing))
                       (Reward.set_points_tier new_points (tier_for new_points))
                       (reward_coll db))) db1)
          else (Raise EncodingError, db1)
      | None =>
          if int64 pts then
            (Return (ObjectId.str (next_id db)),
             bump_id (set_coll Coll.reward
               (reward_coll db ++
                [(N.succ (next_id db),
                  {| Reward.email := Transaction.customer_email tx;
                     Reward.points := pts; Reward.tier := Bronze |})]) db1))
          else (Raise EncodingError, db1)
      end
  end.
Proof.
  unfold create_transaction, create_document. cbv beta iota zeta.
  destruct (earned_points (Transaction.amount tx)); [|reflexivity].
  cbn [reward_coll bump_id set_coll get_coll next_id].
  destruct (find_one _ _); [|now destruct (int64 _)].
  destruct (int64 _); [|reflexivity].
  now destruct (update_one _ _ _).
Qed.

(** The reward found by email is the one its identifier selects. *)
Lemma reward_update_found db e existing upd :
  NoDup (map fst (reward_coll db)) ->
  find_one (by_email e) (reward_coll db) = Some existing ->
  exists l1 l2,
    reward_coll db = l1 ++ existing :: l2 /\
    (forall x, In x l1 -> by_email e x = false) /\
    by_email e existing = true /\
    update_one (by_id (fst existing)) upd (reward_coll db) =
    (1%N, l1 ++ (fst existing, upd (snd existing)) :: l2).
Proof.
  intros Hnd Hf.
  destruct (find_one_split _ _ _ Hf) as (l1 & l2 & E & He & Hl1).
  exists l1, l2. repeat split; auto.
  rewrite E. apply update_one_found.
  - intros x Hx. destruct (by_id (fst existing) x) eqn:Hid; [|reflexivity].
    assert (x = existing).
    { apply (by_id_unique (reward_coll db)); auto; rewrite E;
        apply in_or_app; [right; now left | now left]. }
    subst x. rewrite (Hl1 _ Hx) in He. discriminate.
  - unfold by_id. apply N.eqb_refl.
Qed.

(** *** Points only grow *)

Lemma Forall2_same {A} (R : A -> A -> Prop) (l : list A) :
  (forall x, R x x) -> Forall2 R l l.
Proof. intros HR. induction l; constructor; auto. Qed.

Lemma extends_append c added : extends c (c ++ added).
Proof.
  exists c, added. split; [reflexivity|].
  apply Forall2_same. intros x. repeat split; lia.
Qed.

Lemma extends_refl c : extends c c.
Proof.
  exists c, []. split; [now rewrite app_nil_r|].
  apply Forall2_same. intros x. repeat split; lia.
Qed.

Lemma extends_update l1 l2 d r :
  Reward.email r = Reward.email (snd d) ->
  Reward.points (snd d) <= Reward.points r ->
  extends (l1 ++ d :: l2) (l1 ++ (fst d, r) :: l2).
Proof.
  intros He Hp. exists (l1 ++ (fst d, r) :: l2), []. split.
  - now rewrite app_nil_r.
  - apply Forall2_app.
    + apply Forall2_same. intros x. repeat split; lia.
    + constructor.
      * cbn. repeat split; auto.
      * apply Forall2_same. intros x. repeat split; lia.
Qed.

(** A filter that looks at the identifier and the email only finds the same
    record in the extension. *)
Lemma find_one_extends (flt : ObjectId.t * Reward.t -> bool) c c' d :
  (forall x y, fst x = fst y -> Reward.email (snd x) = Reward.email (snd y) ->
               flt x = flt y) ->
  extends c c' ->
  find_one flt c = Some d ->
  exists d', find_one flt c' = Some d' /\
             fst d' = fst d /\
             Reward.points (snd d) <= Reward.points (snd d').
Proof.
  intros Hflt (kept & added & -> & Hrel). revert d.
  unfold find_one. induction Hrel as [|x y c kept (Hid & Hem & Hpt) Hrel IH];
    cbn; [discriminate|].
  intros d. rewrite (Hflt x y Hid Hem). destruct (flt y).
  - intros H. injection H as <-. exists y. repeat split; auto.
  - apply IH.
Qed.

Lemma by_id_respects i (x y : ObjectId.t * Reward.t) :
  fst x = fst y -> Reward.email (snd x) = Reward.email (snd y) ->
  by_id i x = by_id i y.
Proof. unfold by_id. now intros -> _. Qed.

Lemma by_email_respects e (x y : ObjectId.t * Reward.t) :
  fst x = fst y -> Reward.email (snd x) = Reward.email (snd y) ->
  by_email e x = by_email e y.
Proof. unfold by_email. now intros _ ->. Qed.

(** One transaction extends the reward collection and keeps its identifiers
    in order. *)
Lemma create_transaction_extends tx db :
  reward_ids_ok db ->
  extends (reward_coll db) (reward_coll (snd (create_transaction tx db))) /\
  reward_ids_ok (snd (create_transaction tx db)).
Proof.
  intros [Hnd Hlt]. rewrite create_transaction_unfold. cbv zeta.
  assert (Hlt1 : Forall (fun i => (i < N.succ (next_id db))%N)
                        (map fst (reward_coll db))).
  { eapply Forall_impl; [|exact Hlt]. cbn. intros; lia. }
  destruct (earned_points (Transaction.amount tx)) as [pts|] eqn:Hpts.
  2:{ cbn [snd reward_coll set_coll bump_id next_id]. split.
      - apply extends_refl.
      - split; assumption. }
  pose proof (earned_points_at_least_1 _ _ Hpts) as Hge.
  assert (Hfailed : extends (reward_coll db) (reward_coll db) /\
                    NoDup (map fst (reward_coll db)) /\
                    Forall (fun i => (i < N.succ (next_id db))%N)
                           (map fst (reward_coll db)))
    by (split; [apply extends_refl | split; assumption]).
  destruct (find_one _ (reward_coll db)) as [existing|] eqn:Hf;
    (destruct (int64 _);
     [|cbn [snd reward_coll set_coll bump_id next_id]; exact Hfailed]).
  - destruct (reward_update_found db _ existing
                (Reward.set_points_tier (Reward.points (snd existing) + pts)
                   (tier_for (Reward.points (snd existing) + pts))) Hnd Hf)
      as (l1 & l2 & E & _ & _ & Hupd).
    rewrite Hupd. cbn [snd reward_coll set_coll bump_id next_id]. split.
    + rewrite E. apply extends_update; cbn; [reflexivity | lia].
    + assert (Hids : map fst (l1 ++ (fst existing,
                  Reward.set_points_tier (Reward.points (snd existing) + pts)
                    (tier_for (Reward.points (snd existing) + pts))
                    (snd existing)) :: l2) = map fst (reward_coll db)).
      { rewrite E, !map_app. reflexivity. }
      unfold reward_ids_ok. cbn [reward_coll next_id set_coll bump_id]. rewrite Hids.
      split; assumption.
  - cbn [snd reward_coll set_coll bump_id next_id]. split.
    + apply extends_append.
    + unfold reward_ids_ok. cbn [reward_coll next_id set_coll bump_id].
      rewrite map_app. cbn [map fst]. split.
      * apply NoDup_app; [assumption | repeat constructor; intros [] | ].
        intros i Hi [<- | []]. rewrite Forall_forall in Hlt.
        specialize (Hlt _ Hi). lia.
      * apply Forall_app. split.
        -- eapply Forall_impl; [|exact Hlt]. cbn. intros; lia.
        -- repeat constructor. lia.
Qed.

Lemma create_transactions_grow txs :
  forall db (flt : ObjectId.t * Reward.t -> bool) d,
    (forall x y, fst x = fst y -> Reward.email (snd x) = Reward.email (snd y) ->
                 flt x = flt y) ->
    reward_ids_ok db ->
    find_one flt (reward_coll db) = Some d ->
    exists d', find_one flt (reward_coll (create_transactions txs db)) = Some d'
               /\ fst d' = fst d
               /\ Reward.points (snd d) <= Reward.points (snd d').
Proof.
  induction txs as [|tx txs IH]; intros db flt d Hflt Hok Hf; cbn.
  - exists d. repeat split; auto. lia.
  - destruct (create_transaction_extends tx db Hok) as [Hext Hok1].
    destruct (find_one_extends flt _ _ d Hflt Hext Hf) as (d1 & Hf1 & Hid1 & Hp1).
    destruct (IH _ flt d1 Hflt Hok1 Hf1) as (d' & Hf' & Hid' & Hp').
    exists d'. repeat split; [assumption | congruence | lia].
Qed.

End Rewards.

(** *** The identifiers of reachable stores *)

Lemma reward_ids_ok_kept db db' :
  reward_coll db' = reward_coll db -> (next_id db <= next_id db')%N ->
  reward_ids_ok db -> reward_ids_ok db'.
Proof.
  intros Hc Hn [Hnd Hlt]. unfold reward_ids_ok. rewrite Hc.
  split; [assumption|]. eapply Forall_impl; [|exact Hlt]. cbn. intros; lia.
Qed.

Lemma handle_reward_ids_ok r db : reward_ids_ok db -> reward_ids_ok (handle r db).
Proof.
  intros Hok. destruct r as [car | order | order_id status | tx]; cbn [handle].
  - unfold create_car, create_document.
    destruct (negb _); cbn [snd]; [assumption|].
    apply (reward_ids_ok_kept db); cbn; [reflexivity | lia | assumption].
  - destruct (ObjectId.parse (Order.car_id order)) as [oid|] eqn:Hp.
    + destruct (find_one (by_id oid) (car_coll db)) as [car|] eqn:Hf.
      * rewrite (create_order_car_found order db oid car Hp Hf).
        apply (reward_ids_ok_kept db); cbn; [reflexivity | lia | assumption].
      * now rewrite (create_order_no_car order db oid Hp Hf).
    + now rewrite (create_order_invalid_id order db Hp).
  - destruct (ObjectId.parse order_id) as [oid|] eqn:Hp.
    + destruct (find_one (by_id oid) (order_coll db)) as [d|] eqn:Hf.
      * destruct (update_order_status_found order_id status db oid d Hp Hf)
          as (l1 & l2 & _ & _ & ->).
        apply (reward_ids_ok_kept db); cbn; [reflexivity | lia | assumption].
      * now rewrite (update_order_status_missing order_id status db oid Hp Hf).
    + now rewrite (update_order_status_invalid_id order_id status db Hp).
  - now apply create_transaction_extends.
Qed.

(** Every store the handlers can build has its reward identifiers in order. *)
Lemma reachable_reward_ids_ok db : reachable db -> reward_ids_ok db.
Proof.
  induction 1 as [|r db _ IH].
  - split; cbn; constructor.
  - now apply handle_reward_ids_ok.
Qed.

(** C2, as amended.  When the customer already has a reward record with
    [p] points, a transaction that earns [e] points replaces the points of
    that record by [p + e] and its tier by the tier of the new total
    (Platinum from 200, Gold from 120, Silver from 60, Bronze below),
    provided [p + e] fits the 8-byte integers of the store; the record keeps
    its place, identifier and email, and no other record changes.  When
    [p + e] does not fit, the write to the reward collection raises: the
    transaction is stored and the record is left as it was.  The [_id]
    values of the collection are unique, as the store keeps them
    ([reachable_reward_ids_ok]). *)
Theorem create_transaction_existing_reward
  (tx : Transaction.t) (db : DB) (existing : ObjectId.t * Reward.t) (e : Z)
  (Hids : NoDup (map fst (reward_coll db)))
  (Hfound : find_one (by_email (Transaction.customer_email tx)) (reward_coll db)
            = Some existing)
  (Hearned : earned_points (Transaction.amount tx) = Some e) :
  (int64 (Reward.points (snd existing) + e) = true ->
   exists l1 l2 t db',
     create_transaction tx db = (Return (ObjectId.str (next_id db)), db') /\
     reward_coll db = l1 ++ existing :: l2 /\
     reward_coll db' =
       l1 ++ (fst existing,
              {| Reward.email := Reward.email (snd existing);
                 Reward.points := (Reward.points (snd existing) + e)%Z;
                 Reward.tier := t |}) :: l2 /\
     claimed_tier (Reward.points (snd existing) + e) t /\
     customer_points (Transaction.customer_email tx) db'
     = Some (Reward.points (snd existing) + e)%Z) /\
  (int64 (Reward.points (snd existing) + e) = false ->
   exists db',
     create_transaction tx db = (Raise EncodingError, db') /\
     reward_coll db' = reward_coll db /\
     transaction_coll db' = transaction_coll db ++ [(next_id db, tx)]).
Proof.
  set (total := (Reward.points (snd existing) + e)%Z).
  split; intros Hfits.
  - destruct (reward_update_found db _ existing
                (Reward.set_points_tier total (tier_for total)) Hids Hfound)
      as (l1 & l2 & E & Hl1 & Hex & Hupd).
    exists l1, l2, (tier_for total). eexists.
    split.
    { rewrite create_transaction_unfold. cbv zeta. rewrite Hearned, Hfound.
      fold total. rewrite Hfits, Hupd. reflexivity. }
    cbn [snd reward_coll set_coll bump_id].
    split; [exact E|]. split; [reflexivity|].
    split; [apply claimed_tier_tier_for|].
    unfold customer_points. cbn [reward_coll set_coll bump_id].
    rewrite find_one_app_first; [reflexivity | exact Hl1 | exact Hex].
  - eexists. split.
    { rewrite create_transaction_unfold. cbv zeta. rewrite Hearned, Hfound.
      fold total. rewrite Hfits. reflexivity. }
    split; reflexivity.
Qed.

(** 150 points and a transaction of 600: 210 points. *)
Lemma create_transaction_existing_reward_witness :
  exists l1 l2 t db',
    create_transaction (sample_transaction 600) sample_db =
      (Return "000000000000000000000004", db') /\
    reward_coll sample_db =
      l1 ++ (3%N, {| Reward.email := "ann@mail.io"; Reward.points := 150%Z;
                     Reward.tier := Gold |}) :: l2 /\
    reward_coll db' =
      l1 ++ (3%N, {| Reward.email := "ann@mail.io"; Reward.points := 210%Z;
                     Reward.tier := t |}) :: l2 /\
    claimed_tier 210 t /\
    customer_points "ann@mail.io" db' = Some 210%Z.
Proof.
  apply (create_transaction_existing_reward (sample_transaction 600) sample_db
           (3%N, {| Reward.email := "ann@mail.io"; Reward.points := 150%Z;
                    Reward.tier := Gold |}) 60%Z).
  - cbn. repeat constructor. intros [].
  - reflexivity.
  - vm_compute. reflexivity.
  - reflexivity.
Defined.

(** The same request, evaluated: the record now holds 210 points at
    Platinum. *)
Example second_transaction_platinum :
  reward_coll (snd (create_transaction (sample_transaction 600) sample_db)) =
  [(3%N, {| Reward.email := "ann@mail.io"; Reward.points := 210%Z;
            Reward.tier := Platinum |})].
Proof. vm_compute. reflexivity. Qed.

(** C2 as stated fails: a transaction of [1e20] earns [10^19] points, which
    with the 150 points of the record do not fit 8 bytes; the handler
    raises, the transaction is stored, and the record still holds 150
    points. *)
Lemma create_transaction_existing_reward_overflow :
  earned_points (Transaction.amount (sample_transaction (10 ^ 20)))
    = Some (10 ^ 19)%Z /\
  fst (create_transaction (sample_transaction (10 ^ 20)) sample_db)
    = Raise EncodingError /\
  customer_points "ann@mail.io"
    (snd (create_transaction (sample_transaction (10 ^ 20)) sample_db))
    = Some 150%Z /\
  transaction_coll
    (snd (create_transaction (sample_transaction (10 ^ 20)) sample_db))
    = [(4%N, sample_transaction (10 ^ 20))].
Proof. vm_compute. repeat split; reflexivity. Qed.

(** C3, as amended.  When the customer has no reward record, a transaction
    that earns [e] points appends one: the customer's email, [e] points,
    tier Bronze, whatever [e] is, provided [e] fits the 8-byte integers of
    the store.  When [e] does not fit, the write raises: the transaction is
    stored and no reward record is created. *)
Theorem create_transaction_first_reward
  (tx : Transaction.t) (db : DB) (e : Z)
  (Hnone : find_one (by_email (Transaction.customer_email tx)) (reward_coll db)
           = None)
  (Hearned : earned_points (Transaction.amount tx) = Some e) :
  (int64 e = true ->
   exists db',
     create_transaction tx db = (Return (ObjectId.str (next_id db)), db') /\
     reward_coll db' =
       reward_coll db ++
       [(N.succ (next_id db),
         {| Reward.email := Transaction.customer_email tx;
            Reward.points := e;
            Reward.tier := Bronze |})]) /\
  (int64 e = false ->
   exists db',
     create_transaction tx db = (Raise EncodingError, db') /\
     reward_coll db' = reward_coll db /\
     transaction_coll db' = transaction_coll db ++ [(next_id db, tx)]).
Proof.
  split; intros Hfits; eexists.
  - split.
    + rewrite create_transaction_unfold. cbv zeta.
      rewrite Hearned, Hnone, Hfits. reflexivity.
    + reflexivity.
  - split.
    + rewrite create_transaction_unfold. cbv zeta.
      rewrite Hearned, Hnone, Hfits. reflexivity.
    + split; reflexivity.
Qed.

(** A first transaction of 1000: 100 points, Bronze. *)
Lemma create_transaction_first_reward_witness :
  exists db',
    create_transaction (sample_transaction 1000) fresh_db =
      (Return "000000000000000000000004", db') /\
    reward_coll db' =
      [(5%N, {| Reward.email := "ann@mail.io"; Reward.points := 100%Z;
                Reward.tier := Bronze |})].
Proof.
  apply (create_transaction_first_reward (sample_transaction 1000) fresh_db 100%Z).
  - reflexivity.
  - vm_compute. reflexivity.
  - reflexivity.
Defined.

(** C3 as stated fails: a first transaction of [1e20] earns [10^19] points,
    which do not fit 8 bytes; the handler raises, the transaction is stored,
    and no reward record is created. *)
Lemma create_transaction_first_reward_overflow :
  find_one (by_email "ann@mail.io") (reward_coll fresh_db) = None /\
  earned_points (Transaction.amount (sample_transaction (10 ^ 20)))
    = Some (10 ^ 19)%Z /\
  fst (create_transaction (sample_transaction (10 ^ 20)) fresh_db)
    = Raise EncodingError /\
  reward_coll (snd (create_transaction (sample_transaction (10 ^ 20)) fresh_db))
    = [] /\
  transaction_coll
    (snd (create_transaction (sample_transaction (10 ^ 20)) fresh_db))
    = [(4%N, sample_transaction (10 ^ 20))].
Proof. vm_compute. repeat split; reflexivity. Qed.

(** C9.  Over any run of transaction requests, whatever their amounts, every
    reward record keeps at least the points it had: looked up by identifier
    or by customer email, the record is still there and its points have not
    gone down.  The run starts from a store whose reward identifiers are in
    order, as they are in every store the handlers build
    ([reachable_reward_ids_ok]). *)
Theorem reward_points_never_decrease (txs : list Transaction.t) (db : DB)
  (Hok : reward_ids_ok db) :
  (forall i p, reward_points i db = Some p ->
     exists p', reward_points i (create_transactions txs db) = Some p'
                /\ (p <= p')%Z) /\
  (forall e p, customer_points e db = Some p ->
     exists p', customer_points e (create_transactions txs db) = Some p'
                /\ (p <= p')%Z).
Proof.
  split.
  - intros i p. unfold reward_points.
    destruct (find_one (by_id i) (reward_coll db)) as [d|] eqn:Hf;
      [|discriminate].
    cbn [option_map]. intros H. injection H as <-.
    destruct (create_transactions_grow txs db (by_id i) d
                (by_id_respects i) Hok Hf) as (d' & -> & _ & Hle).
    now exists (Reward.points (snd d')).
  - intros e p. unfold customer_points.
    destruct (find_one (by_email e) (reward_coll db)) as [d|] eqn:Hf;
      [|discriminate].
    cbn [option_map]. intros H. injection H as <-.
    destruct (create_transactions_grow txs db (by_email e) d
                (by_email_respects e) Hok Hf) as (d' & -> & _ & Hle).
    now exists (Reward.points (snd d')).
Qed.

Lemma sample_db_ids_ok : reward_ids_ok sample_db.
Proof.
  split; cbn.
  - repeat constructor. intros [].
  - repeat constructor.
Qed.

(** Three requests, one of them with a negative amount: 150 points before,
    at least 150 after. *)
Lemma reward_points_never_decrease_witness :
  exists p',
    customer_points "ann@mail.io"
      (create_transactions
         [sample_transaction 600; sample_transaction (-5);
          sample_transaction 1000] sample_db) = Some p'
    /\ (150 <= p')%Z.
Proof.
  apply (proj2 (reward_points_never_decrease
                  [sample_transaction 600; sample_transaction (-5);
                   sample_transaction 1000] sample_db sample_db_ids_ok)
           "ann@mail.io" 150%Z).
  reflexivity.
Defined.

(** ** Earned points *)

Section EarnedPoints.

Local Open Scope Z_scope.

Lemma earned_points_small n :
  Z.abs n < 2 ^ 53 * one -> earned_points (Finite n) = Some (claimed_points n).
Proof.
  intros Hn. pose proof PyFloatFacts.one_pos as H1.
  unfold earned_points, claimed_points.
  rewrite PyFloatFacts.float_floor_div_small by assumption.
  rewrite PyFloatFacts.Qfloor_value_div10.
  set (k := n / (10 * one)).
  unfold max_1, fgt, of_int. cbn [flt].
  destruct (Z.ltb_spec (1 * one) (k * one)) as [Hgt | Hle]; cbn [to_int].
  - rewrite Z.quot_mul by lia. f_equal. nia.
  - f_equal. nia.
Qed.

Lemma earned_points_total x :
  is_binary64 x = true -> exists p, earned_points x = Some p.
Proof.
  intros Hx. destruct x as [n | s |].
  - destruct (PyFloatFacts.float_floor_div_finite n Hx) as [c Hc].
    unfold earned_points. rewrite Hc. unfold max_1.
    destruct (fgt (Finite c) (of_int 1)); cbn [to_int]; eauto.
  - exists 1. destruct s; vm_compute; reflexivity.
  - exists 1. vm_compute. reflexivity.
Qed.

End EarnedPoints.

(** C1, as amended.  For every amount the transaction earns at least one
    point, zero, negative, infinite and NaN amounts included; and for every
    amount of magnitude below [2^53] the points are exactly
    [max(1, floor(amount / 10))]. *)
Theorem earned_points_spec (amount : pyfloat)
  (Hfloat : is_binary64 amount = true) :
  exists p,
    earned_points amount = Some p /\
    (1 <= p)%Z /\
    (forall n, amount = Finite n -> (Z.abs n < 2 ^ 53 * one)%Z ->
               p = claimed_points n).
Proof.
  destruct (earned_points_total amount Hfloat) as [p Hp].
  exists p. split; [exact Hp|]. split.
  - exact (earned_points_at_least_1 amount p Hp).
  - intros n -> Hn. rewrite (earned_points_small n Hn) in Hp. congruence.
Qed.

(** An amount of 95 earns 9 points. *)
Lemma earned_points_spec_witness :
  exists p,
    earned_points (of_int 95) = Some p /\
    (1 <= p)%Z /\
    (forall n, of_int 95 = Finite n -> (Z.abs n < 2 ^ 53 * one)%Z ->
               p = claimed_points n).
Proof.
  apply (earned_points_spec (of_int 95)).
  vm_compute. reflexivity.
Defined.

Example earned_points_95 : earned_points (of_int 95) = Some 9%Z.
Proof. vm_compute. reflexivity. Qed.

Example earned_points_5 : earned_points (of_int 5) = Some 1%Z.
Proof. vm_compute. reflexivity. Qed.

Example earned_points_0 : earned_points (of_int 0) = Some 1%Z.
Proof. vm_compute. reflexivity. Qed.

Example earned_points_negative : earned_points (of_int (-250)) = Some 1%Z.
Proof. vm_compute. reflexivity. Qed.

Example earned_points_infinite : earned_points (Inf false) = Some 1%Z.
Proof. vm_compute. reflexivity. Qed.

Example earned_points_nan : earned_points NaN = Some 1%Z.
Proof. vm_compute. reflexivity. Qed.

(** 95.5 earns 9 points; the largest double below 20 earns 1. *)
Example earned_points_95_5 : earned_points (Finite (191 * half)) = Some 9%Z.
Proof. vm_compute. reflexivity. Qed.

Example earned_points_below_20 :
  is_binary64 (Finite (20 * one - 2 ^ 1026)) = true /\
  earned_points (Finite (20 * one - 2 ^ 1026)) = Some 1%Z.
Proof. vm_compute. split; reflexivity. Qed.

(** C1 as stated fails on large amounts.  The amount [4 * 10^16 + 24] is a
    binary64 value (a multiple of 8 between [2^55] and [2^56]).  The floor
    division goes: [fmod] gives 4; [amount - 4] ends in ...020, which is not
    a multiple of 8 and rounds (tie, to even) to ...016; divided by 10 that
    is 4000000000000001.6, which rounds to 4000000000000001.5; its floor is
    4000000000000001.  The exact [floor(amount / 10)] is 4000000000000002. *)
Lemma earned_points_differs_above_2p53 :
  is_binary64 (of_int 40000000000000024) = true /\
  earned_points (of_int 40000000000000024) = Some 4000000000000001%Z /\
  claimed_points (40000000000000024 * one) = 4000000000000002%Z.
Proof. vm_compute. repeat split; reflexivity. Qed.

(** The two rounded steps of that computation agree with the Standard
    Library's IEEE 754 operations: the subtraction [amount - 4] and the
    division of its result by 10. *)
Example large_amount_steps_ieee754 :
  let amount := of_int 40000000000000024 in
  let diff := fsub amount (of_int 4) in
  to_spec diff = SFsub 53 1024 (to_spec amount) (to_spec (of_int 4)) /\
  diff = of_int 40000000000000016 /\
  to_spec (fdiv_pos diff (10 * one)) =
    SFdiv 53 1024 (to_spec diff) (to_spec (of_int 10)) /\
  fdiv_pos diff (10 * one) = Finite (8000000000000003 * half).
Proof. vm_compute. repeat split; reflexivity. Qed.

(** ** Listing search *)

Module TextFacts.

Import Text.
Local Open Scope string_scope.

Lemma dot_is_metachar c : Ascii.eqb c "."%char = true -> is_metachar c = true.
Proof. intros H. apply Ascii.eqb_eq in H. now subst c. Qed.

Lemma regex_compile_literal s :
  literal s = true -> regex_compile s = Some (lits s).
Proof.
  unfold literal, lits.
  induction s as [|c s IH];
    cbn [forallb list_ascii_of_string map regex_compile]; [reflexivity|].
  intros H. apply andb_true_iff in H as [Hc Hs].
  rewrite (IH Hs). apply negb_true_iff in Hc.
  destruct (Ascii.eqb c ".") eqn:Hdot.
  - apply dot_is_metachar in Hdot. congruence.
  - now rewrite Hc.
Qed.

Lemma match_here_lits needle : forall s,
  match_here (lits needle) s = true <->
  exists post, lower s = lower needle ++ post.
Proof.
  unfold lits. induction needle as [|c needle IH]; intros s; cbn.
  - split; [intros _; now exists (lower s) | reflexivity].
  - destruct s as [|d s]; cbn.
    + split; [discriminate | intros [post [=]]].
    + rewrite andb_true_iff, IH. split.
      * intros [Hc [post Hpost]]. apply Ascii.eqb_eq in Hc.
        exists post. now rewrite Hc, Hpost.
      * intros [post [= Hc Hpost]]. split; [|now exists post].
        apply Ascii.eqb_eq. congruence.
Qed.

(** For a text without wildcard, the search is the containment of the
    specification. *)
Lemma regex_search_lits needle : forall s,
  regex_search (lits needle) s = true <-> substring_ci needle s.
Proof.
  unfold substring_ci. induction s as [|d s IH]; cbn [regex_search lower].
  - rewrite orb_false_r, match_here_lits. cbn. split.
    + intros [post H]. now exists "", post.
    + intros (pre & post & H). destruct pre; [now exists post | discriminate].
  - rewrite orb_true_iff, match_here_lits, IH. cbn [lower]. split.
    + intros [[post H] | (pre & post & H)].
      * now exists "", post.
      * exists (String (to_lower d) pre), post. cbn. now rewrite H.
    + intros (pre & post & H). destruct pre as [|a pre]; cbn in H.
      * left. now exists post.
      * right. injection H as _ H. now exists pre, post.
Qed.

Lemma truthy_nonempty s : truthy s = true <-> s <> "".
Proof. destruct s; cbn; split; congruence. Qed.

End TextFacts.

Section Search.

Variable p : car_query.
Variable car : Car.t.
Hypothesis Hq : Text.literal (or_empty (q p)) = true.
Hypothesis Hloc : Text.literal (or_empty (q_location p)) = true.

Lemma regex_cond_holds (field : Car.t -> string) (s : string) :
  Text.literal s = true ->
  (cond_holds Text.regex_i (Regex field s) car = true <->
   Text.substring_ci s (field car)).
Proof.
  intros Hs. cbn [cond_holds]. unfold Text.regex_i.
  rewrite (TextFacts.regex_compile_literal s Hs).
  apply TextFacts.regex_search_lits.
Qed.

Lemma regex_cond_valid (field : Car.t -> string) (s : string) :
  Text.literal s = true -> cond_valid Text.regex_i (Regex field s) = true.
Proof.
  intros Hs. cbn [cond_valid]. unfold Text.regex_i.
  now rewrite (TextFacts.regex_compile_literal s Hs).
Qed.

(** A clause that is present exactly when a text parameter is supplied. *)
Lemma optional_clause (regex : regex_engine) (o : option string) (cl : clause)
  (P : string -> Prop) :
  (forall s, o = Some s -> s <> "" ->
     (clause_holds regex cl car = true <-> P s)) ->
  (forallb (fun cl => clause_holds regex cl car)
     (if Text.supplied o then [cl] else []) = true <->
   (forall s, o = Some s -> s <> "" -> P s)).
Proof.
  intros H. destruct o as [s|]; cbn.
  - destruct s as [|c s]; cbn.
    + split; [intros _ s [= <-] Hne; now elim Hne | reflexivity].
    + rewrite andb_true_r. rewrite (H (String c s) eq_refl) by discriminate.
      split; [intros HP s' [= <-] _; exact HP | intros HP; now apply HP].
  - split; [intros _ s [=] | reflexivity].
Qed.

Lemma text_clause :
  forallb (fun cl => clause_holds Text.regex_i cl car)
    (if Text.supplied (q p) then
       [Or_ [Regex Car.title (or_empty (q p));
             Regex Car.brand (or_empty (q p));
             Regex Car.model (or_empty (q p))]]
     else []) = true <->
  (forall s, q p = Some s -> s <> "" -> text_matches s car).
Proof.
  apply optional_clause. intros s Hs _. rewrite Hs in Hq |- *. cbn [or_empty] in *.
  unfold text_matches. cbn [clause_holds existsb].
  rewrite !orb_true_iff, !regex_cond_holds by assumption.
  intuition discriminate.
Qed.

Lemma location_clause :
  forallb (fun cl => clause_holds Text.regex_i cl car)
    (if Text.supplied (q_location p) then
       [Field (Regex Car.location (or_empty (q_location p)))]
     else []) = true <->
  (forall s, q_location p = Some s -> s <> "" ->
             Text.substring_ci s (Car.location car)).
Proof.
  apply optional_clause. intros s Hs _. rewrite Hs in Hloc |- *.
  cbn [or_empty] in *. cbn [clause_holds].
  now apply regex_cond_holds.
Qed.

Lemma car_type_clause (regex : regex_engine) :
  forallb (fun cl => clause_holds regex cl car)
    (if Text.supplied (q_car_type p) then
       [Field (Eq_str Car.car_type (or_empty (q_car_type p)))]
     else []) = true <->
  (forall s, q_car_type p = Some s -> s <> "" -> Car.car_type car = s).
Proof.
  apply optional_clause. intros s Hs _. rewrite Hs. cbn [or_empty].
  cbn. apply String.eqb_eq.
Qed.

Lemma price_clause (regex : regex_engine) :
  forallb (fun cl => clause_holds regex cl car)
    (if is_some (min_price p) || is_some (max_price p) then
       let key := if mode_is (mode p) "sale" then Car.sale_price
                  else Car.price_per_day in
       [Field (Range key (min_price p) (max_price p))]
     else []) = true <->
  (forall lo, min_price p = Some lo ->
     exists v, price_field (mode p) car = Some v /\ (lo <= v)%Q) /\
  (forall hi, max_price p = Some hi ->
     exists v, price_field (mode p) car = Some v /\ (v <= hi)%Q).
Proof.
  assert (Hkey : (if mode_is (mode p) "sale" then Car.sale_price
                  else Car.price_per_day) car = price_field (mode p) car).
  { unfold price_field. now destruct (mode_is (mode p) "sale"). }
  destruct (is_some (min_price p) || is_some (max_price p)) eqn:Hpres.
  - cbv zeta. cbn [forallb]. rewrite andb_true_r.
    cbn [clause_holds cond_holds]. rewrite Hkey.
    destruct (price_field (mode p) car) as [v|].
    + rewrite andb_true_iff. unfold bound_holds. split.
      * intros [H1 H2]. split; intros b Hb; rewrite Hb in *; exists v;
          (split; [reflexivity | now apply Qle_bool_iff]).
      * intros [H1 H2]. split.
        -- destruct (min_price p) as [lo|]; [|reflexivity].
           destruct (H1 lo eq_refl) as (v0 & Hv & Hle).
           injection Hv as <-. now apply Qle_bool_iff.
        -- destruct (max_price p) as [hi|]; [|reflexivity].
           destruct (H2 hi eq_refl) as (v0 & Hv & Hle).
           injection Hv as <-. now apply Qle_bool_iff.
    + split; [discriminate|]. intros [H1 H2].
      destruct (min_price p) as [lo|].
      * destruct (H1 lo eq_refl) as (v0 & Hv & _). discriminate.
      * destruct (max_price p) as [hi|]; [|discriminate].
        destruct (H2 hi eq_refl) as (v0 & Hv & _). discriminate.
  - destruct (min_price p), (max_price p); try discriminate.
    split; [|reflexivity]. intros _. split; intros ? [=].
Qed.

Lemma mode_is_iff (o : option string) (m : string) :
  mode_is o m = true <-> o = Some m.
Proof.
  destruct o as [s|]; cbn; [|split; discriminate].
  rewrite String.eqb_eq. split; congruence.
Qed.

Lemma flag_clause (regex : regex_engine) (m : string)
  (field : Car.t -> bool) :
  forallb (fun cl => clause_holds regex cl car)
    (if mode_is (mode p) m then [Field (Is_true field)] else [])
  = true <->
  (mode p = Some m -> field car = true).
Proof.
  pose proof (mode_is_iff (mode p) m) as Hm.
  destruct (mode_is (mode p) m); cbn.
  - rewrite andb_true_r. split; [auto | intros H; now apply H, Hm].
  - split; [|reflexivity]. intros _ H. apply Hm in H. discriminate.
Qed.

(** The filter of [list_cars] holds of a car exactly when the car meets the
    criteria of the specification. *)
Lemma car_filter_criteria :
  forallb (fun cl => clause_holds Text.regex_i cl car) (car_filter p) = true
  <-> criteria p car.
Proof.
  unfold car_filter, criteria. rewrite !forallb_app, !andb_true_iff.
  rewrite text_clause, location_clause, car_type_clause, price_clause,
    (flag_clause Text.regex_i "sale" Car.for_sale),
    (flag_clause Text.regex_i "rent" Car.for_rent).
  tauto.
Qed.

Lemma car_filter_valid :
  forallb (clause_valid Text.regex_i) (car_filter p) = true.
Proof.
  unfold car_filter. rewrite !forallb_app.
  repeat (apply andb_true_iff; split);
    repeat match goal with
           | |- context [if ?b then _ else _] => destruct b
           end;
    cbn [forallb clause_valid andb orb]; try reflexivity;
    rewrite ?regex_cond_valid by assumption; reflexivity.
Qed.

End Search.



Example list_cars_tesla :
  list_cars (Some sample_db) (text_query "tesla") =
  Some [("000000000000000000000001", sample_car)].
Proof. vm_compute. reflexivity. Qed.


(** ** Identifiers in requests and responses *)

Lemma str_length i : String.length (ObjectId.str i) = (2 * ObjectId.size i)%nat.
Proof.
  unfold ObjectId.str. rewrite ObjectIdFacts.hex_digits_length.
  cbn [String.length]. lia.
Qed.

(** X1.  [ObjectIdStr.validate] takes the strings that bson takes, and writes
    the identifier in lower-case digits, two for each byte.  For a string of
    24 hexadecimal digits the result has 24 characters, denotes the
    identifier that the input denotes, and is returned unchanged when
    validated again.  For a string that is taken although it holds
    whitespace, the result has fewer than 24 characters and is itself
    refused: validation is not idempotent there. *)
Theorem ObjectIdStr_validate_outcomes (v s : string)
  (Hvalid : ObjectIdStr_validate v = Some s) :
  (ObjectId.blanks v = 0%nat ->
   String.length s = 24%nat /\
   ObjectId.parse s = ObjectId.parse v /\
   ObjectIdStr_validate s = Some s) /\
  (ObjectId.blanks v <> 0%nat ->
   (String.length s < 24)%nat /\ ObjectIdStr_validate s = None).
Proof.
  unfold ObjectIdStr_validate in *.
  destruct (ObjectId.parse v) as [i|] eqn:Hp; [|discriminate].
  cbn [option_map] in Hvalid. injection Hvalid as <-.
  destruct (ObjectIdFacts.parse_size v i Hp) as [Hfull Hshort].
  split; intros Hb.
  - specialize (Hfull Hb).
    rewrite (ObjectIdFacts.parse_str i Hfull). cbn [option_map].
    split; [|split; reflexivity].
    rewrite str_length. unfold ObjectId.size.
    destruct (N.ltb_spec i (2 ^ 96)); [reflexivity | lia].
  - destruct (Hshort Hb) as [_ Hsize].
    rewrite (ObjectIdFacts.parse_str_short i Hsize). cbn [option_map].
    split; [|reflexivity]. rewrite str_length. lia.
Qed.

(** Eight bytes between blanks are taken, and come back as 16 digits, which
    are refused. *)
Lemma ObjectIdStr_validate_outcomes_witness :
  (String.length "0000000000000000" < 24)%nat /\
  ObjectIdStr_validate "0000000000000000" = None.
Proof.
  apply (ObjectIdStr_validate_outcomes "00 00 00 00 00 00 00 00 "
           "0000000000000000" eq_refl).
  vm_compute. discriminate.
Defined.

(** An identifier written in capitals is returned in lower case. *)
Example ObjectIdStr_validate_capitals :
  ObjectIdStr_validate "0000000000000000000000AB" =
  Some "0000000000000000000000ab".
Proof. reflexivity. Qed.

(** *** Identifiers of the store *)

Section CollOk.

Context {D : Type}.
Implicit Types (c : collection D) (n : ObjectId.t).

Lemma coll_ok_mono c n n' : (n <= n')%N -> coll_ok c n -> coll_ok c n'.
Proof.
  intros Hn [Hnd Hlt]. split; [assumption|].
  eapply Forall_impl; [|exact Hlt]. cbn. intros; lia.
Qed.

Lemma coll_ok_append c n d : coll_ok c n -> coll_ok (c ++ [(n, d)]) (N.succ n).
Proof.
  intros [Hnd Hlt]. unfold coll_ok. rewrite map_app. cbn [map fst]. split.
  - apply NoDup_app; [assumption | repeat constructor; intros [] |].
    intros i Hi [<- | []]. rewrite Forall_forall in Hlt.
    specialize (Hlt _ Hi). lia.
  - apply Forall_app. split.
    + eapply Forall_impl; [|exact Hlt]. cbn. intros; lia.
    + repeat constructor. lia.
Qed.

Lemma update_one_ids flt upd c :
  map fst (snd (update_one flt upd c)) = map fst c.
Proof.
  induction c as [|d c IH]; cbn [update_one]; [reflexivity|].
  destruct (flt d); [reflexivity|].
  destruct (update_one flt upd c) as [k c'] eqn:E. cbn in *. now rewrite IH.
Qed.

Lemma coll_ok_ids c c' n : map fst c' = map fst c -> coll_ok c n -> coll_ok c' n.
Proof. unfold coll_ok. now intros ->. Qed.

(** A new document is found under its identifier, and the documents found
    before are found as before. *)
Lemma find_one_new c n d :
  coll_ok c n -> find_one (by_id n) (c ++ [(n, d)]) = Some (n, d).
Proof.
  intros [_ Hlt]. apply find_one_app_first.
  - intros x Hx. unfold by_id. apply N.eqb_neq.
    rewrite Forall_forall in Hlt.
    specialize (Hlt (fst x) (in_map fst c x Hx)). lia.
  - unfold by_id. apply N.eqb_refl.
Qed.

Lemma find_one_kept flt c added x :
  find_one flt c = Some x -> find_one flt (c ++ added) = Some x.
Proof.
  intros H. destruct (find_one_split _ _ _ H) as (l1 & l2 & -> & Hx & Hl1).
  rewrite <- app_assoc. cbn [app]. now apply find_one_app_first.
Qed.

End CollOk.

Lemma ids_ok_kept db db' :
  car_coll db' = car_coll db -> order_coll db' = order_coll db ->
  transaction_coll db' = transaction_coll db ->
  notification_coll db' = notification_coll db ->
  reward_coll db' = reward_coll db ->
  (next_id db <= next_id db')%N ->
  ids_ok db -> ids_ok db'.
Proof.
  intros E1 E2 E3 E4 E5 Hn (H1 & H2 & H3 & H4 & H5).
  unfold ids_ok. rewrite E1, E2, E3, E4, E5.
  repeat split; (eapply coll_ok_mono; [exact Hn|]); (apply H1 || apply H2
    || apply H3 || apply H4 || apply H5).
Qed.

Lemma create_document_ids_ok {D : Type} (n : Coll.name D) (data : D) db :
  ids_ok db -> ids_ok (snd (create_document n data db)).
Proof.
  intros (H1 & H2 & H3 & H4 & H5). unfold create_document. cbn [snd].
  assert (Hs : (next_id db <= N.succ (next_id db))%N) by lia.
  destruct n; cbn [get_coll set_coll bump_id]; unfold ids_ok;
    cbn [car_coll order_coll transaction_coll notification_coll reward_coll
         next_id];
    (split; [|split; [|split; [|split]]]);
    first [ apply coll_ok_append; assumption
          | apply (coll_ok_mono _ _ _ Hs); assumption ].
Qed.

Lemma handle_ids_ok r db : ids_ok db -> ids_ok (handle r db).
Proof.
  intros Hok. destruct r as [car | order | order_id status | tx]; cbn [handle].
  - unfold create_car. destruct (negb _); cbn [snd]; [assumption|].
    pose proof (create_document_ids_ok Coll.car car db Hok) as H.
    now destruct (create_document Coll.car car db).
  - destruct (ObjectId.parse (Order.car_id order)) as [oid|] eqn:Hp.
    + destruct (find_one (by_id oid) (car_coll db)) as [car|] eqn:Hf.
      * rewrite (create_order_car_found order db oid car Hp Hf). cbn [snd].
        apply (create_document_ids_ok Coll.notification
                 (order_notification order)
                 (snd (create_document Coll.order order db))).
        now apply create_document_ids_ok.
      * now rewrite (create_order_no_car order db oid Hp Hf).
    + now rewrite (create_order_invalid_id order db Hp).
  - destruct (ObjectId.parse order_id) as [oid|] eqn:Hp.
    + destruct (find_one (by_id oid) (order_coll db)) as [d|] eqn:Hf.
      * destruct (update_order_status_found order_id status db oid d Hp Hf)
          as (l1 & l2 & E & _ & ->).
        destruct Hok as (H1 & H2 & H3 & H4 & H5). cbn [snd].
        refine (conj H1 (conj _ (conj H3 (conj H4 H5)))).
        eapply coll_ok_ids; [|exact H2]. cbn [order_coll set_coll].
        rewrite E, !map_app. reflexivity.
      * now rewrite (update_order_status_missing order_id status db oid Hp Hf).
    + now rewrite (update_order_status_invalid_id order_id status db Hp).
  - rewrite create_transaction_unfold. cbv zeta.
    pose proof (create_document_ids_ok Coll.transaction tx db Hok) as H1.
    unfold create_document in H1. cbn [snd get_coll] in H1.
    destruct (earned_points (Transaction.amount tx)) as [pts|]; [|exact H1].
    destruct (find_one _ (reward_coll db)) as [existing|];
      (destruct (int64 _); [|exact H1]).
    + cbn [snd]. destruct H1 as (A & B & C & E & F).
      refine (conj A (conj B (conj C (conj E _)))).
      eapply coll_ok_ids; [|exact F]. cbn [reward_coll set_coll bump_id].
      apply update_one_ids.
    + cbn [snd].
      exact (create_document_ids_ok Coll.reward _ _ H1).
Qed.

(** In every store the handlers build, the identifiers of each collection
    are distinct and older than the next one. *)
Lemma reachable_ids_ok db : reachable db -> ids_ok db.
Proof.
  induction 1 as [|r db _ IH].
  - repeat split; cbn; constructor.
  - now apply handle_ids_ok.
Qed.

(** ** Cars: listing, fetching, creating *)

Lemma in_with_id {D : Type} (c : collection D) (id : string) (x : D) :
  In (id, x) (with_id c) <-> exists oid, In (oid, x) c /\ id = ObjectId.str oid.
Proof.
  unfold with_id. rewrite in_map_iff. split.
  - intros ([oid x'] & [= <- <-] & Hin). now exists oid.
  - intros (oid & Hin & ->). now exists (oid, x).
Qed.

Lemma find_one_by_id_in {D : Type} (c : collection D) (d : ObjectId.t * D) :
  NoDup (map fst c) -> In d c -> find_one (by_id (fst d)) c = Some d.
Proof.
  intros Hnd Hin. destruct (by_id_split c d Hnd Hin) as (l1 & l2 & -> & Hl1).
  apply find_one_app_first; [exact Hl1|]. unfold by_id. apply N.eqb_refl.
Qed.

Lemma get_car_stored db (d : ObjectId.t * Car.t) :
  coll_ok (car_coll db) (next_id db) -> (next_id db <= 2 ^ 96)%N ->
  In d (car_coll db) ->
  get_car (ObjectId.str (fst d)) db = Return (ObjectId.str (fst d), snd d).
Proof.
  intros [Hnd Hlt] Hn Hin. unfold get_car.
  rewrite Forall_forall in Hlt.
  pose proof (Hlt (fst d) (in_map fst _ d Hin)) as Hd.
  rewrite ObjectIdFacts.parse_str by lia.
  now rewrite (find_one_by_id_in _ d Hnd Hin).
Qed.

(** X2.  Every entry that [list_cars] returns can be fetched, whatever the
    patterns of the search and however the store reads them: [get_car] on
    the entry's [id] returns that same entry.  The identifiers of the car
    collection are distinct, older than the next one, and have 12 bytes. *)
Theorem get_car_of_listed (regex : regex_engine) (db : DB) (p : car_query)
  (cars : list (string * Car.t)) (id : string) (car : Car.t)
  (Hids : coll_ok (car_coll db) (next_id db))
  (Hbytes : (next_id db <= 2 ^ 96)%N)
  (Hlist : list_cars_with regex (Some db) p = Some cars)
  (Hin : In (id, car) cars) :
  get_car id db = Return (id, car).
Proof.
  unfold list_cars_with, find_cars in Hlist.
  destruct (forallb (clause_valid regex) (car_filter p)); [|discriminate].
  cbn [option_map] in Hlist. injection Hlist as <-.
  apply in_with_id in Hin as (oid & Hin & ->).
  unfold find in Hin. apply filter_In in Hin as [Hin _].
  exact (get_car_stored db (oid, car) Hids Hbytes Hin).
Qed.

Lemma sample_db_cars_ok : coll_ok (car_coll sample_db) (next_id sample_db).
Proof.
  split; cbn.
  - repeat constructor. intros [].
  - repeat constructor.
Qed.

Lemma get_car_of_listed_witness :
  get_car "000000000000000000000001" sample_db =
  Return ("000000000000000000000001", sample_car).
Proof.
  apply (get_car_of_listed anchored_regex sample_db (text_query "^Tes")
           [("000000000000000000000001", sample_car)]).
  - exact sample_db_cars_ok.
  - cbn. discriminate.
  - reflexivity.
  - now left.
Defined.

Lemma find_all {D : Type} (c : collection D) : find (fun _ => true) c = c.
Proof. unfold find. induction c as [|d c IH]; cbn [filter]; congruence. Qed.

Lemma list_cars_no_query db :
  list_cars (Some db) no_query = Some (with_id (car_coll db)).
Proof.
  unfold list_cars, list_cars_with, find_cars.
  change (car_filter no_query) with (@nil clause).
  cbn [forallb option_map]. now rewrite find_all.
Qed.

(** X3.  A car that [create_car] accepts can be fetched under the identifier
    [create_car] returned, is the last entry of the unfiltered listing, and
    every car that could be fetched before is fetched as before. *)
Theorem create_car_then_get_car (car : Car.t) (db db' : DB) (id : string)
  (Hids : coll_ok (car_coll db) (next_id db))
  (Hbytes : (next_id db < 2 ^ 96)%N)
  (Hcreated : create_car car db = (Return id, db')) :
  get_car id db' = Return (id, car) /\
  list_cars (Some db') no_query = Some (with_id (car_coll db) ++ [(id, car)]) /\
  (forall car_id x, get_car car_id db = Return x -> get_car car_id db' = Return x).
Proof.
  unfold create_car, create_document in Hcreated.
  destruct (negb _); [discriminate|].
  injection Hcreated as <- <-.
  cbn [get_coll set_coll bump_id].
  split; [|split].
  - unfold get_car. rewrite ObjectIdFacts.parse_str by assumption.
    cbn [car_coll bump_id]. now rewrite (find_one_new _ _ car Hids).
  - rewrite list_cars_no_query. cbn [car_coll bump_id]. unfold with_id.
    now rewrite map_app.
  - intros car_id x. unfold get_car. cbn [car_coll bump_id].
    destruct (ObjectId.parse car_id) as [oid|]; [|discriminate].
    destruct (find_one (by_id oid) (car_coll db)) as [d|] eqn:Hf;
      [|discriminate].
    now rewrite (find_one_kept _ _ _ d Hf).
Qed.

Lemma create_car_then_get_car_witness :
  get_car "000000000000000000000004" (snd (create_car sample_car sample_db)) =
    Return ("000000000000000000000004", sample_car) /\
  list_cars (Some (snd (create_car sample_car sample_db))) no_query =
    Some (with_id (car_coll sample_db) ++
          [("000000000000000000000004", sample_car)]) /\
  (forall car_id x,
     get_car car_id sample_db = Return x ->
     get_car car_id (snd (create_car sample_car sample_db)) = Return x).
Proof.
  apply (create_car_then_get_car sample_car sample_db).
  - exact sample_db_cars_ok.
  - reflexivity.
  - reflexivity.
Defined.



(** ** Orders and notifications *)

Lemma supplied_some (o : option string) :
  Text.supplied o = true <-> exists e, o = Some e /\ e <> "".
Proof.
  destruct o as [[|c s]|]; cbn; split; try discriminate; try reflexivity.
  - intros (e & [= <-] & Hne). now elim Hne.
  - intros _. now exists (String c s).
  - intros (e & [=] & _).
Qed.

(** X5.  [list_orders] returns the stored orders that pass the filter: with a
    non-empty [email], role "customer" keeps the orders of that customer and
    role "owner" those of that owner; any other role, or no email, keeps
    every order. *)
Theorem list_orders_filter (db : DB) (email role : option string)
  (id : string) (o : Order.t) :
  In (id, o) (list_orders (Some db) email role) <->
  exists oid,
    In (oid, o) (order_coll db) /\ id = ObjectId.str oid /\
    (forall e, email = Some e -> e <> "" ->
       (role = Some "customer" -> Order.customer_email o = e) /\
       (role = Some "owner" -> Order.owner_email o = e)).
Proof.
  unfold list_orders. rewrite in_with_id.
  pose proof (supplied_some email) as Hs.
  pose proof (mode_is_iff role "customer") as Hc.
  pose proof (mode_is_iff role "owner") as Ho.
  assert (Hfilter :
    forallb (fun f : Order.t -> bool => f o)
      ((if Text.supplied email && mode_is role "customer"
        then [fun o => String.eqb (Order.customer_email o) (or_empty email)]
        else []) ++
       (if Text.supplied email && mode_is role "owner"
        then [fun o => String.eqb (Order.owner_email o) (or_empty email)]
        else [])) = true <->
    (forall e, email = Some e -> e <> "" ->
       (role = Some "customer" -> Order.customer_email o = e) /\
       (role = Some "owner" -> Order.owner_email o = e))).
  { rewrite forallb_app, andb_true_iff.
    destruct (Text.supplied email).
    - destruct (proj1 Hs eq_refl) as (e & -> & Hne). cbn [andb or_empty].
      destruct (mode_is role "customer"), (mode_is role "owner");
        cbn [forallb]; rewrite ?andb_true_r, ?String.eqb_eq.
      + split.
        * intros [H1 H2] e' [= <-] _. now split.
        * intros H. destruct (H e eq_refl Hne) as [H1 H2].
          split; [apply H1, Hc | apply H2, Ho]; reflexivity.
      + split.
        * intros [H1 _] e' [= <-] _. split; [now intros _|].
          intros H. apply Ho in H. discriminate.
        * intros H. split; [|reflexivity].
          now apply (H e eq_refl Hne), Hc.
      + split.
        * intros [_ H2] e' [= <-] _. split; [|now intros _].
          intros H. apply Hc in H. discriminate.
        * intros H. split; [reflexivity|].
          now apply (H e eq_refl Hne), Ho.
      + split; [|now split]. intros _ e' [= <-] _.
        split; intros H; [apply Hc in H | apply Ho in H]; discriminate.
    - cbn [andb app forallb]. split; [|now split].
      intros _ e0 He0 Hne. enough (false = true) by discriminate.
      apply Hs. now exists e0. }
  split.
  - intros (oid & Hin & ->). unfold find in Hin.
    apply filter_In in Hin as [Hin Hf]. cbn [snd] in Hf.
    exists oid. split; [exact Hin|]. split; [reflexivity|].
    now apply Hfilter.
  - intros (oid & Hin & -> & H). exists oid. split; [|reflexivity].
    unfold find. apply filter_In. split; [exact Hin|]. cbn [snd].
    now apply Hfilter.
Qed.

(** X6.  An order that [create_order] accepts adds one notification, for the
    owner named in the order: the notifications of that address gain it at
    the end, under the identifier after the order's, and the notifications
    of every other address are what they were. *)
Theorem create_order_notifies (order : Order.t) (db db' : DB) (id : string)
  (Hcreated : create_order order db = (Return id, db')) :
  forall email,
    get_notifications (Some db') email =
    get_notifications (Some db) email ++
    (if String.eqb (Order.owner_email order) email
     then [(ObjectId.str (N.succ (next_id db)), order_notification order)]
     else []).
Proof.
  intros email.
  destruct (ObjectId.parse (Order.car_id order)) as [oid|] eqn:Hp.
  - destruct (find_one (by_id oid) (car_coll db)) as [car|] eqn:Hf.
    + rewrite (create_order_car_found order db oid car Hp Hf) in Hcreated.
      injection Hcreated as _ <-.
      unfold get_notifications, find, with_id.
      cbn [notification_coll bump_id set_coll].
      rewrite filter_app, map_app. f_equal.
      cbn [filter snd order_notification Notification.email].
      now destruct (String.eqb (Order.owner_email order) email).
    + rewrite (create_order_no_car order db oid Hp Hf) in Hcreated.
      discriminate.
  - rewrite (create_order_invalid_id order db Hp) in Hcreated. discriminate.
Qed.

(** The owner of the sample car is told of the order; the customer is not. *)
Lemma create_order_notifies_witness :
  get_notifications
    (Some (snd (create_order (sample_order "000000000000000000000001")
                  sample_db))) "owner@cars.io" =
  get_notifications (Some sample_db) "owner@cars.io" ++
  (if String.eqb
        (Order.owner_email (sample_order "000000000000000000000001"))
        "owner@cars.io"
   then [(ObjectId.str (N.succ (next_id sample_db)),
          order_notification (sample_order "000000000000000000000001"))]
   else []).
Proof.
  apply (create_order_notifies (sample_order "000000000000000000000001")
           sample_db _ "000000000000000000000004").
  reflexivity.
Defined.

Lemma update_one_by_id_new {D : Type} (c : collection D) n d upd :
  coll_ok c n ->
  update_one (by_id n) upd (c ++ [(n, d)]) = (1%N, c ++ [(n, upd d)]).
Proof.
  intros [_ Hlt]. apply (update_one_found (by_id n) upd c [] (n, d)).
  - intros x Hx. unfold by_id. apply N.eqb_neq.
    rewrite Forall_forall in Hlt.
    specialize (Hlt (fst x) (in_map fst c x Hx)). lia.
  - unfold by_id. apply N.eqb_refl.
Qed.

(** X7.  The identifier [create_order] returns is the one
    [update_order_status] takes: the update succeeds on it, the new order
    gets the given status, and the older orders and the other collections
    stay as [create_order] left them. *)
Theorem create_order_then_update_status (order : Order.t) (db db' : DB)
  (id status : string)
  (Hids : coll_ok (order_coll db) (next_id db))
  (Hbytes : (next_id db < 2 ^ 96)%N)
  (Hcreated : create_order order db = (Return id, db')) :
  update_order_status id status db' =
  (Return "ok",
   set_coll Coll.order
     (order_coll db ++ [(next_id db, Order.set_status status order)]) db').
Proof.
  destruct (ObjectId.parse (Order.car_id order)) as [oid|] eqn:Hp.
  - destruct (find_one (by_id oid) (car_coll db)) as [car|] eqn:Hf.
    + rewrite (create_order_car_found order db oid car Hp Hf) in Hcreated.
      injection Hcreated as <- <-.
      unfold update_order_status.
      rewrite ObjectIdFacts.parse_str by assumption.
      cbn [order_coll bump_id set_coll].
      now rewrite (update_one_by_id_new _ _ order _ Hids).
    + rewrite (create_order_no_car order db oid Hp Hf) in Hcreated.
      discriminate.
  - rewrite (create_order_invalid_id order db Hp) in Hcreated. discriminate.
Qed.

Lemma sample_db_orders_ok : coll_ok (order_coll sample_db) (next_id sample_db).
Proof.
  split; cbn.
  - repeat constructor. intros [].
  - repeat constructor.
Qed.

Lemma create_order_then_update_status_witness :
  update_order_status "000000000000000000000004" "accepted"
    (snd (create_order (sample_order "000000000000000000000001") sample_db)) =
  (Return "ok",
   set_coll Coll.order
     (order_coll sample_db ++
      [(next_id sample_db,
        Order.set_status "accepted" (sample_order "000000000000000000000001"))])
     (snd (create_order (sample_order "000000000000000000000001") sample_db))).
Proof.
  apply (create_order_then_update_status
           (sample_order "000000000000000000000001") sample_db).
  - exact sample_db_orders_ok.
  - reflexivity.
  - reflexivity.
Defined.

Lemma update_one_by_id_again {D : Type} (oid : ObjectId.t) (u1 u2 : D -> D)
  (c : collection D) :
  (forall x, u2 (u1 x) = u2 x) ->
  update_one (by_id oid) u2 (snd (update_one (by_id oid) u1 c)) =
  update_one (by_id oid) u2 c.
Proof.
  intros Hu. induction c as [|d c IH]; cbn [update_one snd]; [reflexivity|].
  destruct (by_id oid d) eqn:Hd.
  - cbn [snd update_one]. unfold by_id in *. cbn [fst snd]. rewrite Hd.
    now rewrite Hu.
  - destruct (update_one (by_id oid) u1 c) as [k c'] eqn:E.
    cbn [snd] in *. cbn [update_one]. rewrite Hd, IH. reflexivity.
Qed.

Lemma update_one_count {D : Type} (flt : ObjectId.t * D -> bool)
  (u1 u2 : D -> D) (c : collection D) :
  fst (update_one flt u1 c) = fst (update_one flt u2 c).
Proof.
  induction c as [|d c IH]; cbn [update_one]; [reflexivity|].
  destruct (flt d); [reflexivity|].
  destruct (update_one flt u1 c), (update_one flt u2 c). exact IH.
Qed.

(** X8.  The last status written wins: an update of an order's status after
    another update of the same order has the outcome and leaves the store
    that it would without the earlier one.  In particular, sending the same
    update twice changes nothing the second time. *)
Theorem update_order_status_last_wins (order_id s1 s2 : string) (db : DB) :
  update_order_status order_id s2 (snd (update_order_status order_id s1 db)) =
  update_order_status order_id s2 db.
Proof.
  unfold update_order_status.
  destruct (ObjectId.parse order_id) as [oid|]; [|reflexivity].
  pose proof (update_one_by_id_again oid (Order.set_status s1)
                (Order.set_status s2) (order_coll db) (fun x => eq_refl)) as H.
  destruct (update_one (by_id oid) (Order.set_status s1) (order_coll db))
    as [k1 c1] eqn:E1.
  cbn [snd] in H.
  destruct (N.eqb k1 0) eqn:Hk1; cbn [snd]; [reflexivity|].
  cbn [order_coll set_coll]. rewrite H.
  pose proof (update_one_count (by_id oid) (Order.set_status s1)
                (Order.set_status s2) (order_coll db)) as Hk.
  rewrite E1 in Hk. cbn [fst] in Hk.
  destruct (update_one (by_id oid) (Order.set_status s2) (order_coll db))
    as [k2 c2].
  cbn [fst] in Hk. subst k2. now rewrite Hk1.
Qed.

(** ** Transactions and rewards, over requests of every kind *)

Lemma find_app {D : Type} (flt : ObjectId.t * D -> bool) (c added : collection D) :
  with_id (find flt (c ++ added)) = with_id (find flt c) ++ with_id (find flt added).
Proof. unfold with_id, find. now rewrite filter_app, map_app. Qed.

Lemma find_single {D : Type} (flt : ObjectId.t * D -> bool) (d : ObjectId.t * D) :
  with_id (find flt [d]) = if flt d then [(ObjectId.str (fst d), snd d)] else [].
Proof. unfold with_id, find. cbn [filter]. now destruct (flt d). Qed.

(** X9.  When [create_transaction] returns, it returns the identifier of the
    new transaction, and [list_transactions] then shows the transaction,
    after the older ones, to its customer, to its owner and to a caller that
    names no address; a caller that names another address sees what it saw
    before.  Cars, orders and notifications are not touched. *)
Theorem create_transaction_listed (tx : Transaction.t) (db db' : DB)
  (id : string)
  (Hcreated : create_transaction tx db = (Return id, db')) :
  id = ObjectId.str (next_id db) /\
  car_coll db' = car_coll db /\ order_coll db' = order_coll db /\
  notification_coll db' = notification_coll db /\
  forall email,
    (Text.supplied email = false \/
     email = Some (Transaction.customer_email tx) \/
     email = Some (Transaction.owner_email tx) ->
     list_transactions (Some db') email =
     list_transactions (Some db) email ++ [(id, tx)]) /\
    (Text.supplied email = true ->
     email <> Some (Transaction.customer_email tx) ->
     email <> Some (Transaction.owner_email tx) ->
     list_transactions (Some db') email = list_transactions (Some db) email).
Proof.
  assert (Hlist : forall db',
    transaction_coll db' = transaction_coll db ++ [(next_id db, tx)] ->
    forall email,
      (Text.supplied email = false \/
       email = Some (Transaction.customer_email tx) \/
       email = Some (Transaction.owner_email tx) ->
       list_transactions (Some db') email =
       list_transactions (Some db) email ++ [(ObjectId.str (next_id db), tx)]) /\
      (Text.supplied email = true ->
       email <> Some (Transaction.customer_email tx) ->
       email <> Some (Transaction.owner_email tx) ->
       list_transactions (Some db') email = list_transactions (Some db) email)).
  { intros db1 E email. unfold list_transactions.
    rewrite E, find_app, find_single. cbn [fst snd].
    destruct (Text.supplied email) eqn:Hs.
    - assert (Hn : party_is (or_empty email) (next_id db, tx) = true <->
                   email = Some (Transaction.customer_email tx) \/
                   email = Some (Transaction.owner_email tx)).
      { apply supplied_some in Hs as (e & -> & _). cbn [or_empty].
        unfold party_is. cbn [snd]. rewrite orb_true_iff, !String.eqb_eq.
        split; (intros [H | H]; [left | right]; congruence). }
      destruct (party_is (or_empty email) (next_id db, tx)).
      + split; [reflexivity|]. intros _ H1 H2.
        destruct (proj1 Hn eq_refl); contradiction.
      + split.
        * intros [H | H]; [discriminate|]. apply Hn in H. discriminate.
        * intros _ _ _. apply app_nil_r.
    - split; [reflexivity | discriminate]. }
  rewrite create_transaction_unfold in Hcreated. cbv zeta in Hcreated.
  destruct (earned_points (Transaction.amount tx)) as [pts|]; [|discriminate].
  destruct (find_one _ (reward_coll db)) as [existing|];
    (destruct (int64 _); [|discriminate]);
    injection Hcreated as <- <-;
    cbn [car_coll order_coll notification_coll set_coll bump_id];
    (split; [reflexivity|]); (split; [reflexivity|]);
    (split; [reflexivity|]); (split; [reflexivity|]);
    apply Hlist; reflexivity.
Qed.

(** A refund of 5 to the sample customer. *)
Lemma create_transaction_listed_witness :
  "000000000000000000000004" = ObjectId.str (next_id sample_db) /\
  car_coll (snd (create_transaction (sample_transaction (-5)) sample_db))
    = car_coll sample_db /\
  order_coll (snd (create_transaction (sample_transaction (-5)) sample_db))
    = order_coll sample_db /\
  notification_coll
    (snd (create_transaction (sample_transaction (-5)) sample_db))
    = notification_coll sample_db /\
  forall email,
    (Text.supplied email = false \/
     email = Some (Transaction.customer_email (sample_transaction (-5))) \/
     email = Some (Transaction.owner_email (sample_transaction (-5))) ->
     list_transactions
       (Some (snd (create_transaction (sample_transaction (-5)) sample_db)))
       email =
     list_transactions (Some sample_db) email ++
     [("000000000000000000000004", sample_transaction (-5))]) /\
    (Text.supplied email = true ->
     email <> Some (Transaction.customer_email (sample_transaction (-5))) ->
     email <> Some (Transaction.owner_email (sample_transaction (-5))) ->
     list_transactions
       (Some (snd (create_transaction (sample_transaction (-5)) sample_db)))
       email =
     list_transactions (Some sample_db) email).
Proof.
  apply (create_transaction_listed (sample_transaction (-5)) sample_db).
  vm_compute. reflexivity.
Defined.

Section Tiers.

Local Open Scope Z_scope.

Lemma Tier_rank_nonneg t : 0 <= Tier_rank t.
Proof. destruct t; cbn; lia. Qed.

(** More points never give a lower tier. *)
Lemma tier_for_mono p p' :
  p <= p' -> Tier_rank (tier_for p) <= Tier_rank (tier_for p').
Proof.
  intros Hp. unfold tier_for.
  destruct (Z.leb_spec 200 p), (Z.leb_spec 200 p'),
    (Z.leb_spec 120 p), (Z.leb_spec 120 p'),
    (Z.leb_spec 60 p), (Z.leb_spec 60 p'); cbn; lia.
Qed.

Lemma improves_refl c : improves c c.
Proof.
  exists c, []. split; [now rewrite app_nil_r|].
  apply Forall2_same. intros x. repeat split; lia.
Qed.

Lemma improves_append c added : improves c (c ++ added).
Proof.
  exists c, added. split; [reflexivity|].
  apply Forall2_same. intros x. repeat split; lia.
Qed.

Lemma improves_update l1 l2 d r :
  Reward.email r = Reward.email (snd d) ->
  Reward.points (snd d) <= Reward.points r ->
  Tier_rank (Reward.tier (snd d)) <= Tier_rank (Reward.tier r) ->
  improves (l1 ++ d :: l2) (l1 ++ (fst d, r) :: l2).
Proof.
  intros He Hp Ht. exists (l1 ++ (fst d, r) :: l2), []. split.
  - now rewrite app_nil_r.
  - apply Forall2_app.
    + apply Forall2_same. intros x. repeat split; lia.
    + constructor.
      * cbn. repeat split; auto.
      * apply Forall2_same. intros x. repeat split; lia.
Qed.

Lemma find_one_improves (flt : ObjectId.t * Reward.t -> bool) c c' d :
  (forall x y, fst x = fst y -> Reward.email (snd x) = Reward.email (snd y) ->
               flt x = flt y) ->
  improves c c' ->
  find_one flt c = Some d ->
  exists d', find_one flt c' = Some d' /\
             fst d' = fst d /\
             Reward.points (snd d) <= Reward.points (snd d') /\
             Tier_rank (Reward.tier (snd d)) <= Tier_rank (Reward.tier (snd d')).
Proof.
  intros Hflt (kept & added & -> & Hrel). revert d.
  unfold find_one.
  induction Hrel as [|x y c kept (Hid & Hem & Hpt & Htr) Hrel IH];
    cbn; [discriminate|].
  intros d. rewrite (Hflt x y Hid Hem). destruct (flt y).
  - intros H. injection H as <-. exists y. repeat split; auto.
  - apply IH.
Qed.

(** One transaction keeps the reward collection in order and improves it. *)
Lemma create_transaction_rewards tx db :
  ids_ok db -> rewards_ok db ->
  rewards_ok (snd (create_transaction tx db)) /\
  improves (reward_coll db) (reward_coll (snd (create_transaction tx db))).
Proof.
  intros (_ & _ & _ & _ & Hnd & _) [Hem Hall].
  rewrite create_transaction_unfold. cbv zeta.
  destruct (earned_points (Transaction.amount tx)) as [pts|] eqn:Hpts.
  2:{ cbn [snd]. split; [split; assumption | apply improves_refl]. }
  pose proof (earned_points_at_least_1 _ _ Hpts) as Hge.
  destruct (find_one _ (reward_coll db)) as [existing|] eqn:Hf;
    (destruct (int64 _);
     [|cbn [snd]; split; [split; assumption | apply improves_refl]]).
  - destruct (reward_update_found db _ existing
                (Reward.set_points_tier (Reward.points (snd existing) + pts)
                   (tier_for (Reward.points (snd existing) + pts))) Hnd Hf)
      as (l1 & l2 & E & _ & _ & Hupd).
    rewrite Hupd. cbn [snd]. unfold rewards_ok.
    cbn [reward_coll set_coll bump_id]. rewrite E in Hem, Hall |- *.
    apply Forall_app in Hall as [Hall1 Hall2].
    inversion Hall2 as [|? ? [Hex1 Hex2] Hall3]; subst.
    split; [split|].
    + rewrite map_app in Hem |- *. exact Hem.
    + apply Forall_app. split; [assumption|]. constructor; [|assumption].
      cbn [snd Reward.set_points_tier Reward.points Reward.tier]. lia.
    + apply improves_update;
        cbn [Reward.set_points_tier Reward.email Reward.points Reward.tier];
        [reflexivity | lia |].
      etransitivity; [exact Hex2|]. apply tier_for_mono. lia.
  - cbn [snd]. unfold rewards_ok. cbn [reward_coll set_coll bump_id].
    split; [split|].
    + rewrite map_app. cbn [map snd Reward.email].
      apply NoDup_app; [assumption | repeat constructor; intros [] |].
      intros e He [<- | []]. apply in_map_iff in He as (x & Hx & Hin).
      pose proof (find_one_none _ _ Hf x Hin) as Hne.
      unfold by_email in Hne. apply String.eqb_neq in Hne. contradiction.
    + apply Forall_app. split; [assumption|]. repeat constructor.
      * cbn. lia.
      * cbn [snd Reward.tier Reward.points Tier_rank].
        apply Tier_rank_nonneg.
    + apply improves_append.
Qed.

(** The requests that are no transaction leave the rewards alone. *)
Lemma handle_other_rewards r db :
  (forall tx, r <> Create_transaction tx) ->
  reward_coll (handle r db) = reward_coll db.
Proof.
  intros Hr. destruct r as [car | order | order_id status | tx]; cbn [handle].
  - unfold create_car, create_document. now destruct (negb _).
  - destruct (ObjectId.parse (Order.car_id order)) as [oid|] eqn:Hp.
    + destruct (find_one (by_id oid) (car_coll db)) as [car|] eqn:Hf.
      * now rewrite (create_order_car_found order db oid car Hp Hf).
      * now rewrite (create_order_no_car order db oid Hp Hf).
    + now rewrite (create_order_invalid_id order db Hp).
  - destruct (ObjectId.parse order_id) as [oid|] eqn:Hp.
    + destruct (find_one (by_id oid) (order_coll db)) as [d|] eqn:Hf.
      * now destruct (update_order_status_found order_id status db oid d Hp Hf)
          as (l1 & l2 & _ & _ & ->).
      * now rewrite (update_order_status_missing order_id status db oid Hp Hf).
    + now rewrite (update_order_status_invalid_id order_id status db Hp).
  - now elim (Hr tx).
Qed.

Lemma handle_rewards r db :
  ids_ok db -> rewards_ok db ->
  rewards_ok (handle r db) /\
  improves (reward_coll db) (reward_coll (handle r db)).
Proof.
  intros Hids Hrw.
  assert (Hother : (forall tx, r <> Create_transaction tx) ->
                   rewards_ok (handle r db) /\
                   improves (reward_coll db) (reward_coll (handle r db))).
  { intros Hr. unfold rewards_ok. rewrite (handle_other_rewards r db Hr).
    split; [exact Hrw | apply improves_refl]. }
  destruct r as [car | order | order_id status | tx];
    try (apply Hother; discriminate).
  now apply create_transaction_rewards.
Qed.

Lemma handle_all_ok rs : forall db,
  ids_ok db -> rewards_ok db ->
  ids_ok (handle_all rs db) /\ rewards_ok (handle_all rs db).
Proof.
  induction rs as [|r rs IH]; intros db Hids Hrw; cbn [handle_all];
    [now split|].
  apply IH; [now apply handle_ids_ok | now apply handle_rewards].
Qed.

Lemma handle_all_grow rs :
  forall db (flt : ObjectId.t * Reward.t -> bool) d,
    (forall x y, fst x = fst y -> Reward.email (snd x) = Reward.email (snd y) ->
                 flt x = flt y) ->
    ids_ok db -> rewards_ok db ->
    find_one flt (reward_coll db) = Some d ->
    exists d', find_one flt (reward_coll (handle_all rs db)) = Some d'
               /\ fst d' = fst d
               /\ Reward.points (snd d) <= Reward.points (snd d')
               /\ Tier_rank (Reward.tier (snd d))
                  <= Tier_rank (Reward.tier (snd d')).
Proof.
  induction rs as [|r rs IH]; intros db flt d Hflt Hids Hrw Hf;
    cbn [handle_all].
  - exists d. repeat split; auto; lia.
  - destruct (handle_rewards r db Hids Hrw) as [Hrw1 Himp].
    pose proof (handle_ids_ok r db Hids) as Hids1.
    destruct (find_one_improves flt _ _ d Hflt Himp Hf)
      as (d1 & Hf1 & Hid1 & Hp1 & Ht1).
    destruct (IH _ flt d1 Hflt Hids1 Hrw1 Hf1) as (d' & Hf' & Hid' & Hp' & Ht').
    exists d'. repeat split; [assumption | congruence | lia | lia].
Qed.

End Tiers.

Lemma sample_db_ok : ids_ok sample_db /\ rewards_ok sample_db.
Proof.
  split.
  - assert (Hnil : forall D : Type, coll_ok (@nil (ObjectId.t * D)) 4%N)
      by (intros D; split; constructor).
    assert (Hone : forall (D : Type) (i : ObjectId.t) (d : D),
               (i < 4)%N -> coll_ok [(i, d)] 4%N).
    { intros D i d Hi. split; cbn.
      - constructor; [intros [] | constructor].
      - now repeat constructor. }
    unfold ids_ok. cbn.
    split; [|split; [|split; [|split]]];
      first [apply Hnil | apply Hone; reflexivity].
  - unfold rewards_ok. cbn. split.
    + constructor; [intros [] | constructor].
    + repeat constructor; discriminate.
Qed.

(** X10.  The reward collection stays in order over any run of requests: one
    record per email address, at least one point on every record, and no
    record with a tier above the tier of its points.  The run starts from a
    store that is in order, as the empty store is. *)
Theorem rewards_stay_in_order (rs : list request) (db : DB)
  (Hids : ids_ok db) (Hrewards : rewards_ok db) :
  rewards_ok (handle_all rs db).
Proof. exact (proj2 (handle_all_ok rs db Hids Hrewards)). Qed.

Lemma rewards_stay_in_order_witness :
  rewards_ok
    (handle_all [Create_transaction (sample_transaction 600);
                 Create_car sample_car;
                 Create_transaction (sample_transaction (-5))] sample_db).
Proof.
  apply (rewards_stay_in_order _ sample_db).
  - exact (proj1 sample_db_ok).
  - exact (proj2 sample_db_ok).
Defined.

(** X11.  Over any run of requests of any kind, a customer's reward record
    keeps at least the tier and the points it had: a tier is never taken
    back.  The run starts from a store that is in order. *)
Theorem reward_tier_never_decreases (rs : list request) (db : DB)
  (Hids : ids_ok db) (Hrewards : rewards_ok db) :
  (forall e t, customer_tier e db = Some t ->
     exists t', customer_tier e (handle_all rs db) = Some t' /\
                (Tier_rank t <= Tier_rank t')%Z) /\
  (forall e p, customer_points e db = Some p ->
     exists p', customer_points e (handle_all rs db) = Some p' /\
                (p <= p')%Z).
Proof.
  split.
  - intros e t. unfold customer_tier.
    destruct (find_one (by_email e) (reward_coll db)) as [d|] eqn:Hf;
      [|discriminate].
    cbn [option_map]. intros H. injection H as <-.
    destruct (handle_all_grow rs db (by_email e) d
                (by_email_respects e) Hids Hrewards Hf)
      as (d' & -> & _ & _ & Hle).
    now exists (Reward.tier (snd d')).
  - intros e p. unfold customer_points.
    destruct (find_one (by_email e) (reward_coll db)) as [d|] eqn:Hf;
      [|discriminate].
    cbn [option_map]. intros H. injection H as <-.
    destruct (handle_all_grow rs db (by_email e) d
                (by_email_respects e) Hids Hrewards Hf)
      as (d' & -> & _ & Hle & _).
    now exists (Reward.points (snd d')).
Qed.

(** A Gold customer after a refund of 5 and a new car on the market. *)
Lemma reward_tier_never_decreases_witness :
  exists t',
    customer_tier "ann@mail.io"
      (handle_all [Create_transaction (sample_transaction (-5));
                   Create_car sample_car] sample_db) = Some t' /\
    (Tier_rank Gold <= Tier_rank t')%Z.
Proof.
  apply (proj1 (reward_tier_never_decreases
                  [Create_transaction (sample_transaction (-5));
                   Create_car sample_car] sample_db
                  (proj1 sample_db_ok) (proj2 sample_db_ok))
           "ann@mail.io" Gold).
  reflexivity.
Defined.

(** ** Letter case in searches *)

Module CaseFacts.

Import Text.

Lemma to_lower_not_dot c : Ascii.eqb (to_lower c) "."%char = Ascii.eqb c "."%char.
Proof. destruct c as [[] [] [] [] [] [] [] []]; reflexivity. Qed.

Lemma to_lower_metachar c : is_metachar (to_lower c) = is_metachar c.
Proof. destruct c as [[] [] [] [] [] [] [] []]; reflexivity. Qed.

Lemma lower_truthy s s' : lower s = lower s' -> truthy s = truthy s'.
Proof. destruct s, s'; cbn; congruence. Qed.

(** Two patterns that differ in letter case only compile to patterns that
    differ in the case of their literals only. *)
Lemma regex_compile_lower s : forall s',
  lower s = lower s' ->
  match regex_compile s, regex_compile s' with
  | Some re, Some re' =>
      Forall2 (fun a a' =>
                 match a, a' with
                 | Lit c, Lit c' => to_lower c = to_lower c'
                 | AnyChar, AnyChar => True
                 | _, _ => False
                 end) re re'
  | None, None => True
  | _, _ => False
  end.
Proof.
  induction s as [|c s IH]; intros [|c' s']; cbn [lower regex_compile];
    try discriminate.
  - intros _. constructor.
  - intros H. injection H as Hc Hs. specialize (IH s' Hs).
    rewrite <- (to_lower_not_dot c), <- (to_lower_metachar c), Hc,
      to_lower_not_dot, to_lower_metachar.
    destruct (regex_compile s) as [re|], (regex_compile s') as [re'|];
      try contradiction; [|exact I].
    destruct (Ascii.eqb c' "."%char); [now constructor|].
    destruct (is_metachar c'); [exact I|]. now constructor.
Qed.

Lemma regex_search_lower re re' :
  Forall2 (fun a a' =>
             match a, a' with
             | Lit c, Lit c' => to_lower c = to_lower c'
             | AnyChar, AnyChar => True
             | _, _ => False
             end) re re' ->
  forall h, regex_search re h = regex_search re' h.
Proof.
  intros Hre.
  assert (Hhere : forall h, match_here re h = match_here re' h).
  { induction Hre as [|a a' re re' Ha _ IH]; intros h; cbn [match_here];
      [reflexivity|].
    destruct h as [|x h]; [reflexivity|]. rewrite IH. f_equal.
    destruct a as [c|], a' as [c'|]; try contradiction; cbn [atom_matches];
      [now rewrite Ha | reflexivity]. }
  induction h as [|x h IH]; cbn [regex_search]; rewrite Hhere;
    [reflexivity | now rewrite IH].
Qed.

End CaseFacts.

Lemma regex_cond_lower (field : Car.t -> string) (s s' : string) :
  Text.lower s = Text.lower s' ->
  cond_valid Text.regex_i (Regex field s) =
    cond_valid Text.regex_i (Regex field s') /\
  forall car, cond_holds Text.regex_i (Regex field s) car =
              cond_holds Text.regex_i (Regex field s') car.
Proof.
  intros H. pose proof (CaseFacts.regex_compile_lower s s' H) as Hc.
  cbn [cond_valid cond_holds]. unfold Text.regex_i.
  destruct (Text.regex_compile s) as [re|], (Text.regex_compile s') as [re'|];
    try contradiction; split; try reflexivity.
  intros car. now apply CaseFacts.regex_search_lower.
Qed.

(** X12.  For ASCII text, and patterns without a regex metacharacter other
    than the wildcard, the letter case of the text query and of the location
    does not matter: two searches that differ in the letter case of [q] and
    [location] only return the same cars. *)
Theorem list_cars_ignores_case (db : DB) (p p' : car_query)
  (Hpattern : Text.regex_compile (or_empty (q p)) <> None)
  (Hpattern_loc : Text.regex_compile (or_empty (q_location p)) <> None)
  (Hascii : ascii_query p = true) (Hascii' : ascii_query p' = true)
  (Hcars : Forall (fun d => ascii_car (snd d) = true) (car_coll db))
  (Hq : Text.lower (or_empty (q p)) = Text.lower (or_empty (q p')))
  (Hloc : Text.lower (or_empty (q_location p)) =
          Text.lower (or_empty (q_location p')))
  (Htype : q_car_type p = q_car_type p')
  (Hmin : min_price p = min_price p') (Hmax : max_price p = max_price p')
  (Hmode : mode p = mode p') :
  exists cars,
    list_cars (Some db) p = Some cars /\ list_cars (Some db) p' = Some cars.
Proof.
  assert (Hsup : forall o o', Text.lower (or_empty o) = Text.lower (or_empty o') ->
                              Text.supplied o = Text.supplied o').
  { intros [s|] [s'|] H; cbn [Text.supplied or_empty] in *;
      try reflexivity; try (now apply CaseFacts.lower_truthy);
      [destruct s | destruct s']; cbn in *; congruence. }
  destruct (regex_cond_lower Car.title _ _ Hq) as [Hv1 Hh1].
  destruct (regex_cond_lower Car.brand _ _ Hq) as [Hv2 Hh2].
  destruct (regex_cond_lower Car.model _ _ Hq) as [Hv3 Hh3].
  destruct (regex_cond_lower Car.location _ _ Hloc) as [Hv4 Hh4].
  assert (Hok : forall (field : Car.t -> string) s,
            Text.regex_compile s <> None ->
            cond_valid Text.regex_i (Regex field s) = true).
  { intros field s Hs. cbn [cond_valid]. unfold Text.regex_i.
    destruct (Text.regex_compile s); [reflexivity | contradiction]. }
  assert (Hvalid' : forallb (clause_valid Text.regex_i) (car_filter p') = true).
  { unfold car_filter. rewrite !forallb_app.
    repeat (apply andb_true_iff; split);
      repeat match goal with
             | |- context [if ?b then _ else _] => destruct b
             end;
      cbn [forallb clause_valid andb orb]; try reflexivity;
      rewrite <- ?Hv1, <- ?Hv2, <- ?Hv3, <- ?Hv4, ?Hok by assumption;
      reflexivity. }
  assert (Hvalid : forallb (clause_valid Text.regex_i) (car_filter p) =
                   forallb (clause_valid Text.regex_i) (car_filter p')).
  { unfold car_filter.
    rewrite (Hsup _ _ Hq), (Hsup _ _ Hloc), Htype, Hmin, Hmax, Hmode.
    rewrite !forallb_app. f_equal; [|f_equal].
    - destruct (Text.supplied (q p')); [|reflexivity].
      cbn [forallb clause_valid]. now rewrite Hv1, Hv2, Hv3.
    - destruct (Text.supplied (q_location p')); [|reflexivity].
      cbn [forallb clause_valid]. now rewrite Hv4. }
  assert (Hholds : forall car,
            forallb (fun cl => clause_holds Text.regex_i cl car) (car_filter p) =
            forallb (fun cl => clause_holds Text.regex_i cl car) (car_filter p')).
  { intros car. unfold car_filter.
    rewrite (Hsup _ _ Hq), (Hsup _ _ Hloc), Htype, Hmin, Hmax, Hmode.
    rewrite !forallb_app. f_equal; [|f_equal].
    - destruct (Text.supplied (q p')); [|reflexivity].
      cbn [forallb clause_holds existsb]. now rewrite Hh1, Hh2, Hh3.
    - destruct (Text.supplied (q_location p')); [|reflexivity].
      cbn [forallb clause_holds]. now rewrite Hh4. }
  unfold list_cars, list_cars_with, find_cars. rewrite Hvalid, Hvalid'.
  cbn [option_map]. eexists. split; [|reflexivity].
  do 2 f_equal. unfold find. apply filter_ext. intros d. apply Hholds.
Qed.

Lemma list_cars_ignores_case_witness :
  exists cars,
    list_cars (Some sample_db) (text_query "T.SLA") = Some cars /\
    list_cars (Some sample_db) (text_query "t.sla") = Some cars.
Proof.
  apply (list_cars_ignores_case sample_db
           (text_query "T.SLA") (text_query "t.sla"));
    try reflexivity; try discriminate.
  constructor; [reflexivity | constructor].
Defined.

(** ** Earned points outside the range of exact arithmetic *)

Module PyFloatSigns.

Local Open Scope Z_scope.

Lemma threshold_above_one : one < overflow_threshold.
Proof.
  destruct PyFloatFacts.overflow_margins
    as (b5 & b6 & b7 & _ & _ & _ & H1 & H2 & H3 & H4).
  pose proof PyFloatFacts.one_pos. lia.
Qed.

Lemma round_units_nonpos a b : 0 < b -> a <= 0 -> round_units a b <= 0.
Proof.
  intros Hb Ha. unfold round_units.
  set (e := ulp_exp (Z.abs a / b)).
  pose proof (PyFloatFacts.pow2_pos e (PyFloatFacts.ulp_exp_nonneg _)) as He.
  assert (Hr : rne_div a (b * 2 ^ e) <= 0)
    by (apply PyFloatFacts.rne_div_le; nia).
  nia.
Qed.

(** [x > 0] is false: [x] is a finite value at most zero, minus infinity or
    a NaN. *)
Lemma of_units_nonpos n : n <= 0 -> flt (Finite 0) (of_units n) = false.
Proof.
  intros Hn. unfold of_units. pose proof threshold_above_one.
  pose proof PyFloatFacts.one_pos.
  destruct (Z.leb_spec overflow_threshold (Z.abs n)); cbn [flt].
  - destruct (Z.ltb_spec n 0); [reflexivity | lia].
  - apply Z.ltb_ge. exact Hn.
Qed.

Lemma fadd_nonpos a b :
  a + b <= 0 -> flt (Finite 0) (fadd (Finite a) (Finite b)) = false.
Proof.
  intros H. cbn [fadd]. apply of_units_nonpos, round_units_nonpos; lia.
Qed.

Lemma fsub_one_nonpos x :
  flt (Finite 0) x = false -> flt (Finite 0) (fsub x (Finite one)) = false.
Proof.
  pose proof PyFloatFacts.one_pos.
  destruct x as [a | s |]; cbn [flt]; intros Hx.
  - apply Z.ltb_ge in Hx. unfold fsub. cbn [fneg]. apply fadd_nonpos. lia.
  - exact Hx.
  - reflexivity.
Qed.

Lemma fdiv_pos_nonpos x w :
  0 < w -> flt (Finite 0) x = false -> flt (Finite 0) (fdiv_pos x w) = false.
Proof.
  pose proof PyFloatFacts.one_pos.
  intros Hw. destruct x as [a | s |]; cbn [flt fdiv_pos]; intros Hx.
  - apply Z.ltb_ge in Hx. apply of_units_nonpos, round_units_nonpos; nia.
  - exact Hx.
  - reflexivity.
Qed.

Lemma adjusted_quotient_nonpos n w :
  0 < w -> n <= 0 ->
  flt (Finite 0) (adjusted_quotient (Finite n) w) = false.
Proof.
  intros Hw Hn. unfold adjusted_quotient. cbv zeta. cbn [fmod_pos].
  assert (Hq : Z.quot n w <= 0).
  { rewrite <- (Z.opp_involutive n), Z.quot_opp_l by lia.
    pose proof (Z.quot_pos (- n) w). lia. }
  pose proof (Z.quot_rem' n w) as Hrem.
  assert (Hd : flt (Finite 0)
                 (fdiv_pos (fsub (Finite n) (Finite (Z.rem n w))) w) = false).
  { apply fdiv_pos_nonpos; [assumption|]. unfold fsub. cbn [fneg].
    apply fadd_nonpos. nia. }
  destruct (nonzero _); [|exact Hd].
  destruct (negb _); [|exact Hd].
  now apply fsub_one_nonpos.
Qed.

Lemma snap_quotient_nonpos x :
  flt (Finite 0) x = false -> flt (Finite 0) (snap_quotient x) = false.
Proof.
  pose proof PyFloatFacts.one_pos as H1.
  unfold snap_quotient. cbv zeta.
  destruct x as [a | s |]; cbn [flt nonzero ffloor]; intros Hx.
  - apply Z.ltb_ge in Hx. destruct (Z.eqb_spec a 0) as [-> | Ha]; cbn [negb].
    + reflexivity.
    + assert (Hk : a / one < 0) by (apply Z.div_lt_upper_bound; lia).
      destruct (fgt _ _).
      * apply fadd_nonpos. nia.
      * cbn [flt]. apply Z.ltb_ge. nia.
  - cbn [negb]. destruct s; [|discriminate]. reflexivity.
  - reflexivity.
Qed.

Lemma max_1_nonpos x : flt (Finite 0) x = false -> max_1 x = PyInt 1.
Proof.
  pose proof PyFloatFacts.one_pos as H1.
  unfold max_1, fgt, of_int.
  destruct x as [a | s |]; cbn [flt]; intros Hx.
  - apply Z.ltb_ge in Hx. destruct (Z.ltb_spec (1 * one) a); [lia|reflexivity].
  - now rewrite Hx.
  - reflexivity.
Qed.

End PyFloatSigns.

Section PointsBelow.

Local Open Scope Z_scope.

Lemma earned_points_nonpos n : n <= 0 -> earned_points (Finite n) = Some 1.
Proof.
  intros Hn. unfold earned_points, float_floor_div.
  pose proof PyFloatFacts.one_pos as H1.
  rewrite PyFloatSigns.max_1_nonpos; [reflexivity|].
  apply PyFloatSigns.snap_quotient_nonpos,
    PyFloatSigns.adjusted_quotient_nonpos; lia.
Qed.

Lemma claimed_points_div n : claimed_points n = Z.max 1 (n / (10 * one)).
Proof. unfold claimed_points. now rewrite PyFloatFacts.Qfloor_value_div10. Qed.

Lemma earned_points_finite_below_20 n :
  n < 20 * one -> earned_points (Finite n) = Some 1.
Proof.
  intros Hn. pose proof PyFloatFacts.one_pos as H1.
  destruct (Z.le_gt_cases n 0) as [H0 | H0]; [now apply earned_points_nonpos|].
  rewrite earned_points_small, claimed_points_div.
  - f_equal.
    assert (n / (10 * one) < 2) by (apply Z.div_lt_upper_bound; lia). lia.
  - assert (20 <= 2 ^ 53) by (change (2 ^ 53) with 9007199254740992; lia).
    nia.
Qed.

End PointsBelow.

(** X13.  Every amount that is not a finite number of 20 or more earns
    exactly one point: the amounts below 20, the negative amounts of any
    magnitude, both infinities and NaN.  The conversion to [int] never fails
    on them. *)
Theorem earned_points_one_point (amount : pyfloat)
  (Hbelow : forall n, amount = Finite n -> (n < 20 * one)%Z) :
  earned_points amount = Some 1%Z.
Proof.
  destruct amount as [n | s |].
  - apply earned_points_finite_below_20. now apply Hbelow.
  - destruct s; vm_compute; reflexivity.
  - vm_compute. reflexivity.
Qed.

(** An amount of minus [2^60], where the float operations round. *)
Lemma earned_points_one_point_witness :
  earned_points (of_int (- 2 ^ 60)) = Some 1%Z.
Proof.
  apply (earned_points_one_point (of_int (- 2 ^ 60))).
  intros n H. injection H as <-. vm_compute. reflexivity.
Defined.

(** X14.  A larger amount never earns fewer points: for amounts [a <= b]
    with [b] of magnitude below [2^53], the points of [a] are at most the
    points of [b], however negative [a] is. *)
Theorem earned_points_monotone (a b : Z)
  (Hle : (a <= b)%Z) (Hb : (Z.abs b < 2 ^ 53 * one)%Z) :
  exists p q,
    earned_points (Finite a) = Some p /\ earned_points (Finite b) = Some q /\
    (p <= q)%Z.
Proof.
  pose proof PyFloatFacts.one_pos as H1.
  exists (Z.max 1 (a / (10 * one))), (Z.max 1 (b / (10 * one))).
  assert (Hdiv : (a / (10 * one) <= b / (10 * one))%Z)
    by (apply Z.div_le_mono; lia).
  split; [|split; [|lia]].
  - destruct (Z.lt_ge_cases a (20 * one)) as [Ha | Ha].
    + rewrite (earned_points_finite_below_20 a Ha). f_equal.
      assert ((a / (10 * one) < 2)%Z) by (apply Z.div_lt_upper_bound; lia).
      lia.
    + rewrite earned_points_small by lia. now rewrite claimed_points_div.
  - rewrite earned_points_small by assumption. now rewrite claimed_points_div.
Qed.

Lemma earned_points_monotone_witness :
  exists p q,
    earned_points (Finite (- 2 ^ 60 * one)) = Some p /\
    earned_points (Finite (95 * one)) = Some q /\ (p <= q)%Z.
Proof.
  apply (earned_points_monotone (- 2 ^ 60 * one) (95 * one)).
  - vm_compute. discriminate.
  - vm_compute. reflexivity.
Defined.

(** ** Accounts: onboarding and login *)

Section Accounts.

Lemma user_update_found (users : collection User.t) e existing upd :
  NoDup (map fst users) ->
  find_one (user_by_email e) users = Some existing ->
  exists l1 l2,
    users = l1 ++ existing :: l2 /\
    (forall x, In x l1 -> user_by_email e x = false) /\
    user_by_email e existing = true /\
    update_one (by_id (fst existing)) upd users =
    (1%N, l1 ++ (fst existing, upd (snd existing)) :: l2).
Proof.
  intros Hnd Hf.
  destruct (find_one_split _ _ _ Hf) as (l1 & l2 & E & He & Hl1).
  exists l1, l2. repeat split; auto.
  rewrite E. apply update_one_found.
  - intros x Hx. destruct (by_id (fst existing) x) eqn:Hid; [|reflexivity].
    assert (x = existing).
    { apply (by_id_unique users); auto; rewrite E;
        apply in_or_app; [right; now left | now left]. }
    subst x. rewrite (Hl1 _ Hx) in He. discriminate.
  - unfold by_id. apply N.eqb_refl.
Qed.

(** A lookup by another address does not see a change to one user. *)
Lemma find_one_other_email e (l1 l2 : collection User.t) d d' :
  user_by_email e d = false -> user_by_email e d' = false ->
  find_one (user_by_email e) (l1 ++ d' :: l2) =
  find_one (user_by_email e) (l1 ++ d :: l2).
Proof.
  intros Hd Hd'. unfold find_one.
  induction l1 as [|x l1 IH]; cbn [app List.find].
  - now rewrite Hd, Hd'.
  - now rewrite IH.
Qed.

Lemma find_one_other_new e (users : collection User.t) d :
  user_by_email e d = false ->
  find_one (user_by_email e) (users ++ [d]) = find_one (user_by_email e) users.
Proof.
  intros Hd. unfold find_one.
  induction users as [|x l IH]; cbn [app List.find].
  - now rewrite Hd.
  - now rewrite IH.
Qed.

Lemma onboard_outcome role user s :
  users_ok s ->
  exists i,
    find_one (user_by_email (User.email user))
      (user_coll (snd (onboard role user s))) =
      Some (i, User.set_role role user) /\
    users_ok (snd (onboard role user s)) /\
    (forall e, e <> User.email user ->
       find_one (user_by_email e) (user_coll (snd (onboard role user s))) =
       find_one (user_by_email e) (user_coll s)) /\
    match fst (onboard role user s) with
    | Updated =>
        exists old,
          find_one (user_by_email (User.email user)) (user_coll s) =
            Some (i, old) /\
          List.length (user_coll (snd (onboard role user s))) =
            List.length (user_coll s)
    | Created id =>
        id = ObjectId.str i /\
        find_one (user_by_email (User.email user)) (user_coll s) = None
    end.
Proof.
  intros [Hids Hem]. unfold onboard. cbv zeta.
  change (User.email (User.set_role role user)) with (User.email user).
  assert (Hne : forall e (d : ObjectId.t * User.t),
            e <> User.email user -> User.email (snd d) = User.email user ->
            user_by_email e d = false).
  { intros e d He Hd. unfold user_by_email. rewrite Hd.
    apply String.eqb_neq. congruence. }
  destruct (find_one (user_by_email (User.email user)) (user_coll s))
    as [existing|] eqn:Hf.
  - destruct (user_update_found (user_coll s) _ existing
                (fun _ => User.set_role role user) (proj1 Hids) Hf)
      as (l1 & l2 & E & Hl1 & He & Hupd).
    rewrite Hupd. cbn [fst snd user_coll accounts_db].
    exists (fst existing). split; [|split; [|split]].
    + apply find_one_app_first; [exact Hl1|].
      unfold user_by_email. cbn [snd]. apply String.eqb_refl.
    + unfold user_by_email in He. apply String.eqb_eq in He.
      unfold users_ok. cbn [user_coll accounts_db]. split.
      * eapply coll_ok_ids; [|exact Hids]. rewrite E, !map_app. reflexivity.
      * rewrite E, map_app in Hem. rewrite map_app. cbn [map snd] in *.
        change (User.email (User.set_role role user)) with (User.email user).
        now rewrite <- He.
    + intros e Hneq. rewrite E. apply find_one_other_email.
      * apply Hne; [exact Hneq|]. unfold user_by_email in He.
        now apply String.eqb_eq in He.
      * now apply Hne.
    + exists (snd existing). rewrite <- surjective_pairing.
      split; [reflexivity|]. rewrite E, !length_app. reflexivity.
  - unfold create_user_document. cbn [fst snd user_coll accounts_db].
    exists (next_id (accounts_db s)). split; [|split; [|split]].
    + apply (find_one_app_first _ (user_coll s) []).
      * now apply find_one_none.
      * unfold user_by_email. cbn [snd]. apply String.eqb_refl.
    + unfold users_ok. cbn [user_coll accounts_db]. split.
      * cbn [bump_id next_id]. now apply coll_ok_append.
      * rewrite map_app. cbn [map snd].
        apply NoDup_app; [assumption | repeat constructor; intros [] |].
        intros e He [<- | []]. apply in_map_iff in He as (x & Hx & Hin).
        pose proof (find_one_none _ _ Hf x Hin) as Hno.
        unfold user_by_email in Hno. apply String.eqb_neq in Hno.
        apply Hno. exact Hx.
    + intros e Hneq. apply find_one_other_new. now apply Hne.
    + split; reflexivity.
Qed.

End Accounts.

(** X15.  Onboarding registers the payload under its email address with the
    role of the endpoint, whatever role the payload names: afterwards the
    address finds the payload with that role.  A user already stored under
    the address is overwritten in place, identifier kept and no user added;
    otherwise one user is added and its identifier returned.  Users under
    other addresses are not touched, and there is still one user per
    address. *)
Theorem onboard_registers (user : User.t) (s : Accounts) (Hok : users_ok s) :
  forall (handler : User.t -> Accounts -> onboard_response * Accounts)
         (role : string),
    (handler = onboard_customer /\ role = "customer") \/
    (handler = onboard_owner /\ role = "owner") ->
    exists i,
      find_one (user_by_email (User.email user))
        (user_coll (snd (handler user s))) =
        Some (i, User.set_role role user) /\
      users_ok (snd (handler user s)) /\
      (forall e, e <> User.email user ->
         find_one (user_by_email e) (user_coll (snd (handler user s))) =
         find_one (user_by_email e) (user_coll s)) /\
      match fst (handler user s) with
      | Updated =>
          exists old,
            find_one (user_by_email (User.email user)) (user_coll s) =
              Some (i, old) /\
            List.length (user_coll (snd (handler user s))) =
              List.length (user_coll s)
      | Created id =>
          id = ObjectId.str i /\
          find_one (user_by_email (User.email user)) (user_coll s) = None
      end.
Proof.
  intros handler role [[-> ->] | [-> ->]];
    [exact (onboard_outcome "customer" user s Hok)
    | exact (onboard_outcome "owner" user s Hok)].
Qed.

Lemma sample_accounts_ok : users_ok sample_accounts.
Proof.
  split; [split|]; cbn.
  - constructor; [intros [] | constructor].
  - now repeat constructor.
  - constructor; [intros [] | constructor].
Qed.

(** A stored customer onboards as an owner. *)
Lemma onboard_registers_witness :
  exists i,
    find_one (user_by_email "ann@mail.io")
      (user_coll (snd (onboard_owner (sample_user "ann@mail.io")
                         sample_accounts))) =
      Some (i, User.set_role "owner" (sample_user "ann@mail.io")).
Proof.
  destruct (onboard_registers (sample_user "ann@mail.io") sample_accounts
              sample_accounts_ok onboard_owner "owner"
              (or_intror (conj eq_refl eq_refl))) as (i & Hi & _).
  exists i. exact Hi.
Defined.

Section LoginFacts.

Variable EmailStr : string -> option string.

(** After onboarding, the address finds the payload under the forced role;
    the identifiers of the users are distinct, as the store keeps them. *)
Lemma onboard_lookup role user s :
  NoDup (map fst (user_coll s)) ->
  exists i,
    find_one (user_by_email (User.email user))
      (user_coll (snd (onboard role user s))) =
    Some (i, User.set_role role user).
Proof.
  intros Hids. unfold onboard. cbv zeta.
  change (User.email (User.set_role role user)) with (User.email user).
  destruct (find_one (user_by_email (User.email user)) (user_coll s))
    as [existing|] eqn:Hf.
  - destruct (user_update_found (user_coll s) _ existing
                (fun _ => User.set_role role user) Hids Hf)
      as (l1 & l2 & E & Hl1 & He & Hupd).
    rewrite Hupd. cbn [fst snd user_coll]. exists (fst existing).
    apply find_one_app_first; [exact Hl1|].
    unfold user_by_email. cbn [snd]. apply String.eqb_refl.
  - unfold create_user_document. cbn [fst snd user_coll].
    exists (next_id (accounts_db s)).
    apply (find_one_app_first _ (user_coll s) []).
    + now apply find_one_none.
    + unfold user_by_email. cbn [snd]. apply String.eqb_refl.
Qed.

(** X16.  A user who has onboarded logs in under the role of the endpoint:
    [login] with the address of the payload answers "ok" with that role, and
    creates nothing.  The [_id] values of the user collection are distinct,
    as the store keeps them; several users may share an address. *)
Theorem login_after_onboard (user : User.t) (s : Accounts)
  (Hids : NoDup (map fst (user_coll s))) :
  (exists id,
     login EmailStr (User.email user) (snd (onboard_customer user s)) =
     (Some {| login_status := "ok"; login_email := User.email user;
              login_role := "customer"; login_id := id |},
      snd (onboard_customer user s))) /\
  (exists id,
     login EmailStr (User.email user) (snd (onboard_owner user s)) =
     (Some {| login_status := "ok"; login_email := User.email user;
              login_role := "owner"; login_id := id |},
      snd (onboard_owner user s))).
Proof.
  split.
  - destruct (onboard_lookup "customer" user s Hids) as (i & Hi).
    exists (ObjectId.str i). unfold login, onboard_customer. now rewrite Hi.
  - destruct (onboard_lookup "owner" user s Hids) as (i & Hi).
    exists (ObjectId.str i). unfold login, onboard_owner. now rewrite Hi.
Qed.

(** X17.  A first login under an address that no user has creates a customer
    under the validated form of the address.  When the validated form is the
    address as sent, a second login finds that user and creates nothing;
    when validation changes the address, the second login finds no one under
    the address as sent and creates a second user. *)
Theorem login_twice (e v : string) (s : Accounts)
  (Hnew : find_one (user_by_email e) (user_coll s) = None)
  (Hvalid : EmailStr e = Some v) :
  fst (login EmailStr e s) =
    Some {| login_status := "created"; login_email := e;
            login_role := "customer";
            login_id := ObjectId.str (next_id (accounts_db s)) |} /\
  (v = e ->
   login EmailStr e (snd (login EmailStr e s)) =
   (Some {| login_status := "ok"; login_email := e;
            login_role := "customer";
            login_id := ObjectId.str (next_id (accounts_db s)) |},
    snd (login EmailStr e s))) /\
  (v <> e ->
   fst (login EmailStr e (snd (login EmailStr e s))) =
     Some {| login_status := "created"; login_email := e;
             login_role := "customer";
             login_id := ObjectId.str (N.succ (next_id (accounts_db s))) |} /\
   List.length
     (find (user_by_email v)
        (user_coll (snd (login EmailStr e (snd (login EmailStr e s)))))) =
   (2 + List.length (find (user_by_email v) (user_coll s)))%nat).
Proof.
  set (new := {| User.role := "customer"; User.full_name := "New User";
                 User.email := v;
                 User.phone := None; User.location := None;
                 User.avatar_url := None; User.driver_license := None;
                 User.company_name := None;
                 User.verification_status := "pending" |}).
  assert (E1 : login EmailStr e s =
               (Some {| login_status := "created"; login_email := e;
                        login_role := "customer";
                        login_id := ObjectId.str (next_id (accounts_db s)) |},
                {| accounts_db := bump_id (accounts_db s);
                   user_coll :=
                     user_coll s ++ [(next_id (accounts_db s), new)] |})).
  { unfold login. now rewrite Hnew, Hvalid. }
  rewrite E1. cbn [fst snd].
  split; [reflexivity|]. split.
  - intros ->. unfold login. cbn [user_coll].
    rewrite (find_one_app_first (user_by_email e) (user_coll s) []
               (next_id (accounts_db s), new));
      [reflexivity | now apply find_one_none |].
    unfold user_by_email. cbn [snd]. apply String.eqb_refl.
  - intros Hne. unfold login. cbn [user_coll accounts_db].
    rewrite find_one_other_new, Hnew, Hvalid.
    + unfold create_user_document.
      cbn [fst snd user_coll accounts_db next_id bump_id].
      split; [reflexivity|]. fold new.
      unfold find, user_by_email. rewrite !filter_app, !length_app.
      cbn [filter snd User.email new]. rewrite !String.eqb_refl.
      cbn [List.length]. lia.
    + unfold user_by_email. cbn [snd]. now apply String.eqb_neq.
Qed.

End LoginFacts.

(** Two logins under an address with capitals leave two users under one
    address; onboarding as an owner and logging in still answers "owner". *)
Lemma login_after_onboard_witness :
  exists id,
    login folding_EmailStr "ann@mail.io"
      (snd (onboard_owner (sample_user "ann@mail.io") twice_logged_in)) =
    (Some {| login_status := "ok"; login_email := "ann@mail.io";
             login_role := "owner"; login_id := id |},
     snd (onboard_owner (sample_user "ann@mail.io") twice_logged_in)).
Proof.
  refine (proj2 (login_after_onboard folding_EmailStr
                   (sample_user "ann@mail.io") twice_logged_in _)).
  cbn. constructor; [intros [H | []]; discriminate|].
  constructor; [intros [] | constructor].
Defined.

(** An address sent with capitals: two logins, two users. *)
Lemma login_twice_witness :
  fst (login folding_EmailStr "Ann@Mail.io"
         (snd (login folding_EmailStr "Ann@Mail.io" no_accounts))) =
  Some {| login_status := "created"; login_email := "Ann@Mail.io";
          login_role := "customer";
          login_id := ObjectId.str (N.succ (next_id (accounts_db no_accounts))) |}.
Proof.
  apply (login_twice folding_EmailStr "Ann@Mail.io" "ann@mail.io" no_accounts
           eq_refl eq_refl).
  discriminate.
Defined.

(** ** What the requests never do *)

(** X18.  [get_car] fails with [InvalidId] exactly when the identifier
    parser refuses [car_id], and with NotFound exactly when the parser takes
    [car_id] and no car has the identifier it reads.  When [get_car]
    returns, the car is the stored car with that identifier, and the [id] of
    the response is what [ObjectIdStr] makes of [car_id], which need not be
    the text that was sent. *)
Theorem get_car_outcomes (car_id : string) (db : DB) :
  (get_car car_id db = Raise InvalidId <-> ObjectId.parse car_id = None) /\
  ((exists e, get_car car_id db = Raise e /\ NotFound e) <->
   (exists oid, ObjectId.parse car_id = Some oid /\
                forall d, In d (car_coll db) -> fst d <> oid)) /\
  (forall x, get_car car_id db = Return x ->
     exists oid, ObjectId.parse car_id = Some oid /\
                 In (oid, snd x) (car_coll db) /\
                 ObjectIdStr_validate car_id = Some (fst x)).
Proof.
  unfold get_car, ObjectIdStr_validate.
  destruct (ObjectId.parse car_id) as [oid|]; cbn [option_map].
  - destruct (find_one (by_id oid) (car_coll db)) as [d|] eqn:Hf.
    + destruct (find_one_split _ _ _ Hf) as (l1 & l2 & E & Hd & _).
      unfold by_id in Hd. apply N.eqb_eq in Hd.
      split; [split; discriminate|]. split.
      * split.
        -- intros (e & [=] & _).
        -- intros (oid' & [= <-] & Hno). exfalso. apply (Hno d); [|exact Hd].
           rewrite E. apply in_or_app. right. now left.
      * intros x [= <-]. exists oid. split; [reflexivity|]. cbn [fst snd].
        rewrite Hd. split; [|reflexivity].
        rewrite E. apply in_or_app. right. left. rewrite <- Hd.
        now destruct d.
    + split; [split; discriminate|]. split; [|discriminate].
      split.
      * intros _. exists oid. split; [reflexivity|]. intros d Hin Heq.
        pose proof (find_one_none _ _ Hf d Hin) as Hno.
        unfold by_id in Hno. apply N.eqb_neq in Hno. contradiction.
      * intros _. eexists. split; [reflexivity|]. now exists "Car not found".
  - split; [split; reflexivity|]. split; [|discriminate].
    split.
    + intros (e & [= <-] & Hnf). now apply not_found_is_not_invalid_id in Hnf.
    + intros (oid & [=] & _).
Qed.

(** [get_car] answers NotFound, not [InvalidId], for 24 characters of digit
    pairs and blanks, and returns the identifier in lower case for one sent
    in capitals. *)
Example get_car_examples :
  get_car "00 00 00 00 00 00 00 01 " sample_db =
    Raise (HTTPException 404 "Car not found") /\
  get_car "00000000000000000000000G" sample_db = Raise InvalidId /\
  get_car "000000000000000000000001" sample_db =
    Return ("000000000000000000000001", sample_car).
Proof. vm_compute. repeat split; reflexivity. Qed.

Section Growth.

Lemma restatused_refl o : restatused o o.
Proof. unfold restatused. now destruct o. Qed.

Lemma restatused_trans o1 o2 o3 :
  restatused o1 o2 -> restatused o2 o3 -> restatused o1 o3.
Proof. unfold restatused. intros <- <-. reflexivity. Qed.

Lemma restatused_car_id o o' : restatused o o' -> Order.car_id o' = Order.car_id o.
Proof. unfold restatused. now intros <-. Qed.

Lemma references_kept {D : Type} id (c added : collection D) :
  references id c -> references id (c ++ added).
Proof.
  intros (oid & d & Hp & Hf). exists oid, d. split; [exact Hp|].
  now apply find_one_kept.
Qed.

(** A store whose collections are those of another, orders apart. *)
Lemma grows_intro db db' cars notes txs :
  car_coll db' = car_coll db ++ cars ->
  notification_coll db' = notification_coll db ++ notes ->
  transaction_coll db' = transaction_coll db ++ txs ->
  (forall d, In d (order_coll db) ->
     exists d', In d' (order_coll db') /\ fst d' = fst d /\
                restatused (snd d) (snd d')) ->
  (forall d', In d' (order_coll db') ->
     (exists d, In d (order_coll db) /\ fst d' = fst d /\
                restatused (snd d) (snd d')) \/
     references (Order.car_id (snd d')) (car_coll db')) ->
  grows db db'.
Proof.
  intros Hc Hn Ht Ho1 Ho2.
  split; [now exists cars|]. split; [now exists notes|].
  split; [now exists txs|]. split; assumption.
Qed.

Lemma grows_same_orders db db' cars notes txs :
  car_coll db' = car_coll db ++ cars ->
  notification_coll db' = notification_coll db ++ notes ->
  transaction_coll db' = transaction_coll db ++ txs ->
  order_coll db' = order_coll db ->
  grows db db'.
Proof.
  intros Hc Hn Ht Ho. apply (grows_intro db db' cars notes txs Hc Hn Ht);
    rewrite Ho.
  - intros d Hd. exists d. split; [assumption|]. split; [reflexivity|].
    apply restatused_refl.
  - intros d Hd. left. exists d. split; [assumption|].
    split; [reflexivity|]. apply restatused_refl.
Qed.

Lemma grows_refl db : grows db db.
Proof.
  apply (grows_same_orders db db [] [] []); now rewrite ?app_nil_r.
Qed.

Lemma grows_trans db1 db2 db3 : grows db1 db2 -> grows db2 db3 -> grows db1 db3.
Proof.
  intros ([c1 Hc1] & [n1 Hn1] & [t1 Ht1] & Hf1 & Hb1)
         ([c2 Hc2] & [n2 Hn2] & [t2 Ht2] & Hf2 & Hb2).
  apply (grows_intro db1 db3 (c1 ++ c2) (n1 ++ n2) (t1 ++ t2)).
  - now rewrite Hc2, Hc1, app_assoc.
  - now rewrite Hn2, Hn1, app_assoc.
  - now rewrite Ht2, Ht1, app_assoc.
  - intros d Hd. destruct (Hf1 d Hd) as (d' & Hd' & Hid' & Hr').
    destruct (Hf2 d' Hd') as (d'' & Hd'' & Hid'' & Hr'').
    exists d''. split; [assumption|]. split; [congruence|].
    now apply (restatused_trans _ (snd d')).
  - intros d'' Hd''. destruct (Hb2 d'' Hd'') as [(d' & Hd' & Hid' & Hr') | Href];
      [|now right].
    destruct (Hb1 d' Hd') as [(d & Hd & Hid & Hr) | Href].
    + left. exists d. split; [assumption|]. split; [congruence|].
      now apply (restatused_trans _ (snd d')).
    + right. rewrite (restatused_car_id _ _ Hr'), Hc2.
      now apply references_kept.
Qed.

Lemma handle_grows r db : grows db (handle r db).
Proof.
  destruct r as [car | order | order_id status | tx]; cbn [handle].
  - unfold create_car, create_document.
    destruct (negb _); cbn [snd]; [apply grows_refl|].
    apply (grows_same_orders _ _ [(next_id db, car)] [] []);
      cbn [car_coll order_coll notification_coll transaction_coll
           get_coll set_coll bump_id]; now rewrite ?app_nil_r.
  - destruct (ObjectId.parse (Order.car_id order)) as [oid|] eqn:Hp.
    + destruct (find_one (by_id oid) (car_coll db)) as [car|] eqn:Hf.
      * rewrite (create_order_car_found order db oid car Hp Hf). cbn [snd].
        apply (grows_intro _ _ []
                 [(N.succ (next_id db), order_notification order)] []);
          cbn [car_coll order_coll notification_coll transaction_coll
               set_coll bump_id]; rewrite ?app_nil_r; try reflexivity.
        -- intros d Hd. exists d. split; [apply in_or_app; now left|].
           split; [reflexivity | apply restatused_refl].
        -- intros d' Hd'. apply in_app_or in Hd' as [Hd' | [<- | []]].
           ++ left. exists d'. split; [assumption|].
              split; [reflexivity | apply restatused_refl].
           ++ right. cbn [snd]. now exists oid, car.
      * rewrite (create_order_no_car order db oid Hp Hf). apply grows_refl.
    + rewrite (create_order_invalid_id order db Hp). apply grows_refl.
  - destruct (ObjectId.parse order_id) as [oid|] eqn:Hp.
    + destruct (find_one (by_id oid) (order_coll db)) as [d|] eqn:Hf.
      * destruct (update_order_status_found order_id status db oid d Hp Hf)
          as (l1 & l2 & E & _ & ->). cbn [snd].
        apply (grows_intro _ _ [] [] []);
          cbn [car_coll order_coll notification_coll transaction_coll
               set_coll]; rewrite ?app_nil_r; try reflexivity; rewrite E.
        -- intros x Hx. apply in_app_or in Hx as [Hx | [<- | Hx]].
           ++ exists x. split; [apply in_or_app; now left|].
              split; [reflexivity | apply restatused_refl].
           ++ exists (fst d, Order.set_status status (snd d)).
              split; [apply in_or_app; right; now left|].
              split; reflexivity.
           ++ exists x. split; [apply in_or_app; right; now right|].
              split; [reflexivity | apply restatused_refl].
        -- intros x Hx. left. apply in_app_or in Hx as [Hx | [<- | Hx]].
           ++ exists x. split; [apply in_or_app; now left|].
              split; [reflexivity | apply restatused_refl].
           ++ exists d. split; [apply in_or_app; right; now left|].
              split; reflexivity.
           ++ exists x. split; [apply in_or_app; right; now right|].
              split; [reflexivity | apply restatused_refl].
      * rewrite (update_order_status_missing order_id status db oid Hp Hf).
        apply grows_refl.
    + rewrite (update_order_status_invalid_id order_id status db Hp).
      apply grows_refl.
  - rewrite create_transaction_unfold. cbv zeta.
    destruct (earned_points (Transaction.amount tx)) as [pts|];
      [destruct (find_one _ (reward_coll db)) as [existing|];
       destruct (int64 _)|];
      cbn [snd];
      apply (grows_same_orders _ _ [] [] [(next_id db, tx)]);
      cbn [car_coll order_coll notification_coll transaction_coll
           set_coll bump_id]; now rewrite ?app_nil_r.
Qed.

Lemma handle_all_grows rs : forall db, grows db (handle_all rs db).
Proof.
  induction rs as [|r rs IH]; intros db; cbn [handle_all].
  - apply grows_refl.
  - eapply grows_trans; [apply handle_grows | apply IH].
Qed.

End Growth.

(** X19.  No request deletes anything.  Over any run of requests: a car that
    [get_car] returned is returned as before; the notifications and the
    transactions listed for an address are still listed, in front of the
    new ones; and an order that was listed is still listed under its
    identifier, with at most another status. *)
Theorem nothing_is_deleted (rs : list request) (db : DB) :
  (forall car_id x,
     get_car car_id db = Return x ->
     get_car car_id (handle_all rs db) = Return x) /\
  (forall email, exists more,
     get_notifications (Some (handle_all rs db)) email =
     get_notifications (Some db) email ++ more) /\
  (forall email, exists more,
     list_transactions (Some (handle_all rs db)) email =
     list_transactions (Some db) email ++ more) /\
  (forall id o,
     In (id, o) (list_orders (Some db) None None) ->
     exists o', In (id, o') (list_orders (Some (handle_all rs db)) None None) /\
                restatused o o').
Proof.
  destruct (handle_all_grows rs db)
    as ([cars Hc] & [notes Hn] & [txs Ht] & Hf & _).
  split; [|split; [|split]].
  - intros car_id x. unfold get_car. rewrite Hc.
    destruct (ObjectId.parse car_id) as [oid|]; [|discriminate].
    destruct (find_one (by_id oid) (car_coll db)) as [d|] eqn:Hd;
      [|discriminate].
    now rewrite (find_one_kept _ _ cars d Hd).
  - intros email. unfold get_notifications. rewrite Hn, find_app.
    eexists. reflexivity.
  - intros email. unfold list_transactions. rewrite Ht, find_app.
    eexists. reflexivity.
  - intros id o. unfold list_orders. cbn [Text.supplied andb app forallb].
    rewrite !find_all, !in_with_id. intros (oid & Hin & ->).
    destruct (Hf (oid, o) Hin) as ([oid' o'] & Hin' & Hid & Hr).
    cbn [fst snd] in *. subst oid'. exists o'. split; [|exact Hr].
    apply in_with_id. now exists oid.
Qed.

(** X20.  When every order of the store names a car of the store, this is so
    after any run of requests: [create_order] checks the car, a car is never
    removed, and an order never changes its car. *)
Theorem orders_keep_their_cars (rs : list request) (db : DB)
  (Hrefs : orders_reference_cars db) :
  orders_reference_cars (handle_all rs db).
Proof.
  destruct (handle_all_grows rs db) as ([cars Hc] & _ & _ & _ & Hb).
  unfold orders_reference_cars in *. rewrite Forall_forall in *.
  intros d' Hd'. destruct (Hb d' Hd') as [(d & Hd & _ & Hr) | Href];
    [|exact Href].
  rewrite (restatused_car_id _ _ Hr), Hc.
  apply references_kept. now apply Hrefs.
Qed.

Lemma orders_keep_their_cars_witness :
  orders_reference_cars
    (handle_all [Create_order (sample_order "000000000000000000000001");
                 Update_order_status "000000000000000000000002" "pending";
                 Create_car sample_car] sample_db).
Proof.
  apply (orders_keep_their_cars _ sample_db).
  unfold orders_reference_cars. cbn [order_coll car_coll sample_db].
  constructor; [|constructor]. now exists 1%N, (1%N, sample_car).
Defined.

(** ** The books of the store *)

Section Ledger.

Local Open Scope Z_scope.

Lemma fold_add_app (l1 l2 : list Z) :
  fold_right Z.add 0 (l1 ++ l2) = fold_right Z.add 0 l1 + fold_right Z.add 0 l2.
Proof. induction l1 as [|x l1 IH]; cbn [app fold_right]; lia. Qed.

Lemma earned_total_app e txs n tx :
  earned_total e (txs ++ [(n, tx)]) =
  earned_total e txs +
  (if String.eqb (Transaction.customer_email tx) e then points_of tx else 0).
Proof.
  unfold earned_total, find. rewrite filter_app, map_app, fold_add_app.
  f_equal. cbn [filter snd].
  destruct (String.eqb (Transaction.customer_email tx) e); cbn; lia.
Qed.

(** A lookup does not see a change to a document that it skips. *)
Lemma find_one_skip {D : Type} (flt : ObjectId.t * D -> bool) l1 l2 d d' :
  flt d = false -> flt d' = false ->
  find_one flt (l1 ++ d' :: l2) = find_one flt (l1 ++ d :: l2).
Proof.
  intros Hd Hd'. unfold find_one.
  induction l1 as [|x l1 IH]; cbn [app List.find].
  - now rewrite Hd, Hd'.
  - now rewrite IH.
Qed.

Lemma find_one_skip_new {D : Type} (flt : ObjectId.t * D -> bool) c d :
  flt d = false -> find_one flt (c ++ [d]) = find_one flt c.
Proof.
  intros Hd. unfold find_one.
  induction c as [|x l IH]; cbn [app List.find].
  - now rewrite Hd.
  - now rewrite IH.
Qed.

Lemma points_of_nonneg tx : 0 <= points_of tx.
Proof.
  unfold points_of.
  destruct (earned_points (Transaction.amount tx)) as [p|] eqn:Hp; [|lia].
  pose proof (earned_points_at_least_1 _ _ Hp). lia.
Qed.

(** One transaction keeps the books: the customer's balance grows by at most
    the points the transaction earned, and no other balance moves. *)
Lemma create_transaction_ledger tx db :
  ids_ok db ->
  (forall e, 0 <= balance e db <= earned_total e (transaction_coll db)) ->
  forall e,
    0 <= balance e (snd (create_transaction tx db))
      <= earned_total e (transaction_coll (snd (create_transaction tx db))).
Proof.
  intros (_ & _ & _ & _ & Hnd & _) Hbooks e. specialize (Hbooks e).
  rewrite create_transaction_unfold. cbv zeta.
  pose proof (earned_total_app e (transaction_coll db) (next_id db) tx) as Happ.
  pose proof (points_of_nonneg tx) as Hpos.
  assert (Hkept : forall db',
            reward_coll db' = reward_coll db ->
            transaction_coll db' = transaction_coll db ++ [(next_id db, tx)] ->
            0 <= balance e db' <= earned_total e (transaction_coll db')).
  { intros db' Hr Ht. unfold balance, customer_points in *.
    rewrite Hr, Ht, Happ. destruct (String.eqb _ e); lia. }
  unfold points_of in Happ, Hpos.
  destruct (earned_points (Transaction.amount tx)) as [pts|] eqn:Hpts;
    [|now apply Hkept].
  destruct (find_one (by_email (Transaction.customer_email tx)) (reward_coll db))
    as [existing|] eqn:Hf; (destruct (int64 _); [|now apply Hkept]).
  - destruct (reward_update_found db _ existing
                (Reward.set_points_tier (Reward.points (snd existing) + pts)
                   (tier_for (Reward.points (snd existing) + pts))) Hnd Hf)
      as (l1 & l2 & E & Hl1 & He & Hupd).
    rewrite Hupd. unfold balance, customer_points in *.
    cbn [snd reward_coll transaction_coll set_coll bump_id].
    rewrite Happ.
    destruct (String.eqb_spec (Transaction.customer_email tx) e) as [<- | Hne].
    + rewrite Hf in Hbooks. cbn [option_map] in Hbooks.
      rewrite (find_one_app_first _ l1 l2
                 (fst existing,
                  Reward.set_points_tier (Reward.points (snd existing) + pts)
                    (tier_for (Reward.points (snd existing) + pts))
                    (snd existing)) Hl1 He).
      cbn [option_map snd Reward.set_points_tier Reward.points]. lia.
    + assert (Hother : by_email e existing = false).
      { unfold by_email in *. apply String.eqb_eq in He.
        apply String.eqb_neq. congruence. }
      rewrite (find_one_skip (by_email e) l1 l2 existing); auto.
      rewrite <- E. lia.
  - unfold balance, customer_points in *.
    cbn [snd reward_coll transaction_coll set_coll bump_id].
    rewrite Happ.
    destruct (String.eqb_spec (Transaction.customer_email tx) e) as [<- | Hne].
    + rewrite Hf in Hbooks. cbn [option_map] in Hbooks.
      rewrite (find_one_app_first _ (reward_coll db) []
                 (N.succ (next_id db),
                  {| Reward.email := Transaction.customer_email tx;
                     Reward.points := pts; Reward.tier := Bronze |}));
        [ | now apply find_one_none
          | unfold by_email; cbn [snd Reward.email]; apply String.eqb_refl ].
      cbn [option_map snd Reward.points]. lia.
    + rewrite find_one_skip_new;
        [lia | unfold by_email; cbn [snd Reward.email];
               now apply String.eqb_neq].
Qed.

(** The requests that are no transaction leave the transactions alone. *)
Lemma handle_other_transactions r db :
  (forall tx, r <> Create_transaction tx) ->
  transaction_coll (handle r db) = transaction_coll db.
Proof.
  intros Hr. destruct r as [car | order | order_id status | tx]; cbn [handle].
  - unfold create_car, create_document. now destruct (negb _).
  - destruct (ObjectId.parse (Order.car_id order)) as [oid|] eqn:Hp.
    + destruct (find_one (by_id oid) (car_coll db)) as [car|] eqn:Hf.
      * now rewrite (create_order_car_found order db oid car Hp Hf).
      * now rewrite (create_order_no_car order db oid Hp Hf).
    + now rewrite (create_order_invalid_id order db Hp).
  - destruct (ObjectId.parse order_id) as [oid|] eqn:Hp.
    + destruct (find_one (by_id oid) (order_coll db)) as [d|] eqn:Hf.
      * now destruct (update_order_status_found order_id status db oid d Hp Hf)
          as (l1 & l2 & _ & _ & ->).
      * now rewrite (update_order_status_missing order_id status db oid Hp Hf).
    + now rewrite (update_order_status_invalid_id order_id status db Hp).
  - now elim (Hr tx).
Qed.

Lemma handle_ledger r db :
  ids_ok db ->
  (forall e, 0 <= balance e db <= earned_total e (transaction_coll db)) ->
  forall e,
    0 <= balance e (handle r db)
      <= earned_total e (transaction_coll (handle r db)).
Proof.
  intros Hids Hbooks.
  assert (Hother : (forall tx, r <> Create_transaction tx) ->
            forall e, 0 <= balance e (handle r db)
                        <= earned_total e (transaction_coll (handle r db))).
  { intros Hr e. unfold balance, customer_points.
    rewrite (handle_other_rewards r db Hr), (handle_other_transactions r db Hr).
    apply Hbooks. }
  destruct r as [car | order | order_id status | tx];
    try (apply Hother; discriminate).
  now apply create_transaction_ledger.
Qed.

Lemma handle_all_ledger rs : forall db,
  ids_ok db ->
  (forall e, 0 <= balance e db <= earned_total e (transaction_coll db)) ->
  forall e,
    0 <= balance e (handle_all rs db)
      <= earned_total e (transaction_coll (handle_all rs db)).
Proof.
  induction rs as [|r rs IH]; intros db Hids Hbooks; cbn [handle_all];
    [exact Hbooks|].
  apply IH; [now apply handle_ids_ok | now apply handle_ledger].
Qed.

(** Each accepted order comes with its notification, and a change of status
    leaves the notification right. *)
Lemma handle_notes r db :
  notes db = notes_of_orders db ->
  notes (handle r db) = notes_of_orders (handle r db).
Proof.
  unfold notes, notes_of_orders. intros H.
  destruct r as [car | order | order_id status | tx]; cbn [handle].
  - unfold create_car, create_document. now destruct (negb _).
  - destruct (ObjectId.parse (Order.car_id order)) as [oid|] eqn:Hp.
    + destruct (find_one (by_id oid) (car_coll db)) as [car|] eqn:Hf.
      * rewrite (create_order_car_found order db oid car Hp Hf).
        cbn [snd notification_coll order_coll set_coll bump_id].
        rewrite !map_app, H. reflexivity.
      * now rewrite (create_order_no_car order db oid Hp Hf).
    + now rewrite (create_order_invalid_id order db Hp).
  - destruct (ObjectId.parse order_id) as [oid|] eqn:Hp.
    + destruct (find_one (by_id oid) (order_coll db)) as [d|] eqn:Hf.
      * destruct (update_order_status_found order_id status db oid d Hp Hf)
          as (l1 & l2 & E & _ & ->).
        cbn [snd notification_coll order_coll set_coll].
        rewrite H, E, !map_app. reflexivity.
      * now rewrite (update_order_status_missing order_id status db oid Hp Hf).
    + now rewrite (update_order_status_invalid_id order_id status db Hp).
  - rewrite create_transaction_unfold. cbv zeta.
    destruct (earned_points (Transaction.amount tx)) as [pts|];
      [destruct (find_one _ (reward_coll db)) as [existing|];
       destruct (int64 _)|];
      exact H.
Qed.

End Ledger.

Lemma empty_db_ids_ok : ids_ok empty_db.
Proof.
  assert (Hnil : forall D : Type, coll_ok (@nil (ObjectId.t * D)) 0%N)
    by (intros D; split; constructor).
  unfold ids_ok. cbn.
  split; [|split; [|split; [|split]]]; apply Hnil.
Qed.

(** X21.  Reward points are backed by stored transactions: in every store
    the handlers build from the empty one, the points on a customer's reward
    record are at most the sum of the points that the customer's stored
    transactions earned, and never negative.  No request gives points
    without storing the transaction that earned them. *)
Theorem points_backed_by_transactions (rs : list request) (e : string) :
  (0 <= balance e (handle_all rs empty_db)
     <= earned_total e (transaction_coll (handle_all rs empty_db)))%Z.
Proof.
  apply handle_all_ledger; [exact empty_db_ids_ok|].
  intros e'. cbv. split; discriminate.
Qed.

(** X22.  Notifications come from orders: in every store the handlers build
    from the empty one, each notification is the one that a stored order
    calls for, addressed to the owner of that order and naming its type, and
    there are no more notifications than orders. *)
Theorem notifications_come_from_orders (rs : list request) :
  (forall n, In n (notification_coll (handle_all rs empty_db)) ->
     exists o, In o (order_coll (handle_all rs empty_db)) /\
               snd n = order_notification (snd o)) /\
  (List.length (notification_coll (handle_all rs empty_db)) <=
   List.length (order_coll (handle_all rs empty_db)))%nat.
Proof.
  assert (H : forall db, notes db = notes_of_orders db ->
                         notes (handle_all rs db) =
                         notes_of_orders (handle_all rs db)).
  { induction rs as [|r rs IH]; intros db Hdb; cbn [handle_all];
      [exact Hdb|].
    apply IH. now apply handle_notes. }
  specialize (H empty_db eq_refl). unfold notes, notes_of_orders in H.
  split.
  - intros n Hn. apply (in_map snd) in Hn. rewrite H in Hn.
    apply in_map_iff in Hn as (o & Ho & Hin). now exists o.
  - apply (f_equal (@List.length _)) in H. rewrite !length_map in H. lia.
Qed.
